(** * OpenMW character physics: the movement solver and its facade

  A shallow embedding of [apps/openmw/mwphysics/physicssystem.cpp]:
  [MovementSolver] ([stepMove], [traceDown], [move]), [HeightField],
  [Object] and the [PhysicsSystem] operations that register colliders,
  queue movement and drain the queue on the fixed physics tick, remove
  and re-key entities, and maintain the water plane.

  C++ [float] is IEEE-754 binary32 with round-to-nearest-even; it is
  modelled by [spec_float] at precision 24, so the definitions below
  evaluate, roundings included, as the code does where [float]
  expressions are evaluated in binary32. *)

From Stdlib Require Import ZArith Bool Lia.
From Stdlib Require Import Floats.SpecFloat.
From stdpp Require Import base option list gmap strings.

Open Scope Z_scope.

(** ** binary32 arithmetic *)

Module F32.

Definition prec : Z := 24.
Definition emax : Z := 128.

Definition add := SFadd prec emax.
Definition sub := SFsub prec emax.
Definition mul := SFmul prec emax.
Definition div := SFdiv prec emax.
Definition sqrt := SFsqrt prec emax.
Definition neg := SFopp.

(** [a < b], [a <= b], [a == b]; [a > b] is [b < a].  Every comparison
    with a NaN is false. *)
Definition ltb := SFltb.
Definition leb := SFleb.
Definition eqb := SFeqb.
Definition gtb (a b : spec_float) := SFltb b a.
Definition geb (a b : spec_float) := SFleb b a.

(** Conversion of an [int] to [float]. *)
Definition of_Z (z : Z) : spec_float := binary_normalize prec emax z 0 false.

(** The literal [n/d] written in decimal (627.2f is [lit 6272 10]): the
    correctly rounded quotient of two exactly representable integers. *)
Definition lit (n d : Z) : spec_float := div (of_Z n) (of_Z d).

(** [std::numeric_limits<float>::epsilon()] and [::max()]. *)
Definition epsilon : spec_float := SFldexp prec emax (of_Z 1) (-23).
Definition max_float : spec_float := SFmax_float prec emax.

(** [std::min] and [std::max] as the standard library defines them. *)
Definition min (a b : spec_float) := if ltb b a then b else a.
Definition max (a b : spec_float) := if ltb a b then b else a.

(** Conversion of a [float] to [int], of 32 bits: the value truncated
    toward zero.  A NaN, an infinity and a value whose truncation is
    not an [int] have no converted value: the conversion is undefined
    for them. *)
Definition to_int (a : spec_float) : option Z :=
  match a with
  | S754_zero _ => Some 0
  | S754_finite s m e =>
      let magnitude := Z.shiftl (Z.pos m) e in
      let z := if s then - magnitude else magnitude in
      if (- 2 ^ 31 <=? z) && (z <? 2 ^ 31) then Some z else None
  | _ => None
  end.

(** Conversion of a [float] used in a boolean context. *)
Definition nonzero (a : spec_float) : bool := negb (eqb a (of_Z 0)).

(** A binary32 number in its canonical form that is neither a NaN nor
    an infinity. *)
Definition finite (a : spec_float) : bool :=
  valid_binary prec emax a
  && match a with
     | S754_zero _ | S754_finite _ _ _ => true
     | _ => false
     end.

Definition is_zero (a : spec_float) : bool :=
  match a with
  | S754_zero _ => true
  | _ => false
  end.

End F32.

(** A [double] literal, and the exact promotion of a [float] to [double]
  that precedes a comparison between the two. *)
Module F64.

Definition prec : Z := 53.
Definition emax : Z := 1024.

Definition of_Z (z : Z) : spec_float := binary_normalize prec emax z 0 false.
Definition lit (n d : Z) : spec_float := SFdiv prec emax (of_Z n) (of_Z d).

Definition of_float (a : spec_float) : spec_float :=
  match a with
  | S754_finite s m e => binary_round prec emax s m e
  | _ => a
  end.

Definition ltb := SFltb.

End F64.

Abbreviation float := spec_float.

#[global] Arguments F32.add : simpl never.
#[global] Arguments F32.sub : simpl never.
#[global] Arguments F32.mul : simpl never.
#[global] Arguments F32.div : simpl never.
#[global] Arguments F32.sqrt : simpl never.
#[global] Arguments F32.neg : simpl never.
#[global] Arguments F32.ltb : simpl never.
#[global] Arguments F32.leb : simpl never.
#[global] Arguments F32.gtb : simpl never.
#[global] Arguments F32.geb : simpl never.
#[global] Arguments F32.eqb : simpl never.
#[global] Arguments F32.of_Z : simpl never.
#[global] Arguments F32.lit : simpl never.
#[global] Arguments F32.min : simpl never.
#[global] Arguments F32.max : simpl never.
#[global] Arguments F32.to_int : simpl never.
#[global] Arguments F64.of_Z : simpl never.
#[global] Arguments F64.lit : simpl never.
#[global] Arguments F64.of_float : simpl never.
#[global] Arguments F64.ltb : simpl never.

Declare Scope f32_scope.
Delimit Scope f32_scope with f32.
Infix "+" := F32.add : f32_scope.
Infix "-" := F32.sub : f32_scope.
Infix "*" := F32.mul : f32_scope.
Infix "/" := F32.div : f32_scope.
Notation "- x" := (F32.neg x) : f32_scope.
Infix "<?" := F32.ltb : f32_scope.
Infix "<=?" := F32.leb : f32_scope.
Infix ">?" := F32.gtb : f32_scope.
Infix ">=?" := F32.geb : f32_scope.

(** ** osg::Vec3f

  The vector class of the scene-graph library: three [float]s with
  component-wise arithmetic.  The dot product and [length2] sum their
  three products from left to right; [normalize] divides by the length
  when that is positive and returns the previous length. *)

Module osg.

Record Vec3f := mkVec3f { x : float; y : float; z : float }.

Definition vec (a b c : Z) : Vec3f :=
  mkVec3f (F32.of_Z a) (F32.of_Z b) (F32.of_Z c).

Definition set_z (v : Vec3f) (c : float) : Vec3f := mkVec3f (x v) (y v) c.

Definition plus (u v : Vec3f) : Vec3f :=
  mkVec3f (x u + x v)%f32 (y u + y v)%f32 (z u + z v)%f32.

Definition minus (u v : Vec3f) : Vec3f :=
  mkVec3f (x u - x v)%f32 (y u - y v)%f32 (z u - z v)%f32.

Definition scale (v : Vec3f) (k : float) : Vec3f :=
  mkVec3f (x v * k)%f32 (y v * k)%f32 (z v * k)%f32.

Definition dot (u v : Vec3f) : float :=
  (x u * x v + y u * y v + z u * z v)%f32.

Definition length2 (v : Vec3f) : float :=
  (x v * x v + y v * y v + z v * z v)%f32.

Definition length (v : Vec3f) : float := F32.sqrt (length2 v).

(** [v.normalize()]: the previous length and the vector afterwards. *)
Definition normalize (v : Vec3f) : float * Vec3f :=
  let norm := length v in
  if F64.ltb (F64.of_Z 0) (F64.of_float norm) then
    let inv := (F32.of_Z 1 / norm)%f32 in
    (norm, scale v inv)
  else (norm, v).

End osg.

Abbreviation Vec3f := osg.Vec3f.

Declare Scope vec_scope.
Delimit Scope vec_scope with vec.
Infix "+" := osg.plus : vec_scope.
Infix "-" := osg.minus : vec_scope.
Infix "*" := osg.scale : vec_scope.
Infix "⋅" := osg.dot (at level 40, left associativity) : vec_scope.

(** ** Undefined behaviour

    A read through a null pointer or past the end of an array has no
    defined result; operations that can do so return [None] there and
    are sequenced with the bind of the [option] monad. *)

Abbreviation M := option.
Abbreviation ret := Some.

(** ** The collision library's objects *)

(** Modelled from the spec: collisiontype.hpp is not under src/.  The
    filter groups World, Actor, HeightMap, Projectile and Water of
    section 3 are the one-bit flags of a bit field, as the masks built
    with [|] in [addObject] and [addHeightField] require. *)
Definition CollisionType_World : Z := Z.shiftl 1 0.
Definition CollisionType_Actor : Z := Z.shiftl 1 1.
Definition CollisionType_HeightMap : Z := Z.shiftl 1 2.
Definition CollisionType_Projectile : Z := Z.shiftl 1 3.
Definition CollisionType_Water : Z := Z.shiftl 1 4.

Record btQuaternion := mkQuaternion { qx : float; qy : float; qz : float; qw : float }.

Definition btQuaternion_getIdentity : btQuaternion :=
  mkQuaternion (F32.of_Z 0) (F32.of_Z 0) (F32.of_Z 0) (F32.of_Z 1).

Record btTransform := mkTransform { getRotation : btQuaternion; getOrigin : Vec3f }.

Definition btTransform_getIdentity : btTransform :=
  mkTransform btQuaternion_getIdentity (osg.vec 0 0 0).

(** The shapes that occur.  The width and the length of a height
    field are [int]s; they are kept as the conversion of the argument
    gives them, see [F32.to_int]. *)
Inductive btCollisionShape :=
| NifShape (mesh : string) (localScaling : Vec3f)
| btHeightfieldTerrainShape
    (heightStickWidth heightStickLength : option Z) (heightfieldData : list float)
    (heightScale minHeight maxHeight : float) (upAxis : Z)
    (flipQuadEdges useDiamondSubdivision : bool) (localScaling : Vec3f)
| btStaticPlaneShape (planeNormal : Vec3f) (planeConstant : float).

Definition setLocalScaling (s : btCollisionShape) (k : Vec3f) : btCollisionShape :=
  match s with
  | NifShape mesh _ => NifShape mesh k
  | btHeightfieldTerrainShape w l d hs mn mx up fl dia _ =>
      btHeightfieldTerrainShape w l d hs mn mx up fl dia k
  | btStaticPlaneShape n c => btStaticPlaneShape n c
  end.

Definition setUseDiamondSubdivision (s : btCollisionShape) (b : bool) : btCollisionShape :=
  match s with
  | btHeightfieldTerrainShape w l d hs mn mx up fl _ k =>
      btHeightfieldTerrainShape w l d hs mn mx up fl b k
  | _ => s
  end.

Record btBroadphaseProxy := mkProxy {
  m_collisionFilterGroup : Z;
  m_collisionFilterMask : Z }.

(** [MWWorld::Ptr]: a handle on a game object; [==] compares the object
    referred to. *)
Abbreviation Ptr := positive.

(** [getUserPointer] is the [PtrHolder] that owns the object, null
    when it has none; a holder is written as the handle it was created
    for. *)
Record btCollisionObject := mkCollisionObject {
  getCollisionShape : option btCollisionShape;
  getWorldTransform : btTransform;
  getUserPointer : option Ptr;
  getBroadphaseHandle : option btBroadphaseProxy }.

Definition btCollisionObject_new : btCollisionObject :=
  mkCollisionObject None btTransform_getIdentity None None.

Definition setCollisionShape (o : btCollisionObject) (s : btCollisionShape) :=
  mkCollisionObject (Some s) (getWorldTransform o) (getUserPointer o) (getBroadphaseHandle o).
Definition setWorldTransform (o : btCollisionObject) (t : btTransform) :=
  mkCollisionObject (getCollisionShape o) t (getUserPointer o) (getBroadphaseHandle o).
Definition setUserPointer (o : btCollisionObject) (p : Ptr) :=
  mkCollisionObject (getCollisionShape o) (getWorldTransform o) (Some p) (getBroadphaseHandle o).

(** The collision world: the objects added to it, each with the
    broadphase proxy that records its filter group and mask. *)
Abbreviation btDynamicsWorld := (list btCollisionObject).

Definition addCollisionObject (dw : btDynamicsWorld) (o : btCollisionObject)
    (group mask : Z) : btDynamicsWorld :=
  dw ++ [mkCollisionObject (getCollisionShape o) (getWorldTransform o)
           (getUserPointer o) (Some (mkProxy group mask))].

(** Modelled from the spec: trace.h is not under src/.  [ActorTracer]
    holds the outcome of one sweep, the TraceResult of section 4.1:
    fraction, end position, plane normal and hit object.  [mHitObject]
    is a pointer, null when nothing was hit. *)
Record ActorTracer := mkTracer {
  mEndPos : Vec3f;
  mPlaneNormal : Vec3f;
  mHitObject : option btCollisionObject;
  mFraction : float }.

(** [t.mHitObject->getBroadphaseHandle()->m_collisionFilterGroup] *)
Definition hitFilterGroup (t : ActorTracer) : M Z :=
  o ← mHitObject t;
  h ← getBroadphaseHandle o;
  ret (m_collisionFilterGroup h).

(** [btCollisionWorld::ClosestRayResultCallback] after a ray test. *)
Record ClosestRayResultCallback := mkRayResult {
  hasHit : bool;
  m_hitPointWorld : Vec3f;
  m_hitNormalWorld : Vec3f }.

(** ** Actors *)

(** Modelled from the spec: actor.hpp is not under src/.  An [Actor] is
    the actor state of section 3, behind the accessors that
    physicssystem.cpp calls on it. *)
Record Actor := mkActor {
  actorPtr : Ptr;
  getActorCollisionObject : btCollisionObject;
  getHalfExtents : Vec3f;
  getOnGround : bool;
  getInertialForce : Vec3f;
  getCollisionMode : bool;
  getCanWaterWalk : bool;
  getWalkingOnWater : bool }.

Definition setOnGround (a : Actor) (b : bool) : Actor :=
  mkActor (actorPtr a) (getActorCollisionObject a) (getHalfExtents a) b
    (getInertialForce a) (getCollisionMode a) (getCanWaterWalk a) (getWalkingOnWater a).
Definition setInertialForce (a : Actor) (f : Vec3f) : Actor :=
  mkActor (actorPtr a) (getActorCollisionObject a) (getHalfExtents a) (getOnGround a)
    f (getCollisionMode a) (getCanWaterWalk a) (getWalkingOnWater a).
Definition enableCollisionMode (a : Actor) (b : bool) : Actor :=
  mkActor (actorPtr a) (getActorCollisionObject a) (getHalfExtents a) (getOnGround a)
    (getInertialForce a) b (getCanWaterWalk a) (getWalkingOnWater a).
Definition setCanWaterWalk (a : Actor) (b : bool) : Actor :=
  mkActor (actorPtr a) (getActorCollisionObject a) (getHalfExtents a) (getOnGround a)
    (getInertialForce a) (getCollisionMode a) b (getWalkingOnWater a).
Definition setWalkingOnWater (a : Actor) (b : bool) : Actor :=
  mkActor (actorPtr a) (getActorCollisionObject a) (getHalfExtents a) (getOnGround a)
    (getInertialForce a) (getCollisionMode a) (getCanWaterWalk a) b.

(** ** The game world read through [MWBase::Environment] and [MWWorld::Ptr] *)

Record CellStore := mkCell { hasWater : bool; getWaterLevel : float }.

(** [ESM::Position]: [pos[3]] and the Euler angles [rot[3]]. *)
Record Position := mkPosition { asVec3 : Vec3f; rot0 : float; rot1 : float; rot2 : float }.

(** Modelled from the spec: the game world is not under src/.  What
    the solver reads and writes through one [Ptr]: its reference data,
    its class, its creature stats and its movement settings. *)
Record RefData := mkRefData {
  getPosition : Position;
  getCell : CellStore;
  getScale : float;
  getAttitude : btQuaternion;
  isMobile : bool;
  isPureWaterCreature : bool;
  waterWalkingMagnitude : float;
  slowFallMagnitude : float;
  fallHeight : float;
  movementPosition2 : float }.

Definition setMovementPosition2 (r : RefData) (v : float) : RefData :=
  mkRefData (getPosition r) (getCell r) (getScale r) (getAttitude r) (isMobile r)
    (isPureWaterCreature r) (waterWalkingMagnitude r) (slowFallMagnitude r)
    (fallHeight r) v.

(** [CreatureStats::addToFallHeight] *)
Definition addToFallHeight (r : RefData) (height : float) : RefData :=
  mkRefData (getPosition r) (getCell r) (getScale r) (getAttitude r) (isMobile r)
    (isPureWaterCreature r) (waterWalkingMagnitude r) (slowFallMagnitude r)
    (fallHeight r + height)%f32 (movementPosition2 r).

(** Modelled from the spec: the WorldQuery of section 6, with the store
    of references and the two game settings that [move] looks up. *)
Record World := mkWorld {
  refData : Ptr -> RefData;
  getPlayerPtr : Ptr;
  isInStorm : bool;
  getStormDirection : Vec3f;
  isFlying : Ptr -> bool;
  isUnderwater : CellStore -> Vec3f -> bool;
  fSwimHeightScale : float;
  fStromWalkMult : float }.

Definition updateRef (w : World) (ptr : Ptr) (f : RefData -> RefData) : World :=
  mkWorld (fun p => if decide (p = ptr) then f (refData w p) else refData w p)
    (getPlayerPtr w) (isInStorm w) (getStormDirection w) (isFlying w)
    (isUnderwater w) (fSwimHeightScale w) (fStromWalkMult w).

(** ** Shape instances *)

(** Modelled from the spec: bulletshape.hpp is not under src/.  The
    ShapeInstance of section 6: a collision shape, absent when the mesh
    has none, and the animated children. *)
Record BulletShapeInstance := mkShapeInstance {
  instanceCollisionShape : option btCollisionShape;
  mAnimatedShapes : list (Z * Z) }.

(** bulletshapemanager.hpp: the index of the shapes created so far. *)
Record BulletShapeManager := mkShapeManager {
  mIndex : gmap string BulletShapeInstance }.

(** ** External collaborators

    Functions the solver calls whose code lies outside
    physicssystem.cpp: the C math library and the scene-graph library's
    angle conversion and quaternions, the sweeps of trace.cpp, the
    collision library's ray test and bounding boxes, and the shape
    manager's [createInstance]. *)

Class Collaborators := {
  acos : float -> float;
  RadiansToDegrees : float -> float;
  Quat : Type;
  Quat_new : float -> Vec3f -> Quat;
  Quat_mul : Quat -> Quat -> Quat;
  Quat_rotate : Quat -> Vec3f -> Vec3f;
  doTrace : btDynamicsWorld -> btCollisionObject -> Vec3f -> Vec3f -> ActorTracer;
  findGround : btDynamicsWorld -> Actor -> Vec3f -> Vec3f -> ActorTracer;
  rayTest : btDynamicsWorld -> Vec3f -> Vec3f -> Z -> Z -> ClosestRayResultCallback;
  getAabb : btCollisionShape -> btTransform -> Vec3f * Vec3f;
  createInstance : BulletShapeManager -> string -> BulletShapeInstance * BulletShapeManager }.

(** ** MovementSolver *)

Definition sMaxSlope : float := F32.of_Z 49.
Definition sStepSizeUp : float := F32.of_Z 34.
Definition sStepSizeDown : float := F32.of_Z 62.
Definition sMaxIterations : nat := 8.

Section MovementSolver.

Context `{Collaborators}.

Definition getSlope (normal : Vec3f) : float :=
  RadiansToDegrees (acos (normal ⋅ osg.vec 0 0 1)%vec).

(** The three sweeps of [stepMove]: straight up with [stepper], forward
    from where that ended with [tracer], and back down with [stepper]. *)
Definition stepUpTrace (dw : btDynamicsWorld) (colobj : btCollisionObject)
    (position : Vec3f) : ActorTracer :=
  doTrace dw colobj position (position + osg.mkVec3f (F32.of_Z 0) (F32.of_Z 0) sStepSizeUp)%vec.

Definition stepForwardTrace (dw : btDynamicsWorld) (colobj : btCollisionObject)
    (position toMove : Vec3f) : ActorTracer :=
  let stepper := stepUpTrace dw colobj position in
  doTrace dw colobj (mEndPos stepper) (mEndPos stepper + toMove)%vec.

Definition stepDownTrace (dw : btDynamicsWorld) (colobj : btCollisionObject)
    (position toMove : Vec3f) : ActorTracer :=
  let tracer := stepForwardTrace dw colobj position toMove in
  doTrace dw colobj (mEndPos tracer)
    (mEndPos tracer - osg.mkVec3f (F32.of_Z 0) (F32.of_Z 0) sStepSizeDown)%vec.

(** Returns the result together with the caller's [position] and
    [remainingTime], which are passed by reference. *)
Definition stepMove (dw : btDynamicsWorld) (colobj : btCollisionObject)
    (position toMove : Vec3f) (remainingTime : float) : M (bool * Vec3f * float) :=
  let stepper := stepUpTrace dw colobj position in
  if (mFraction stepper <? F32.epsilon)%f32 then ret (false, position, remainingTime)
  else
    let tracer := stepForwardTrace dw colobj position toMove in
    if (mFraction tracer <? F32.epsilon)%f32 then ret (false, position, remainingTime)
    else
      let stepper := stepDownTrace dw colobj position toMove in
      if (mFraction stepper <? F32.of_Z 1)%f32
         && (getSlope (mPlaneNormal stepper) <=? sMaxSlope)%f32
      then
        group ← hitFilterGroup stepper;
        if group =? CollisionType_Actor then ret (false, position, remainingTime)
        else ret (true, mEndPos stepper,
                  (remainingTime * (F32.of_Z 1 - mFraction tracer))%f32)
      else ret (false, position, remainingTime).

Definition project (u v : Vec3f) : Vec3f := (v * (u ⋅ v))%vec.

Definition slide (direction planeNormal : Vec3f) : Vec3f :=
  (direction - project direction planeNormal)%vec.

Definition reflect (velocity normal : Vec3f) : Vec3f :=
  (velocity - (normal * (normal ⋅ velocity)) * F32.of_Z 2)%vec.

(** Returns the position and the actor, whose on-ground flag it sets. *)
Definition traceDown (w : World) (dw : btDynamicsWorld) (ptr : Ptr) (actor : Actor)
    (maxHeight : float) : Vec3f * Actor :=
  let position := asVec3 (getPosition (refData w ptr)) in
  let tracer :=
    findGround dw actor position
      (position - osg.mkVec3f (F32.of_Z 0) (F32.of_Z 0) maxHeight)%vec in
  if (mFraction tracer >=? F32.of_Z 1)%f32 then (position, setOnGround actor false)
  else
    let from := position in
    let to := (from - osg.mkVec3f (F32.of_Z 0) (F32.of_Z 0) maxHeight)%vec in
    let resultCallback1 :=
      rayTest dw from to 255 (Z.lor CollisionType_World CollisionType_HeightMap) in
    if hasHit resultCallback1
       && ((osg.length (m_hitPointWorld resultCallback1 - mEndPos tracer)%vec >? F32.of_Z 30)%f32
           || (getSlope (mPlaneNormal tracer) >? sMaxSlope)%f32)
    then
      (m_hitPointWorld resultCallback1 + osg.vec 0 0 1,
       setOnGround actor (getSlope (m_hitNormalWorld resultCallback1) <=? sMaxSlope)%f32)%vec
    else
      (mEndPos tracer, setOnGround actor (getSlope (mPlaneNormal tracer) <=? sMaxSlope)%f32).

(** *** [move]: velocity construction *)

(** [(osg::Quat(rot[0], (-1,0,0)) * osg::Quat(rot[2], (0,0,-1))) * movement] *)
Definition rotatePitchYaw (refpos : Position) (movement : Vec3f) : Vec3f :=
  Quat_rotate
    (Quat_mul (Quat_new (rot0 refpos) (osg.vec (-1) 0 0))
              (Quat_new (rot2 refpos) (osg.vec 0 0 (-1))))
    movement.

(** [osg::Quat(rot[2], (0,0,-1)) * movement] *)
Definition rotateYaw (refpos : Position) (movement : Vec3f) : Vec3f :=
  Quat_rotate (Quat_new (rot2 refpos) (osg.vec 0 0 (-1))) movement.

Definition swimlevelOf (w : World) (waterlevel : float) (halfExtents : Vec3f) : float :=
  (waterlevel + osg.z halfExtents
   - (osg.z halfExtents * F32.of_Z 2 * fSwimHeightScale w))%f32.

(** The requested velocity and the local [inertia], before wind. *)
Definition initialVelocity (refpos : Position) (physicActor : Actor) (movement : Vec3f)
    (position : Vec3f) (swimlevel : float) (isFlying : bool) : Vec3f * Vec3f :=
  let inertia := getInertialForce physicActor in
  if (osg.z position <? swimlevel)%f32 || isFlying then
    (rotatePitchYaw refpos movement, inertia)
  else
    let velocity := rotateYaw refpos movement in
    let inertia := if (osg.z velocity >? F32.of_Z 0)%f32 then velocity else inertia in
    let velocity :=
      if negb (getOnGround physicActor)
      then (velocity + getInertialForce physicActor)%vec
      else velocity in
    (velocity, inertia).

Definition applyWind (w : World) (velocity : Vec3f) : Vec3f :=
  if isInStorm w then
    let stormDirection := getStormDirection w in
    let angleDegrees := RadiansToDegrees (acos (stormDirection ⋅ velocity)%vec) in
    (velocity * (F32.of_Z 1 - fStromWalkMult w * (angleDegrees / F32.of_Z 180))%f32)%vec
  else velocity.

(** *** [move]: the solver loop *)

(** The variables the loop updates. *)
Record LoopState := mkLoopState {
  newPosition : Vec3f;
  velocity : Vec3f;
  remainingTime : float }.

(** How one pass through the loop body ends: at a [break], or at its
    end or a [continue]. *)
Inductive LoopStep :=
| Break (s : LoopState)
| Continue (s : LoopState).

(** The redirection of an upward swimming velocity at the surface. *)
Definition swimClamp (velocity : Vec3f) : Vec3f :=
  let down := osg.vec 0 0 (-1) in
  let '(movelen, velocity) := osg.normalize velocity in
  let reflectdir := reflect velocity down in
  let '(_, reflectdir) := osg.normalize reflectdir in
  (slide reflectdir down * movelen)%vec.

(** The velocity along the plane that was hit. *)
Definition slideVelocity (velocity planeNormal : Vec3f) : Vec3f :=
  let '(movelen, direction) := osg.normalize velocity in
  let reflectdir := reflect velocity planeNormal in
  let '(_, reflectdir) := osg.normalize reflectdir in
  (slide reflectdir planeNormal * movelen)%vec.

(** The branch taken when the sweep hit something and both attempts to
    step up failed. *)
Definition slideStep (swimlevel : float) (isFlying : bool) (origVelocity : Vec3f)
    (planeNormal : Vec3f) (s : LoopState) : LoopStep :=
  let newVelocity := slideVelocity (velocity s) planeNormal in
  if F64.ltb (F64.of_float (osg.length2 (newVelocity - velocity s)%vec)) (F64.lit 1 100)
  then Break s
  else if (velocity s ⋅ origVelocity <=? F32.of_Z 0)%f32%vec then Break s
  else
    let velocity := newVelocity in
    let velocity :=
      if negb ((osg.z (newPosition s) <? swimlevel)%f32 || isFlying)
      then osg.set_z velocity (F32.min (osg.z velocity) (F32.of_Z 0))
      else velocity in
    Continue (mkLoopState (newPosition s) velocity (remainingTime s)).

(** The two calls of [stepMove]: with the movement of the remaining
    time, and when that fails with ten units along the velocity. *)
Definition tryStep (dw : btDynamicsWorld) (colobj : btCollisionObject)
    (s : LoopState) : M (bool * Vec3f * float) :=
  '(result, newPosition, remainingTime) ←
    stepMove dw colobj (newPosition s) (velocity s * remainingTime s)%vec (remainingTime s);
  if negb result then
    let normalizedVelocity := snd (osg.normalize (velocity s)) in
    stepMove dw colobj newPosition (normalizedVelocity * F32.of_Z 10)%vec remainingTime
  else ret (result, newPosition, remainingTime).

Definition moveIteration (dw : btDynamicsWorld) (colobj : btCollisionObject)
    (pureWaterCreature : bool) (halfExtents : Vec3f) (waterlevel swimlevel : float)
    (isFlying : bool) (origVelocity : Vec3f) (s : LoopState) : M LoopStep :=
  let nextpos := (newPosition s + velocity s * remainingTime s)%vec in
  if (osg.z (newPosition s) <? swimlevel)%f32
     && negb isFlying
     && (osg.z nextpos >? swimlevel)%f32
     && (osg.z (newPosition s) <=? swimlevel)%f32
  then
    ret (Continue (mkLoopState (newPosition s) (swimClamp (velocity s)) (remainingTime s)))
  else if F64.ltb (F64.lit 1 10000) (F64.of_float (osg.length2 (newPosition s - nextpos)%vec))
  then
    let tracer := doTrace dw colobj (newPosition s) nextpos in
    if (mFraction tracer >=? F32.of_Z 1)%f32 then
      ret (Break (mkLoopState (mEndPos tracer) (velocity s) (remainingTime s)))
    else
      let oldPosition := newPosition s in
      '(result, newPosition, remainingTime) ← tryStep dw colobj s;
      if (result : bool) then
        let newPosition :=
          if pureWaterCreature
             && (osg.z newPosition + osg.z halfExtents >? waterlevel)%f32
          then oldPosition else newPosition in
        ret (Continue (mkLoopState newPosition (velocity s) remainingTime))
      else
        ret (slideStep swimlevel isFlying origVelocity (mPlaneNormal tracer)
               (mkLoopState newPosition (velocity s) remainingTime))
  else ret (Break s).

(** [for (iterations = 0; iterations < sMaxIterations && remainingTime > 0.01f; ++iterations)],
    with [n] the iterations that are left. *)
Fixpoint moveLoop (n : nat) (dw : btDynamicsWorld) (colobj : btCollisionObject)
    (pureWaterCreature : bool) (halfExtents : Vec3f) (waterlevel swimlevel : float)
    (isFlying : bool) (origVelocity : Vec3f) (s : LoopState) : M LoopState :=
  match n with
  | O => ret s
  | S n' =>
      if (remainingTime s >? F32.lit 1 100)%f32 then
        step ← moveIteration dw colobj pureWaterCreature halfExtents waterlevel
                 swimlevel isFlying origVelocity s;
        match step with
        | Break s' => ret s'
        | Continue s' =>
            moveLoop n' dw colobj pureWaterCreature halfExtents waterlevel
              swimlevel isFlying origVelocity s'
        end
      else ret s
  end.

(** *** [move]: the ground probe and gravity *)

(** The inertia that pushes the actor off another actor it came to
    rest on: horizontally away from the centre of that actor's box. *)
Definition pushOff (position : Vec3f) (hit : btCollisionObject) : M Vec3f :=
  shape ← getCollisionShape hit;
  let '(aabbMin, aabbMax) := getAabb shape (getWorldTransform hit) in
  let sum := (aabbMin + aabbMax)%vec in
  let center :=
    osg.mkVec3f (osg.x sum / F32.of_Z 2)%f32 (osg.y sum / F32.of_Z 2)%f32
                (osg.z sum / F32.of_Z 2)%f32 in
  let inertia :=
    osg.mkVec3f (osg.x position - osg.x center)%f32 (osg.y position - osg.y center)%f32
                (F32.of_Z 0) in
  let '(_, inertia) := osg.normalize inertia in
  ret (inertia * F32.of_Z 100)%vec.

(** The sweep straight down from where the loop ended: by
    [sStepSizeDown + 2] for an actor that was on the ground, by 2
    otherwise. *)
Definition groundTrace (dw : btDynamicsWorld) (colobj : btCollisionObject)
    (physicActor : Actor) (s : LoopState) : ActorTracer :=
  let from := newPosition s in
  let to :=
    (newPosition s
     - (if getOnGround physicActor
        then osg.mkVec3f (F32.of_Z 0) (F32.of_Z 0) (sStepSizeDown + F32.of_Z 2)%f32
        else osg.mkVec3f (F32.of_Z 0) (F32.of_Z 0) (F32.of_Z 2)))%vec in
  doTrace dw colobj from to.

(** Returns [isOnGround], [newPosition] and [inertia] as they stand
    after the block that follows the loop. *)
Definition groundProbe (dw : btDynamicsWorld) (colobj : btCollisionObject)
    (physicActor : Actor) (position : Vec3f) (swimlevel : float) (isFlying : bool)
    (inertia : Vec3f) (s : LoopState) : M (bool * Vec3f * Vec3f) :=
  if negb (osg.z inertia >? F32.of_Z 0)%f32
     && negb (osg.z (newPosition s) <? swimlevel)%f32
  then
    let tracer := groundTrace dw colobj physicActor s in
    standing ←
      (if (mFraction tracer <? F32.of_Z 1)%f32
          && (getSlope (mPlaneNormal tracer) <=? sMaxSlope)%f32
       then group ← hitFilterGroup tracer; ret (negb (group =? CollisionType_Actor))
       else ret false);
    if (standing : bool) then
      ret (true,
           (if negb isFlying
            then osg.set_z (newPosition s) (osg.z (mEndPos tracer) + F32.of_Z 1)%f32
            else newPosition s),
           inertia)
    else
      onActor ←
        (if (mFraction tracer <? F32.of_Z 1)%f32
         then group ← hitFilterGroup tracer; ret (group =? CollisionType_Actor)
         else ret false);
      inertia ←
        (if (onActor : bool)
            && (osg.length2 (osg.mkVec3f (osg.x (velocity s)) (osg.y (velocity s)) (F32.of_Z 0))
                <? F32.of_Z 100 * F32.of_Z 100)%f32
         then hit ← mHitObject tracer; pushOff position hit
         else ret inertia);
      ret (false, newPosition s, inertia)
  else ret (false, newPosition s, inertia).

(** The inertial force stored at the end of [move]. *)
Definition integrateInertia (isOnGround : bool) (newPosition : Vec3f) (swimlevel : float)
    (isFlying : bool) (time slowFall : float) (inertia : Vec3f) : Vec3f :=
  if isOnGround || (osg.z newPosition <? swimlevel)%f32 || isFlying then
    osg.vec 0 0 0
  else
    let inertia := osg.set_z inertia (osg.z inertia + time * - F32.lit 6272 10)%f32 in
    if (osg.z inertia <? F32.of_Z 0)%f32
    then osg.set_z inertia (osg.z inertia * slowFall)%f32
    else inertia.

(** *** [move]

    Returns the new position with the actor and the world as the call
    leaves them. *)
Definition move (w : World) (dw : btDynamicsWorld) (ptr : Ptr) (physicActor : Actor)
    (movement : Vec3f) (time : float) (isFlying : bool) (waterlevel slowFall : float)
    : M (Vec3f * Actor * World) :=
  let refpos := getPosition (refData w ptr) in
  let position := asVec3 refpos in
  if negb (isMobile (refData w ptr)) then ret (position, physicActor, w)
  else
    let physicActor := setWalkingOnWater physicActor false in
    if negb (getCollisionMode physicActor) then
      ret ((position + rotatePitchYaw refpos movement * time)%vec, physicActor, w)
    else
      let colobj := getActorCollisionObject physicActor in
      let halfExtents := getHalfExtents physicActor in
      let position := osg.set_z position (osg.z position + osg.z halfExtents)%f32 in
      let swimlevel := swimlevelOf w waterlevel halfExtents in
      let '(velocity, inertia) :=
        initialVelocity refpos physicActor movement position swimlevel isFlying in
      let w := updateRef w ptr (fun r => setMovementPosition2 r (F32.of_Z 0)) in
      let velocity := applyWind w velocity in
      let origVelocity := velocity in
      s ← moveLoop sMaxIterations dw colobj (isPureWaterCreature (refData w ptr))
            halfExtents waterlevel swimlevel isFlying origVelocity
            (mkLoopState position velocity time);
      '(isOnGround, newPosition, inertia) ←
        groundProbe dw colobj physicActor position swimlevel isFlying inertia s;
      let physicActor :=
        setInertialForce physicActor
          (integrateInertia isOnGround newPosition swimlevel isFlying time slowFall inertia) in
      let physicActor := setOnGround physicActor isOnGround in
      ret (osg.set_z newPosition (osg.z newPosition - osg.z halfExtents)%f32,
           physicActor, w).

(** What trace.cpp guarantees of a sweep: one that stops short has
    stopped on a collider that is in the world and has a shape. *)
Definition tracerSound (dw : btDynamicsWorld) : Prop :=
  ∀ (colobj : btCollisionObject) (from to : Vec3f),
    (mFraction (doTrace dw colobj from to) <? F32.of_Z 1)%f32 = true →
    ∃ hit : btCollisionObject,
      mHitObject (doTrace dw colobj from to) = Some hit
      ∧ is_Some (getBroadphaseHandle hit)
      ∧ is_Some (getCollisionShape hit).

End MovementSolver.

(** ** HeightField *)

Record HeightField := mkHeightField {
  mShape : btCollisionShape;
  heightFieldCollisionObject : btCollisionObject }.

(** The loop [for (int i = 1; i < sqrtVerts*sqrtVerts; ++i)] over
    [heights[i]]; [rest] is the array from index [i] on, and reading
    past its end is undefined. *)
Fixpoint scanHeights (rest : list float) (i : Z) (sqrtVerts : float) (minh maxh : float)
    : M (float * float) :=
  if (F32.of_Z i <? sqrtVerts * sqrtVerts)%f32 then
    match rest with
    | [] => None
    | h :: rest' =>
        let maxh := if (h >? maxh)%f32 then h else maxh in
        let minh := if (h <? minh)%f32 then h else minh in
        scanHeights rest' (i + 1) sqrtVerts minh maxh
    end
  else ret (minh, maxh).

(** The minimum and maximum heights found by the constructor. *)
Definition heightRange (heights : list float) (sqrtVerts : float) : M (float * float) :=
  match heights with
  | [] => None
  | h0 :: rest => scanHeights rest 1 sqrtVerts h0 h0
  end.

(** [HeightField::HeightField].  The call of the shape's constructor
    converts the [float] [sqrtVerts] to the [int] width and length. *)
Definition HeightField_new (heights : list float) (x y : Z) (triSize sqrtVerts : float)
    : M HeightField :=
  '(minh, maxh) ← heightRange heights sqrtVerts;
  let shape :=
    btHeightfieldTerrainShape (F32.to_int sqrtVerts) (F32.to_int sqrtVerts) heights
      (F32.of_Z 1) minh maxh 2 true false (osg.vec 1 1 1) in
  let shape := setUseDiamondSubdivision shape true in
  let shape := setLocalScaling shape (osg.mkVec3f triSize triSize (F32.of_Z 1)) in
  let transform :=
    mkTransform btQuaternion_getIdentity
      (osg.mkVec3f
         ((F32.of_Z x + F32.lit 1 2) * triSize * (sqrtVerts - F32.of_Z 1))%f32
         ((F32.of_Z y + F32.lit 1 2) * triSize * (sqrtVerts - F32.of_Z 1))%f32
         ((maxh + minh) * F32.lit 1 2)%f32) in
  let collisionObject := btCollisionObject_new in
  let collisionObject := setCollisionShape collisionObject shape in
  let collisionObject := setWorldTransform collisionObject transform in
  ret (mkHeightField shape collisionObject).

(** ** Object *)

Record Object := mkObject {
  objectPtr : Ptr;
  mShapeInstance : BulletShapeInstance;
  getObjectCollisionObject : btCollisionObject }.

(** [Object::Object]: the shape takes the reference's scale, the
    collision object its attitude and position; [shape] is the
    instance's collision shape, which [addObject] has found non-null. *)
Definition Object_new (w : World) (ptr : Ptr) (shapeInstance : BulletShapeInstance)
    (shape : btCollisionShape) : Object :=
  let scale := getScale (refData w ptr) in
  let shape := setLocalScaling shape (osg.mkVec3f scale scale scale) in
  let collisionObject := setCollisionShape btCollisionObject_new shape in
  let collisionObject := setUserPointer collisionObject ptr in
  let collisionObject :=
    setWorldTransform collisionObject
      (mkTransform (getAttitude (refData w ptr))
                   (asVec3 (getPosition (refData w ptr)))) in
  mkObject ptr (mkShapeInstance (Some shape) (mAnimatedShapes shapeInstance)) collisionObject.

(** ** PhysicsSystem *)

Abbreviation PtrVelocityList := (list (Ptr * Vec3f)).

Record PhysicsSystem := mkPhysicsSystem {
  mShapeManager : BulletShapeManager;
  mDynamicsWorld : btDynamicsWorld;
  mObjects : gmap Ptr Object;
  mActors : gmap Ptr Actor;
  mHeightFields : gmap (Z * Z) HeightField;
  mCollisions : gmap string string;
  mStandingCollisions : gmap string string;
  mMovementQueue : PtrVelocityList;
  mMovementResults : PtrVelocityList;
  mTimeAccum : float;
  mWaterEnabled : bool;
  mWaterHeight : float;
  mDebugDrawEnabled : bool }.

Definition set_mShapeManager (ps : PhysicsSystem) (v : BulletShapeManager) :=
  mkPhysicsSystem v (mDynamicsWorld ps) (mObjects ps) (mActors ps) (mHeightFields ps)
    (mCollisions ps) (mStandingCollisions ps) (mMovementQueue ps) (mMovementResults ps)
    (mTimeAccum ps) (mWaterEnabled ps) (mWaterHeight ps) (mDebugDrawEnabled ps).
Definition set_mDynamicsWorld (ps : PhysicsSystem) (v : btDynamicsWorld) :=
  mkPhysicsSystem (mShapeManager ps) v (mObjects ps) (mActors ps) (mHeightFields ps)
    (mCollisions ps) (mStandingCollisions ps) (mMovementQueue ps) (mMovementResults ps)
    (mTimeAccum ps) (mWaterEnabled ps) (mWaterHeight ps) (mDebugDrawEnabled ps).
Definition set_mObjects (ps : PhysicsSystem) (v : gmap Ptr Object) :=
  mkPhysicsSystem (mShapeManager ps) (mDynamicsWorld ps) v (mActors ps) (mHeightFields ps)
    (mCollisions ps) (mStandingCollisions ps) (mMovementQueue ps) (mMovementResults ps)
    (mTimeAccum ps) (mWaterEnabled ps) (mWaterHeight ps) (mDebugDrawEnabled ps).
Definition set_mActors (ps : PhysicsSystem) (v : gmap Ptr Actor) :=
  mkPhysicsSystem (mShapeManager ps) (mDynamicsWorld ps) (mObjects ps) v (mHeightFields ps)
    (mCollisions ps) (mStandingCollisions ps) (mMovementQueue ps) (mMovementResults ps)
    (mTimeAccum ps) (mWaterEnabled ps) (mWaterHeight ps) (mDebugDrawEnabled ps).
Definition set_mHeightFields (ps : PhysicsSystem) (v : gmap (Z * Z) HeightField) :=
  mkPhysicsSystem (mShapeManager ps) (mDynamicsWorld ps) (mObjects ps) (mActors ps) v
    (mCollisions ps) (mStandingCollisions ps) (mMovementQueue ps) (mMovementResults ps)
    (mTimeAccum ps) (mWaterEnabled ps) (mWaterHeight ps) (mDebugDrawEnabled ps).
Definition set_mCollisions (ps : PhysicsSystem) (c sc : gmap string string) :=
  mkPhysicsSystem (mShapeManager ps) (mDynamicsWorld ps) (mObjects ps) (mActors ps)
    (mHeightFields ps) c sc (mMovementQueue ps) (mMovementResults ps)
    (mTimeAccum ps) (mWaterEnabled ps) (mWaterHeight ps) (mDebugDrawEnabled ps).
Definition set_mMovementQueue (ps : PhysicsSystem) (v : PtrVelocityList) :=
  mkPhysicsSystem (mShapeManager ps) (mDynamicsWorld ps) (mObjects ps) (mActors ps)
    (mHeightFields ps) (mCollisions ps) (mStandingCollisions ps) v (mMovementResults ps)
    (mTimeAccum ps) (mWaterEnabled ps) (mWaterHeight ps) (mDebugDrawEnabled ps).
Definition set_mMovementResults (ps : PhysicsSystem) (v : PtrVelocityList) :=
  mkPhysicsSystem (mShapeManager ps) (mDynamicsWorld ps) (mObjects ps) (mActors ps)
    (mHeightFields ps) (mCollisions ps) (mStandingCollisions ps) (mMovementQueue ps) v
    (mTimeAccum ps) (mWaterEnabled ps) (mWaterHeight ps) (mDebugDrawEnabled ps).
Definition set_mTimeAccum (ps : PhysicsSystem) (v : float) :=
  mkPhysicsSystem (mShapeManager ps) (mDynamicsWorld ps) (mObjects ps) (mActors ps)
    (mHeightFields ps) (mCollisions ps) (mStandingCollisions ps) (mMovementQueue ps)
    (mMovementResults ps) v (mWaterEnabled ps) (mWaterHeight ps) (mDebugDrawEnabled ps).

Section PhysicsSystem.

Context `{Collaborators}.

(** [PhysicsSystem::traceDown] *)
Definition PhysicsSystem_traceDown (w : World) (ps : PhysicsSystem) (ptr : Ptr)
    (maxHeight : float) : Vec3f * PhysicsSystem :=
  match mActors ps !! ptr with
  | None => (asVec3 (getPosition (refData w ptr)), ps)
  | Some found =>
      let '(position, actor) := traceDown w (mDynamicsWorld ps) ptr found maxHeight in
      (position, set_mActors ps (<[ptr := actor]> (mActors ps)))
  end.

Definition addHeightField (ps : PhysicsSystem) (heights : list float) (x y : Z)
    (triSize sqrtVerts : float) : M PhysicsSystem :=
  heightfield ← HeightField_new heights x y triSize sqrtVerts;
  let ps := set_mHeightFields ps (<[(x, y) := heightfield]> (mHeightFields ps)) in
  ret (set_mDynamicsWorld ps
         (addCollisionObject (mDynamicsWorld ps) (heightFieldCollisionObject heightfield)
            CollisionType_HeightMap
            (Z.lor CollisionType_Actor CollisionType_Projectile))).

(** [std::map::insert] leaves an entry that is already there. *)
Definition map_insert_new {V} (k : Ptr) (v : V) (m : gmap Ptr V) : gmap Ptr V :=
  match m !! k with
  | Some _ => m
  | None => <[k := v]> m
  end.

Definition addObject (w : World) (ps : PhysicsSystem) (ptr : Ptr) (mesh : string)
    : PhysicsSystem :=
  let '(shapeInstance, manager) := createInstance (mShapeManager ps) mesh in
  let ps := set_mShapeManager ps manager in
  match instanceCollisionShape shapeInstance with
  | None => ps
  | Some shape =>
      let obj := Object_new w ptr shapeInstance shape in
      let ps := set_mObjects ps (map_insert_new ptr obj (mObjects ps)) in
      set_mDynamicsWorld ps
        (addCollisionObject (mDynamicsWorld ps) (getObjectCollisionObject obj)
           CollisionType_World
           (Z.lor (Z.lor CollisionType_Actor CollisionType_HeightMap) CollisionType_Projectile))
  end.

Definition getActor (ps : PhysicsSystem) (ptr : Ptr) : option Actor := mActors ps !! ptr.

Definition toggleCollisionMode (w : World) (ps : PhysicsSystem) : bool * PhysicsSystem :=
  match mActors ps !! getPlayerPtr w with
  | Some found =>
      let cmode := getCollisionMode found in
      let cmode := negb cmode in
      (cmode, set_mActors ps (<[getPlayerPtr w := enableCollisionMode found cmode]> (mActors ps)))
  | None => (false, ps)
  end.

(** The search of [queueObjectMovement]: the queue with the first entry
    of [ptr] rewritten, when there is one. *)
Fixpoint replaceQueued (ptr : Ptr) (movement : Vec3f) (queue : PtrVelocityList)
    : option PtrVelocityList :=
  match queue with
  | [] => None
  | (first, second) :: rest =>
      if decide (first = ptr) then Some ((first, movement) :: rest)
      else cons (first, second) <$> replaceQueued ptr movement rest
  end.

Definition queueObjectMovement (ps : PhysicsSystem) (ptr : Ptr) (movement : Vec3f)
    : PhysicsSystem :=
  match replaceQueued ptr movement (mMovementQueue ps) with
  | Some queue => set_mMovementQueue ps queue
  | None => set_mMovementQueue ps (mMovementQueue ps ++ [(ptr, movement)])
  end.

Definition clearQueuedMovement (ps : PhysicsSystem) : PhysicsSystem :=
  set_mCollisions (set_mMovementQueue ps []) ∅ ∅.

(** One pass through the loop of [applyQueuedMovement]. *)
Definition applyQueuedEntry (dw : btDynamicsWorld) (mTimeAccum : float)
    (entry : Ptr * Vec3f) (st : World * gmap Ptr Actor * PtrVelocityList)
    : M (World * gmap Ptr Actor * PtrVelocityList) :=
  let '(w, actors, results) := st in
  let '(first, second) := entry in
  let cell := getCell (refData w first) in
  let waterlevel := if hasWater cell then getWaterLevel cell else (- F32.max_float)%f32 in
  let oldHeight := osg.z (asVec3 (getPosition (refData w first))) in
  let waterCollision :=
    F32.nonzero (waterWalkingMagnitude (refData w first))
    && hasWater cell
    && negb (isUnderwater w cell (asVec3 (getPosition (refData w first)))) in
  match actors !! first with
  | None => ret (w, actors, results)
  | Some physicActor =>
      let physicActor := setCanWaterWalk physicActor waterCollision in
      let slowFall :=
        (F32.of_Z 1
         - F32.max (F32.of_Z 0)
             (F32.min (F32.of_Z 1) (slowFallMagnitude (refData w first) * F32.lit 5 1000)))%f32 in
      match move w dw first physicActor second mTimeAccum (isFlying w first)
              waterlevel slowFall with
      | None => None
      | Some (newpos, physicActor, w) =>
          let heightDiff := (osg.z newpos - oldHeight)%f32 in
          let w :=
            if (heightDiff <? F32.of_Z 0)%f32
            then updateRef w first (fun r => addToFallHeight r (- heightDiff)%f32)
            else w in
          ret (w, <[first := physicActor]> actors, results ++ [(first, newpos)])
      end
  end.

Fixpoint applyQueue (dw : btDynamicsWorld) (mTimeAccum : float) (queue : PtrVelocityList)
    (st : World * gmap Ptr Actor * PtrVelocityList)
    : M (World * gmap Ptr Actor * PtrVelocityList) :=
  match queue with
  | [] => ret st
  | entry :: rest =>
      st ← applyQueuedEntry dw mTimeAccum entry st;
      applyQueue dw mTimeAccum rest st
  end.

(** Returns [mMovementResults] with the physics system and the world
    as the call leaves them. *)
Definition applyQueuedMovement (w : World) (ps : PhysicsSystem) (dt : float)
    : M (PtrVelocityList * PhysicsSystem * World) :=
  let ps := set_mMovementResults ps [] in
  let ps := set_mTimeAccum ps (mTimeAccum ps + dt)%f32 in
  '(ps, w) ←
    (if (mTimeAccum ps >=? F32.lit 1 60)%f32 then
       let ps := set_mCollisions ps ∅ ∅ in
       '(w, actors, results) ←
         applyQueue (mDynamicsWorld ps) (mTimeAccum ps) (mMovementQueue ps)
           (w, mActors ps, mMovementResults ps);
       let ps := set_mMovementResults (set_mActors ps actors) results in
       ret (set_mTimeAccum ps (F32.of_Z 0), w)
     else ret (ps, w));
  let ps := set_mMovementQueue ps [] in
  ret (mMovementResults ps, ps, w).

End PhysicsSystem.

(** ** Scenarios

    Concrete collaborators, worlds and actors on which the operations
    above are evaluated.  References are not rotated, so the
    quaternions of the scenarios are the identity; the arc cosine is
    tabulated at the three arguments that occur, the cosines of the
    slopes 0, 90 and 180 degrees. *)

Module Scenario.

Definition pi : float := S754_finite false 13176795 (-22).

Definition acosTable (c : float) : float :=
  if F32.eqb c (F32.of_Z 1) then F32.of_Z 0
  else if F32.eqb c (F32.of_Z 0) then (pi / F32.of_Z 2)%f32
  else if F32.eqb c (F32.of_Z (-1)) then pi
  else S754_nan.

Definition toDegrees (angle : float) : float :=
  (angle * F32.of_Z 180 / pi)%f32.

(** A sweep that meets nothing, and one stopped where it starts. *)
Definition freeSweep (from to : Vec3f) : ActorTracer :=
  mkTracer to (osg.vec 0 0 1) None (F32.of_Z 1).

Definition blockedSweep (from : Vec3f) (normal : Vec3f) (hit : btCollisionObject)
    : ActorTracer :=
  mkTracer from normal (Some hit) (F32.of_Z 0).

(** A sweep stopped half way by a level surface. *)
Definition landingSweep (from to : Vec3f) (hit : btCollisionObject) : ActorTracer :=
  mkTracer (from + (to - from) * F32.lit 1 2)%vec (osg.vec 0 0 1) (Some hit) (F32.lit 1 2).

Definition noRayHit : ClosestRayResultCallback :=
  mkRayResult false (osg.vec 0 0 0) (osg.vec 0 0 0).

Definition box : btCollisionShape := NifShape "box" (osg.vec 1 1 1).

Definition collider (group : Z) : btCollisionObject :=
  mkCollisionObject (Some box) btTransform_getIdentity None
    (Some (mkProxy group (Z.lor CollisionType_Actor CollisionType_Projectile))).

Definition world (trace : Vec3f -> Vec3f -> ActorTracer)
    (ground : Vec3f -> Vec3f -> ActorTracer) (ray : ClosestRayResultCallback)
    (shapes : string -> BulletShapeInstance) : Collaborators :=
  {| acos := acosTable;
     RadiansToDegrees := toDegrees;
     Quat := unit;
     Quat_new := fun _ _ => tt;
     Quat_mul := fun _ _ => tt;
     Quat_rotate := fun _ v => v;
     doTrace := fun _ _ => trace;
     findGround := fun _ _ => ground;
     rayTest := fun _ _ _ _ _ => ray;
     getAabb := fun _ t => (getOrigin t - osg.vec 20 20 64, getOrigin t + osg.vec 20 20 64)%vec;
     createInstance := fun manager mesh =>
       (shapes mesh, mkShapeManager (<[mesh := shapes mesh]> (mIndex manager))) |}.

(** Only the mesh "box" has a collision shape. *)
Definition shapes (mesh : string) : BulletShapeInstance :=
  if decide (mesh = "box") then mkShapeInstance (Some box) []
  else mkShapeInstance None [].

(** Nothing to collide with. *)
Definition openSpace : Collaborators := world freeSweep freeSweep noRayHit shapes.

(** A wall facing down the x axis that stops every sweep towards
    larger x where it starts. *)
Definition wallTrace (from to : Vec3f) : ActorTracer :=
  if (osg.x to >? osg.x from)%f32
  then blockedSweep from (osg.vec (-1) 0 0) (collider CollisionType_World)
  else freeSweep from to.

Definition wall : Collaborators := world wallTrace freeSweep noRayHit shapes.

(** Level ground, or another actor, that stops every downward sweep
    half way. *)
Definition overTrace (group : Z) (from to : Vec3f) : ActorTracer :=
  if (osg.z to <? osg.z from)%f32
  then landingSweep from to (collider group)
  else freeSweep from to.

Definition overTerrain : Collaborators :=
  world (overTrace CollisionType_HeightMap) freeSweep noRayHit shapes.

Definition overActor : Collaborators :=
  world (overTrace CollisionType_Actor) freeSweep noRayHit shapes.

(** A capsule sweep that catches on a wall half way down, with the
    thin ray from the same origin missing everything, reaching level
    ground far below, or reaching it close by. *)
Definition steepGround (from to : Vec3f) : ActorTracer :=
  mkTracer (from + (to - from) * F32.lit 1 2)%vec (osg.vec 1 0 0)
    (Some (collider CollisionType_World)) (F32.lit 1 2).

Definition levelGround (from to : Vec3f) : ActorTracer :=
  landingSweep from to (collider CollisionType_HeightMap).

Definition rayHitAt (height : Z) : ClosestRayResultCallback :=
  mkRayResult true (osg.vec 0 0 height) (osg.vec 0 0 1).

Definition ledge : Collaborators := world freeSweep steepGround (rayHitAt (-90)) shapes.
Definition ledgeOverVoid : Collaborators := world freeSweep steepGround noRayHit shapes.
Definition doorway : Collaborators := world freeSweep levelGround (rayHitAt (-90)) shapes.
Definition floor : Collaborators := world freeSweep levelGround (rayHitAt (-50)) shapes.

(** The game world: every reference is a mobile creature at the
    origin of a cell without water, in calm weather. *)
Definition creature : RefData :=
  mkRefData (mkPosition (osg.vec 0 0 0) (F32.of_Z 0) (F32.of_Z 0) (F32.of_Z 0))
    (mkCell false (F32.of_Z 0)) (F32.of_Z 1) btQuaternion_getIdentity
    true false (F32.of_Z 0) (F32.of_Z 0) (F32.of_Z 0) (F32.of_Z 0).

Definition player : Ptr := 1%positive.
Definition guard : Ptr := 2%positive.

Definition calm : World :=
  mkWorld (fun _ => creature) player false (osg.vec 0 0 0) (fun _ => false)
    (fun _ _ => false) (F32.lit 9 10) (F32.lit 1 2).

Definition capsule (ptr : Ptr) : btCollisionObject :=
  mkCollisionObject (Some box) btTransform_getIdentity (Some ptr)
    (Some (mkProxy CollisionType_Actor
             (Z.lor (Z.lor CollisionType_World CollisionType_HeightMap) CollisionType_Actor))).

(** An actor standing still on the ground, with collision on. *)
Definition standing (ptr : Ptr) : Actor :=
  mkActor ptr (capsule ptr) (osg.vec 20 20 64) true (osg.vec 0 0 0) true false false.

(** The guard is registered and has a movement queued; the player is
    not registered. *)
Definition guardQueued : PhysicsSystem :=
  mkPhysicsSystem (mkShapeManager ∅) [capsule guard] ∅ {[guard := standing guard]} ∅ ∅ ∅
    [(guard, osg.vec 0 100 0)] [] (F32.of_Z 0) false (F32.of_Z 0) false.

End Scenario.

(** ** Further operations of PhysicsSystem *)

(** [PhysicsSystem::PhysicsSystem]: nothing registered or queued, no
    time accumulated, water and debug rendering off. *)
Definition PhysicsSystem_new (manager : BulletShapeManager) : PhysicsSystem :=
  mkPhysicsSystem manager [] ∅ ∅ ∅ ∅ ∅ [] [] (F32.of_Z 0) false (F32.of_Z 0) false.

Definition set_mWater (ps : PhysicsSystem) (enabled : bool) (height : float) :=
  mkPhysicsSystem (mShapeManager ps) (mDynamicsWorld ps) (mObjects ps) (mActors ps)
    (mHeightFields ps) (mCollisions ps) (mStandingCollisions ps) (mMovementQueue ps)
    (mMovementResults ps) (mTimeAccum ps) enabled height (mDebugDrawEnabled ps).
Definition set_mDebugDrawEnabled (ps : PhysicsSystem) (v : bool) :=
  mkPhysicsSystem (mShapeManager ps) (mDynamicsWorld ps) (mObjects ps) (mActors ps)
    (mHeightFields ps) (mCollisions ps) (mStandingCollisions ps) (mMovementQueue ps)
    (mMovementResults ps) (mTimeAccum ps) (mWaterEnabled ps) (mWaterHeight ps) v.

#[global] Instance float_eq_dec : EqDecision float.
Proof. solve_decision. Defined.
#[global] Instance Vec3f_eq_dec : EqDecision Vec3f.
Proof. solve_decision. Defined.
#[global] Instance btQuaternion_eq_dec : EqDecision btQuaternion.
Proof. solve_decision. Defined.
#[global] Instance btTransform_eq_dec : EqDecision btTransform.
Proof. solve_decision. Defined.
#[global] Instance btCollisionShape_eq_dec : EqDecision btCollisionShape.
Proof. solve_decision. Defined.

(** The collision world holds pointers to collision objects, and
    removal looks for a pointer.  Here a pointer is the object it
    points to: its shape, its placement and its owner.  The broadphase
    handle is left out of the comparison, being set and reset by the
    world itself. *)
Definition sameObject (a b : btCollisionObject) : bool :=
  bool_decide (getCollisionShape a = getCollisionShape b
               ∧ getWorldTransform a = getWorldTransform b
               ∧ getUserPointer a = getUserPointer b).

(** The collision library's array of collision objects.
    [btAlignedObjectArray::findLinearSearch]: the index of the first
    entry that is the key, the size of the array when there is none. *)
Fixpoint findLinearSearch (dw : btDynamicsWorld) (key : btCollisionObject) : nat :=
  match dw with
  | [] => O
  | e :: rest => if sameObject e key then O else S (findLinearSearch rest key)
  end.

(** [btAlignedObjectArray::removeAtIndex]: swap with the last entry,
    then drop the last entry. *)
Definition removeAtIndex (dw : btDynamicsWorld) (index : nat) : btDynamicsWorld :=
  match last dw with
  | Some back =>
      if decide (index < length dw)%nat
      then take (length dw - 1) (<[index := back]> dw)
      else dw
  | None => dw
  end.

(** [btCollisionWorld::removeCollisionObject]: a collider that is not
    in the world is not looked for any further. *)
Definition removeCollisionObject (dw : btDynamicsWorld) (o : btCollisionObject)
    : btDynamicsWorld :=
  removeAtIndex dw (findLinearSearch dw o).

(** [PtrHolder::updatePtr] for the two holders: the holder is given the
    handle it goes by from now on.  The collision object is not
    written to, and its user pointer goes on pointing to this holder;
    a user pointer says which holder owns the object, written as the
    handle the holder was created for, while [objectPtr] and [actorPtr]
    say which handle the holder goes by. *)
Definition Object_updatePtr (o : Object) (updated : Ptr) : Object :=
  mkObject updated (mShapeInstance o) (getObjectCollisionObject o).
Definition Actor_updatePtr (a : Actor) (updated : Ptr) : Actor :=
  mkActor updated (getActorCollisionObject a) (getHalfExtents a) (getOnGround a)
    (getInertialForce a) (getCollisionMode a) (getCanWaterWalk a) (getWalkingOnWater a).

Definition removeHeightField (ps : PhysicsSystem) (x y : Z) : PhysicsSystem :=
  match mHeightFields ps !! (x, y) with
  | Some heightfield =>
      let ps :=
        set_mDynamicsWorld ps
          (removeCollisionObject (mDynamicsWorld ps)
             (heightFieldCollisionObject heightfield)) in
      set_mHeightFields ps (delete (x, y) (mHeightFields ps))
  | None => ps
  end.

(** Modelled from the spec: the destructor of [Actor] is in actor.cpp,
    not under src/; by sections 4.2 and 5 a removal detaches the
    collision object from the world before the record is released. *)
Definition Actor_delete (dw : btDynamicsWorld) (actor : Actor) : btDynamicsWorld :=
  removeCollisionObject dw (getActorCollisionObject actor).

(** [PhysicsSystem::remove] *)
Definition PhysicsSystem_remove (ps : PhysicsSystem) (ptr : Ptr) : PhysicsSystem :=
  let ps :=
    match mObjects ps !! ptr with
    | Some found =>
        let ps :=
          set_mDynamicsWorld ps
            (removeCollisionObject (mDynamicsWorld ps) (getObjectCollisionObject found)) in
        set_mObjects ps (delete ptr (mObjects ps))
    | None => ps
    end in
  match mActors ps !! ptr with
  | Some foundActor =>
      let ps := set_mDynamicsWorld ps (Actor_delete (mDynamicsWorld ps) foundActor) in
      set_mActors ps (delete ptr (mActors ps))
  | None => ps
  end.

Definition updatePtr (ps : PhysicsSystem) (old updated : Ptr) : PhysicsSystem :=
  let ps :=
    match mObjects ps !! old with
    | Some obj =>
        let obj := Object_updatePtr obj updated in
        set_mObjects ps (map_insert_new updated obj (delete old (mObjects ps)))
    | None => ps
    end in
  match mActors ps !! old with
  | Some actor =>
      let actor := Actor_updatePtr actor updated in
      set_mActors ps (map_insert_new updated actor (delete old (mActors ps)))
  | None => ps
  end.

(** The members of [PhysicsSystem] that only the water and the debug
    operations touch. *)
Record DebugDrawer := mkDebugDrawer { getDebugMode : bool }.

Record Attachments := mkAttachments {
  mWaterCollisionObject : option btCollisionObject;
  mWaterCollisionShape : option btCollisionShape;
  mDebugDrawer : option DebugDrawer }.

Definition Attachments_new : Attachments := mkAttachments None None None.

Definition toggleDebugRendering (ps : PhysicsSystem) (att : Attachments)
    : bool * PhysicsSystem * Attachments :=
  let ps := set_mDebugDrawEnabled ps (negb (mDebugDrawEnabled ps)) in
  let drawer :=
    if mDebugDrawEnabled ps && negb (bool_decide (is_Some (mDebugDrawer att)))
    then Some (mkDebugDrawer (mDebugDrawEnabled ps))
    else
      match mDebugDrawer att with
      | Some _ => Some (mkDebugDrawer (mDebugDrawEnabled ps))
      | None => None
      end in
  (mDebugDrawEnabled ps, ps,
   mkAttachments (mWaterCollisionObject att) (mWaterCollisionShape att) drawer).

Definition updateWater (ps : PhysicsSystem) (att : Attachments)
    : PhysicsSystem * Attachments :=
  let ps :=
    match mWaterCollisionObject att with
    | Some o => set_mDynamicsWorld ps (removeCollisionObject (mDynamicsWorld ps) o)
    | None => ps
    end in
  if negb (mWaterEnabled ps) then (ps, att)
  else
    let shape := btStaticPlaneShape (osg.vec 0 0 1) (mWaterHeight ps) in
    let o := setCollisionShape btCollisionObject_new shape in
    (set_mDynamicsWorld ps
       (addCollisionObject (mDynamicsWorld ps) o CollisionType_Water CollisionType_Actor),
     mkAttachments (Some o) (Some shape) (mDebugDrawer att)).

Definition disableWater (ps : PhysicsSystem) (att : Attachments)
    : PhysicsSystem * Attachments :=
  if mWaterEnabled ps then updateWater (set_mWater ps false (mWaterHeight ps)) att
  else (ps, att).

Definition enableWater (ps : PhysicsSystem) (att : Attachments) (height : float)
    : PhysicsSystem * Attachments :=
  if negb (mWaterEnabled ps) || negb (F32.eqb (mWaterHeight ps) height)
  then updateWater (set_mWater ps true height) att
  else (ps, att).

Definition setWaterHeight (ps : PhysicsSystem) (att : Attachments) (height : float)
    : PhysicsSystem * Attachments :=
  if negb (F32.eqb (mWaterHeight ps) height)
  then updateWater (set_mWater ps (mWaterEnabled ps) height) att
  else (ps, att).

(** ** The water plane in the collision world *)

Definition inWaterGroup (e : btCollisionObject) : Prop :=
  m_collisionFilterGroup <$> getBroadphaseHandle e = Some CollisionType_Water.

#[global] Instance inWaterGroup_dec (e : btCollisionObject) : Decision (inWaterGroup e).
Proof. unfold inWaterGroup. apply _. Defined.

(** The colliders of the Water group that are in the world. *)
Definition waterColliders (dw : btDynamicsWorld) : list btCollisionObject :=
  filter inWaterGroup dw.

Definition isPlane (o : btCollisionObject) : Prop :=
  ∃ (normal : Vec3f) (constant : float),
    getCollisionShape o = Some (btStaticPlaneShape normal constant).

(** The water plane as [updateWater] puts it into the world. *)
Definition waterPlane (height : float) : btCollisionObject :=
  mkCollisionObject (Some (btStaticPlaneShape (osg.vec 0 0 1) height))
    btTransform_getIdentity None (Some (mkProxy CollisionType_Water CollisionType_Actor)).

(** The water members agree with the collision world: static planes
    are used for water only, and the world holds the plane at the
    water height when water is enabled and no collider of the Water
    group otherwise. *)
Definition waterConsistent (ps : PhysicsSystem) (att : Attachments) : Prop :=
  (∀ e : btCollisionObject, e ∈ mDynamicsWorld ps → isPlane e → inWaterGroup e)
  ∧ (∀ o : btCollisionObject, mWaterCollisionObject att = Some o → isPlane o)
  ∧ waterColliders (mDynamicsWorld ps)
    = (if mWaterEnabled ps then [waterPlane (mWaterHeight ps)] else [])
  ∧ (mWaterEnabled ps = true →
     ∃ o : btCollisionObject,
       mWaterCollisionObject att = Some o
       ∧ sameObject (waterPlane (mWaterHeight ps)) o = true).

(** ** Further scenarios *)

Module Stage.

Definition bystander : Ptr := 3%positive.
Definition crate : Ptr := 7%positive.
Definition barrel : Ptr := 8%positive.

(** The guard and a bystander are registered; the player, who is not,
    and the guard have movements queued. *)
Definition twoQueued : PhysicsSystem :=
  mkPhysicsSystem (mkShapeManager ∅) [Scenario.capsule Scenario.guard] ∅
    {[Scenario.guard := Scenario.standing Scenario.guard;
      bystander := Scenario.standing bystander]} ∅ ∅ ∅
    [(Scenario.player, osg.vec 0 50 0); (Scenario.guard, osg.vec 0 100 0)] []
    (F32.of_Z 0) false (F32.of_Z 0) false.

(** The player is registered. *)
Definition playerRegistered : PhysicsSystem :=
  mkPhysicsSystem (mkShapeManager ∅) [Scenario.capsule Scenario.player] ∅
    {[Scenario.player := Scenario.standing Scenario.player]} ∅ ∅ ∅ [] []
    (F32.of_Z 0) false (F32.of_Z 0) false.

(** A crate, and a crate and a barrel, added to the guard's world. *)
Definition withCrate : PhysicsSystem :=
  @addObject Scenario.openSpace Scenario.calm Scenario.guardQueued crate "box".

Definition withCrateAndBarrel : PhysicsSystem :=
  @addObject Scenario.openSpace Scenario.calm withCrate barrel "box".

(** A terrain tile of three by three samples. *)
Definition tile : list float := F32.of_Z <$> [3; 1; 4; 1; 5; 9; 2; 6; 5].

Definition fresh : PhysicsSystem := PhysicsSystem_new (mkShapeManager ∅).



(** A corner of two walls, one facing down the x axis and one
    slanted, with normals (-1, 0, 0) and (-0.6, -0.8, 0): a sweep that
    goes into a wall is stopped where it starts. *)
Definition slanted : Vec3f :=
  osg.mkVec3f (- F32.lit 6 10)%f32 (- F32.lit 8 10)%f32 (F32.of_Z 0).

Definition cornerTrace (from to : Vec3f) : ActorTracer :=
  let d := (to - from)%vec in
  if (d ⋅ osg.vec (-1) 0 0 <? - F32.lit 1 1000)%f32%vec
  then Scenario.blockedSweep from (osg.vec (-1) 0 0) (Scenario.collider CollisionType_World)
  else if (d ⋅ slanted <? - F32.lit 1 1000)%f32%vec
  then Scenario.blockedSweep from slanted (Scenario.collider CollisionType_World)
  else Scenario.freeSweep from to.

Definition corner : Collaborators :=
  Scenario.world cornerTrace Scenario.freeSweep Scenario.noRayHit Scenario.shapes.

End Stage.

(** * Properties *)

(** Case analysis on every test of the goal. *)
Ltac destruct_tests :=
  repeat match goal with
         | |- context [if ?c then _ else _] => destruct c
         end.

(** ** Facts of binary32 arithmetic *)

(** [<] on [float] is irreflexive and transitive, NaN included. *)
Lemma SFltb_irrefl (a : float) : SFltb a a = false.
Proof.
  unfold SFltb, SFcompare.
  destruct a as [[]|[]| |[] m e]; try reflexivity;
    rewrite Z.compare_refl; change (Pos.compare_cont Eq m m) with (Pos.compare m m);
    by rewrite Pos.compare_refl.
Qed.

Lemma SFltb_trans (a b c : float) :
  SFltb a b = true → SFltb b c = true → SFltb a c = true.
Proof.
  unfold SFltb, SFcompare.
  destruct a as [[]|[]| |[] ma ea], b as [[]|[]| |[] mb eb], c as [[]|[]| |[] mc ec];
    try done;
    change (Pos.compare_cont Eq ma mb) with (Pos.compare ma mb);
    change (Pos.compare_cont Eq mb mc) with (Pos.compare mb mc);
    change (Pos.compare_cont Eq ma mc) with (Pos.compare ma mc);
    destruct (Z.compare_spec ea eb), (Z.compare_spec eb ec), (Z.compare_spec ea ec);
    try done; try lia; subst;
    destruct (Pos.compare_spec ma mb), (Pos.compare_spec mb mc), (Pos.compare_spec ma mc);
    simpl; try done; lia.
Qed.

Lemma SFltb_asym (a b : float) : SFltb a b = true → SFltb b a = false.
Proof.
  intros Hab. destruct (SFltb b a) eqn:Hba; [|done].
  by rewrite <- (SFltb_irrefl a), (SFltb_trans a b a).
Qed.

Lemma F32_add_comm (a b : float) : (a + b)%f32 = (b + a)%f32.
Proof.
  unfold F32.add, SFadd.
  destruct a as [[]|[]| |sa ma ea], b as [[]|[]| |sb mb eb]; try reflexivity.
  by rewrite Z.min_comm, Z.add_comm.
Qed.

Lemma F32_ltb_leb (a b : float) : (a <? b)%f32 = true → (a <=? b)%f32 = true.
Proof.
  unfold F32.ltb, F32.leb, SFltb, SFleb.
  by destruct (SFcompare a b) as [[| |]|].
Qed.

Lemma digits2_pos_shift23 (m : positive) :
  Z.pos (digits2_pos (Pos.iter xO m 23)) = Z.pos (digits2_pos m) + 23.
Proof. cbn. lia. Qed.

Lemma iter_shr_1_shift23 (m : positive) :
  SpecFloat.iter_pos shr_1 23 (Build_shr_record (Z.pos (Pos.iter xO m 23)) false false)
  = Build_shr_record (Z.pos m) false false.
Proof. reflexivity. Qed.

(** Rounding a canonical mantissa that was shifted left by 23 bits
    gives the mantissa back. *)
Lemma binary_round_aux_shift23 (s : bool) (m : positive) (e : Z) :
  bounded F32.prec F32.emax m e = true →
  binary_round_aux F32.prec F32.emax s (Z.pos (Pos.iter xO m 23)) (e + -23) loc_Exact
  = S754_finite s m e.
Proof.
  intros Hb. unfold bounded, canonical_mantissa in Hb.
  apply andb_prop in Hb as [Hcanon Hle]. apply Z.eqb_eq in Hcanon.
  unfold binary_round_aux, shr_fexp.
  unfold Zdigits2 at 1. rewrite digits2_pos_shift23.
  replace (Z.pos (digits2_pos m) + 23 + (e + -23)) with (Z.pos (digits2_pos m) + e) by lia.
  rewrite Hcanon.
  replace (e - (e + -23)) with 23 by lia.
  change (shr (shr_record_of_loc (Z.pos (Pos.iter xO m 23)) loc_Exact) (e + -23) 23)
    with (SpecFloat.iter_pos shr_1 23
            (Build_shr_record (Z.pos (Pos.iter xO m 23)) false false), e + -23 + 23).
  rewrite iter_shr_1_shift23.
  cbn [shr_m loc_of_shr_record round_nearest_even Zdigits2].
  replace (e + -23 + 23) with e by lia.
  rewrite Hcanon, Z.sub_diag.
  cbn [shr shr_record_of_loc shr_m]. by rewrite Hle.
Qed.

(** Multiplication by -1 is exact. *)
Lemma F32_mul_minus_one_r (a : float) :
  valid_binary F32.prec F32.emax a = true →
  (a * F32.of_Z (-1))%f32 = (- a)%f32.
Proof.
  destruct a as [[]|[]| |s m e]; try reflexivity. simpl. intros Hb.
  change (F32.of_Z (-1)) with (S754_finite true 8388608 (-23)).
  unfold F32.mul, SFmul.
  replace (m * 8388608)%positive with (Pos.iter xO m 23) by (cbn; lia).
  rewrite binary_round_aux_shift23 by done. by destruct s.
Qed.

Lemma F32_mul_minus_one_l (a : float) :
  valid_binary F32.prec F32.emax a = true →
  (F32.of_Z (-1) * a)%f32 = (- a)%f32.
Proof.
  destruct a as [[]|[]| |s m e]; try reflexivity. simpl. intros Hb.
  change (F32.of_Z (-1)) with (S754_finite true 8388608 (-23)).
  unfold F32.mul, SFmul.
  replace (8388608 * m)%positive with (Pos.iter xO m 23) by (cbn; lia).
  replace (-23 + e) with (e + -23) by lia.
  rewrite binary_round_aux_shift23 by done. by destruct s.
Qed.

Lemma F32_mul_zero_r (a : float) :
  F32.finite a = true → F32.is_zero (a * F32.of_Z 0)%f32 = true.
Proof. by destruct a as [[]|[]| |[] m e]. Qed.

Lemma F32_mul_zero_l (a b : float) :
  F32.is_zero a = true → F32.finite b = true → F32.is_zero (a * b)%f32 = true.
Proof. by destruct a as [[]|[]| |[] ma ea], b as [[]|[]| |[] mb eb]. Qed.

Lemma F32_sub_diag (a : float) :
  F32.finite a = true → F32.is_zero (a - a)%f32 = true.
Proof.
  destruct a as [[]|[]| |s m e]; try done. intros _.
  unfold F32.sub, SFsub. by rewrite Z.sub_diag.
Qed.

Lemma F32_finite_valid (a : float) :
  F32.finite a = true → valid_binary F32.prec F32.emax a = true.
Proof. unfold F32.finite. by intros [? _]%andb_prop. Qed.

Lemma F32_finite_neg (a : float) : F32.finite (- a)%f32 = F32.finite a.
Proof. by destruct a as [[]|[]| |[] m e]. Qed.

Lemma F32_is_zero_neg (a : float) : F32.is_zero (- a)%f32 = F32.is_zero a.
Proof. by destruct a as [[]|[]| |[] m e]. Qed.

Lemma F32_neg_neg (a : float) : (- - a)%f32 = a.
Proof. by destruct a as [[]|[]| |[] m e]. Qed.

Lemma F32_add_zero_l (a b : float) :
  F32.is_zero a = true → F32.is_zero b = false → (a + b)%f32 = b.
Proof. by destruct a as [[]|[]| |[] ma ea], b as [[]|[]| |[] mb eb]. Qed.

Lemma F32_add_zeros (a b : float) :
  F32.is_zero a = true → F32.is_zero b = true → F32.is_zero (a + b)%f32 = true.
Proof. by destruct a as [[]|[]| |[] ma ea], b as [[]|[]| |[] mb eb]. Qed.

Lemma F32_sub_zeros (a b : float) :
  F32.is_zero a = true → F32.is_zero b = true → F32.is_zero (a - b)%f32 = true.
Proof. by destruct a as [[]|[]| |[] ma ea], b as [[]|[]| |[] mb eb]. Qed.

Lemma F32_mul_zero_finite (a b : float) :
  F32.finite a = true → F32.is_zero b = true → F32.is_zero (a * b)%f32 = true.
Proof. by destruct a as [[]|[]| |[] ma ea], b as [[]|[]| |[] mb eb]. Qed.

(** ** The movement queue *)

Lemma replaceQueued_None (ptr : Ptr) (movement : Vec3f) (queue : PtrVelocityList) :
  ptr ∉ queue.*1 → replaceQueued ptr movement queue = None.
Proof.
  induction queue as [|[first second] rest IH]; simpl; intros Hnot; [done|].
  apply not_elem_of_cons in Hnot as [Hne Hrest].
  destruct (decide (first = ptr)) as [->|_]; [done|].
  by rewrite IH.
Qed.

Lemma replaceQueued_Some (ptr : Ptr) (movement : Vec3f) (queue : PtrVelocityList) :
  ptr ∈ queue.*1 →
  ∃ (i : nat) (old : Vec3f),
    queue !! i = Some (ptr, old)
    ∧ (∀ (j : nat) (e : Ptr * Vec3f), (j < i)%nat → queue !! j = Some e → e.1 ≠ ptr)
    ∧ replaceQueued ptr movement queue = Some (<[i := (ptr, movement)]> queue).
Proof.
  induction queue as [|[first second] rest IH]; simpl; intros Hin.
  - by apply elem_of_nil in Hin.
  - destruct (decide (first = ptr)) as [->|Hne].
    + exists 0%nat, second. split_and!; [done| |done].
      intros j e Hj. lia.
    + apply elem_of_cons in Hin as [Heq|Hin]; [congruence|].
      destruct (IH Hin) as (i & old & Hi & Hbefore & ->).
      exists (S i), old. split_and!; [done| |done].
      intros [|j] e Hj He; simpl in He.
      * by inversion He.
      * apply (Hbefore j); [lia|done].
Qed.

Lemma fmap_fst_insert_same (queue : PtrVelocityList) (i : nat) (ptr : Ptr)
    (old movement : Vec3f) :
  queue !! i = Some (ptr, old) → (<[i := (ptr, movement)]> queue).*1 = queue.*1.
Proof.
  revert i. induction queue as [|e rest IH]; intros [|i] Hi; simpl in *; try done.
  - by inversion Hi.
  - f_equal. by apply IH.
Qed.

(** C5.  [queueObjectMovement] rewrites the vector of an actor that is
    already queued where it stands, leaving every other entry and the
    order alone, and appends an actor that is not queued; a queue with
    at most one entry for each actor stays so, and nothing but the
    queue changes. *)
Theorem queueObjectMovement_replaces_or_appends
    (ps : PhysicsSystem) (ptr : Ptr) (movement : Vec3f) :
  let queue := mMovementQueue ps in
  let queue' := mMovementQueue (queueObjectMovement ps ptr movement) in
  (ptr ∈ queue.*1 →
   ∃ (i : nat) (old : Vec3f),
     queue !! i = Some (ptr, old)
     ∧ (∀ (j : nat) (e : Ptr * Vec3f), (j < i)%nat → queue !! j = Some e → e.1 ≠ ptr)
     ∧ queue' = <[i := (ptr, movement)]> queue)
  ∧ (ptr ∉ queue.*1 → queue' = queue ++ [(ptr, movement)])
  ∧ (NoDup queue.*1 → NoDup queue'.*1)
  ∧ queueObjectMovement ps ptr movement = set_mMovementQueue ps queue'.
Proof.
  intros queue queue'. subst queue queue'. unfold queueObjectMovement.
  split_and!.
  - intros Hin.
    destruct (replaceQueued_Some ptr movement _ Hin) as (i & old & Hi & Hbefore & Heq).
    exists i, old. by rewrite Heq.
  - intros Hnot. by rewrite (replaceQueued_None _ _ _ Hnot).
  - intros Hnodup.
    destruct (decide (ptr ∈ (mMovementQueue ps).*1)) as [Hin|Hnot].
    + destruct (replaceQueued_Some ptr movement _ Hin) as (i & old & Hi & _ & Heq).
      rewrite Heq. simpl. by rewrite (fmap_fst_insert_same _ _ _ old).
    + rewrite (replaceQueued_None _ _ _ Hnot). simpl.
      rewrite fmap_app. simpl. apply NoDup_app. split_and!; [done| |].
      * intros p Hp Hp'. apply list_elem_of_singleton in Hp'. by subst.
      * apply NoDup_singleton.
  - by destruct (replaceQueued ptr movement (mMovementQueue ps)).
Qed.

Lemma queueObjectMovement_replaces_or_appends_witness :
  mMovementQueue
    (queueObjectMovement Scenario.guardQueued Scenario.player (osg.vec 1 2 3))
  = [(Scenario.guard, osg.vec 0 100 0); (Scenario.player, osg.vec 1 2 3)]
  ∧ NoDup (mMovementQueue
             (queueObjectMovement Scenario.guardQueued Scenario.guard (osg.vec 1 2 3))).*1.
Proof.
  split.
  - apply (proj1 (proj2 (queueObjectMovement_replaces_or_appends
                           Scenario.guardQueued Scenario.player (osg.vec 1 2 3)))).
    vm_compute. intros Hin. apply list_elem_of_singleton in Hin. discriminate Hin.
  - apply (proj1 (proj2 (proj2 (queueObjectMovement_replaces_or_appends
                                  Scenario.guardQueued Scenario.guard (osg.vec 1 2 3))))).
    apply NoDup_singleton.
Defined.

(** ** The fixed tick *)

Section FixedTick.

Context `{Collaborators}.

(** C1 (amended).  A call of [applyQueuedMovement] that leaves the
    accumulated time below 1/60 s returns an empty result list, adds
    [dt] to the accumulator and empties the movement queue, as every
    call does; actors, colliders and the game world are left as they
    were. *)
Theorem applyQueuedMovement_below_threshold
    (w : World) (ps : PhysicsSystem) (dt : float) :
  (mTimeAccum ps + dt >=? F32.lit 1 60)%f32 = false →
  ∃ ps' : PhysicsSystem,
    applyQueuedMovement w ps dt = Some ([], ps', w)
    ∧ mMovementQueue ps' = []
    ∧ mMovementResults ps' = []
    ∧ mTimeAccum ps' = (mTimeAccum ps + dt)%f32
    ∧ mActors ps' = mActors ps
    ∧ mObjects ps' = mObjects ps
    ∧ mHeightFields ps' = mHeightFields ps
    ∧ mDynamicsWorld ps' = mDynamicsWorld ps
    ∧ mCollisions ps' = mCollisions ps
    ∧ mStandingCollisions ps' = mStandingCollisions ps.
Proof.
  intros Hbelow. unfold applyQueuedMovement. simpl.
  rewrite Hbelow. simpl. eexists. split; [reflexivity|]. by split_and!.
Qed.

(** Every call empties the queue, whatever the accumulated time. *)
Lemma applyQueuedMovement_clears_queue
    (w w' : World) (ps ps' : PhysicsSystem) (dt : float) (results : PtrVelocityList) :
  applyQueuedMovement w ps dt = Some (results, ps', w') → mMovementQueue ps' = [].
Proof.
  unfold applyQueuedMovement. intros Hcall.
  apply bind_Some in Hcall as ([ps1 w1] & _ & Hret).
  by inversion Hret.
Qed.

End FixedTick.

Lemma applyQueuedMovement_below_threshold_witness :
  ∃ ps' : PhysicsSystem,
    @applyQueuedMovement Scenario.openSpace Scenario.calm Scenario.guardQueued
      (F32.lit 1 1000) = Some ([], ps', Scenario.calm)
    ∧ mMovementQueue ps' = []
    ∧ mActors ps' = mActors Scenario.guardQueued.
Proof.
  destruct (@applyQueuedMovement_below_threshold Scenario.openSpace Scenario.calm
              Scenario.guardQueued (F32.lit 1 1000))
    as (ps' & Hcall & Hqueue & _ & _ & Hactors & _).
  - vm_compute. reflexivity.
  - exists ps'. by split_and!.
Defined.

(** C1 as stated fails: with the guard's movement queued and 1 ms
    elapsed, the call below the threshold leaves an empty queue, and the
    call that then completes the tick has nothing to drain. *)
Lemma applyQueuedMovement_below_threshold_drops_queue :
  (mTimeAccum Scenario.guardQueued + F32.lit 1 1000 >=? F32.lit 1 60)%f32 = false
  ∧ mMovementQueue Scenario.guardQueued = [(Scenario.guard, osg.vec 0 100 0)]
  ∧ ∃ (ps' ps'' : PhysicsSystem),
      @applyQueuedMovement Scenario.openSpace Scenario.calm Scenario.guardQueued
        (F32.lit 1 1000) = Some ([], ps', Scenario.calm)
      ∧ mMovementQueue ps' ≠ mMovementQueue Scenario.guardQueued
      ∧ (mTimeAccum ps' + F32.lit 1 60 >=? F32.lit 1 60)%f32 = true
      ∧ @applyQueuedMovement Scenario.openSpace Scenario.calm ps' (F32.lit 1 60)
        = Some ([], ps'', Scenario.calm).
Proof.
  split_and!; [vm_compute; reflexivity | reflexivity |].
  eexists _, _. split_and!.
  - vm_compute. reflexivity.
  - simpl. discriminate.
  - vm_compute. reflexivity.
  - vm_compute. reflexivity.
Qed.

(** ** Registration *)

Section Registration.

Context `{Collaborators}.

(** C8.  When the shape manager returns an instance without a collision
    shape, [addObject] creates no [Object], adds nothing to the
    collision world and leaves the object map as it was, so that an
    entity it did not hold is not held afterwards; only the shape
    manager keeps what [createInstance] did to it. *)
Theorem addObject_without_shape
    (w : World) (ps : PhysicsSystem) (ptr : Ptr) (mesh : string) :
  instanceCollisionShape (createInstance (mShapeManager ps) mesh).1 = None →
  let ps' := addObject w ps ptr mesh in
  ps' = set_mShapeManager ps (createInstance (mShapeManager ps) mesh).2
  ∧ mObjects ps' = mObjects ps
  ∧ mDynamicsWorld ps' = mDynamicsWorld ps
  ∧ mActors ps' = mActors ps
  ∧ mHeightFields ps' = mHeightFields ps
  ∧ (mObjects ps !! ptr = None → mObjects ps' !! ptr = None).
Proof.
  intros Hnone. unfold addObject.
  destruct (createInstance (mShapeManager ps) mesh) as [shapeInstance manager].
  simpl in *. rewrite Hnone. simpl. by split_and!.
Qed.

(** With a collision shape the object is recorded and its collision
    object joins the world in the World group. *)
Lemma addObject_with_shape
    (w : World) (ps : PhysicsSystem) (ptr : Ptr) (mesh : string) (shape : btCollisionShape) :
  instanceCollisionShape (createInstance (mShapeManager ps) mesh).1 = Some shape →
  mObjects ps !! ptr = None →
  let ps' := addObject w ps ptr mesh in
  is_Some (mObjects ps' !! ptr)
  ∧ length (mDynamicsWorld ps') = S (length (mDynamicsWorld ps)).
Proof.
  intros Hshape Hfresh. unfold addObject.
  destruct (createInstance (mShapeManager ps) mesh) as [shapeInstance manager].
  simpl in *. rewrite Hshape. simpl. unfold map_insert_new. rewrite Hfresh.
  rewrite lookup_insert_eq. split; [by eexists|].
  unfold addCollisionObject. rewrite length_app. simpl. lia.
Qed.

(** C10.  Without an actor registered for the player,
    [toggleCollisionMode] returns false and leaves the whole physics
    system, every actor's collision mode included, as it was. *)
Theorem toggleCollisionMode_without_player (w : World) (ps : PhysicsSystem) :
  mActors ps !! getPlayerPtr w = None →
  toggleCollisionMode w ps = (false, ps).
Proof.
  intros Hnone. unfold toggleCollisionMode. by rewrite Hnone.
Qed.

(** With the player registered the flag of that actor is flipped and
    returned. *)
Lemma toggleCollisionMode_with_player (w : World) (ps : PhysicsSystem) (actor : Actor) :
  mActors ps !! getPlayerPtr w = Some actor →
  (toggleCollisionMode w ps).1 = negb (getCollisionMode actor)
  ∧ (getCollisionMode <$> mActors (toggleCollisionMode w ps).2 !! getPlayerPtr w)
    = Some (negb (getCollisionMode actor)).
Proof.
  intros Hsome. unfold toggleCollisionMode. rewrite Hsome. simpl.
  by rewrite lookup_insert_eq.
Qed.

End Registration.

Lemma addObject_without_shape_witness :
  mObjects (@addObject Scenario.openSpace Scenario.calm Scenario.guardQueued 7%positive "rock")
  = mObjects Scenario.guardQueued
  ∧ mDynamicsWorld
      (@addObject Scenario.openSpace Scenario.calm Scenario.guardQueued 7%positive "rock")
    = mDynamicsWorld Scenario.guardQueued.
Proof.
  destruct (@addObject_without_shape Scenario.openSpace Scenario.calm Scenario.guardQueued
              7%positive "rock") as (_ & Hobjects & Hworld & _).
  - vm_compute. reflexivity.
  - by split.
Defined.

Lemma toggleCollisionMode_without_player_witness :
  toggleCollisionMode Scenario.calm Scenario.guardQueued = (false, Scenario.guardQueued).
Proof.
  apply toggleCollisionMode_without_player. vm_compute. reflexivity.
Defined.

(** ** Stepping up and tracing down *)

Section Stepping.

Context `{Collaborators}.

(** C6.  [stepMove] succeeds only when its final downward sweep hits
    (fraction below 1) a surface whose slope is at most [sMaxSlope],
    49 degrees, on a collider outside the Actor group; it then moves
    [position] to where that sweep ended and scales [remainingTime] by
    what the forward sweep left.  When the collider hit by the downward
    sweep is in the Actor group the call fails and returns [position]
    and [remainingTime] as they were passed. *)
Theorem stepMove_lands_on_walkable_non_actor
    (dw : btDynamicsWorld) (colobj : btCollisionObject) (position toMove : Vec3f)
    (remainingTime : float) :
  let forward := stepForwardTrace dw colobj position toMove in
  let down := stepDownTrace dw colobj position toMove in
  (∀ (position' : Vec3f) (remainingTime' : float),
     stepMove dw colobj position toMove remainingTime
     = Some (true, position', remainingTime') →
     (mFraction down <? F32.of_Z 1)%f32 = true
     ∧ (getSlope (mPlaneNormal down) <=? F32.of_Z 49)%f32 = true
     ∧ (∃ group : Z, hitFilterGroup down = Some group ∧ group ≠ CollisionType_Actor)
     ∧ position' = mEndPos down
     ∧ remainingTime' = (remainingTime * (F32.of_Z 1 - mFraction forward))%f32)
  ∧ (hitFilterGroup down = Some CollisionType_Actor →
     stepMove dw colobj position toMove remainingTime
     = Some (false, position, remainingTime)).
Proof.
  intros forward down. subst forward down. unfold stepMove, sMaxSlope. split.
  - intros position' remainingTime' Hcall.
    destruct (mFraction (stepUpTrace dw colobj position) <? F32.epsilon)%f32;
      [discriminate|].
    destruct (mFraction (stepForwardTrace dw colobj position toMove) <? F32.epsilon)%f32;
      [discriminate|].
    destruct (mFraction (stepDownTrace dw colobj position toMove) <? F32.of_Z 1)%f32;
      [|discriminate].
    destruct (getSlope (mPlaneNormal (stepDownTrace dw colobj position toMove))
              <=? F32.of_Z 49)%f32; [|discriminate].
    simpl in Hcall.
    destruct (hitFilterGroup (stepDownTrace dw colobj position toMove)) as [group|];
      [|discriminate].
    simpl in Hcall.
    destruct (Z.eqb_spec group CollisionType_Actor) as [|Hne]; [discriminate|].
    inversion Hcall; subst. split_and!; try done. by exists group.
  - intros Hactor. rewrite Hactor. simpl. by destruct_tests.
Qed.

(** C7 (amended).  [traceDown]: when the capsule sweep finds nothing
    (fraction at least 1) the actor is off the ground and the position
    of the reference is returned; when it hits and the ray cast down
    from the same origin hits too, more than 30 units from where the
    sweep ended or with the sweep's plane steeper than [sMaxSlope], the
    result is the ray's hit point raised by one unit, on the ground
    when the slope of the ray's normal is at most [sMaxSlope]; in every
    other case, a ray that hits nothing included, it is where the sweep
    ended, on the ground when the slope of the sweep's normal is at
    most [sMaxSlope]. *)
Theorem traceDown_cases
    (w : World) (dw : btDynamicsWorld) (ptr : Ptr) (actor : Actor) (maxHeight : float) :
  let position := asVec3 (getPosition (refData w ptr)) in
  let target := (position - osg.mkVec3f (F32.of_Z 0) (F32.of_Z 0) maxHeight)%vec in
  let tracer := findGround dw actor position target in
  let ray :=
    rayTest dw position target 255 (Z.lor CollisionType_World CollisionType_HeightMap) in
  let far :=
    (osg.length (m_hitPointWorld ray - mEndPos tracer)%vec >? F32.of_Z 30)%f32 in
  let steep := (getSlope (mPlaneNormal tracer) >? sMaxSlope)%f32 in
  ((mFraction tracer >=? F32.of_Z 1)%f32 = true →
   traceDown w dw ptr actor maxHeight = (position, setOnGround actor false))
  ∧ ((mFraction tracer >=? F32.of_Z 1)%f32 = false →
     hasHit ray = true → far = true ∨ steep = true →
     traceDown w dw ptr actor maxHeight
     = ((m_hitPointWorld ray + osg.vec 0 0 1)%vec,
        setOnGround actor (getSlope (m_hitNormalWorld ray) <=? sMaxSlope)%f32))
  ∧ ((mFraction tracer >=? F32.of_Z 1)%f32 = false →
     hasHit ray = false ∨ (far = false ∧ steep = false) →
     traceDown w dw ptr actor maxHeight
     = (mEndPos tracer,
        setOnGround actor (getSlope (mPlaneNormal tracer) <=? sMaxSlope)%f32)).
Proof.
  intros position target tracer ray far steep.
  subst position target tracer ray far steep. unfold traceDown. split_and!.
  - by intros ->.
  - intros -> -> [-> | ->]; simpl; [done|]. by rewrite orb_true_r.
  - intros -> [-> | [-> ->]]; simpl; [done|]. by rewrite andb_false_r.
Qed.

End Stepping.

Lemma stepMove_lands_on_walkable_non_actor_witness :
  (∃ group : Z,
     hitFilterGroup
       (@stepDownTrace Scenario.overTerrain [] (Scenario.capsule Scenario.guard)
          (osg.vec 0 0 0) (osg.vec 1 0 0)) = Some group
     ∧ group ≠ CollisionType_Actor)
  ∧ @stepMove Scenario.overActor [] (Scenario.capsule Scenario.guard)
      (osg.vec 0 0 0) (osg.vec 1 0 0) (F32.lit 1 60)
    = Some (false, osg.vec 0 0 0, F32.lit 1 60).
Proof.
  split.
  - destruct (proj1 (@stepMove_lands_on_walkable_non_actor Scenario.overTerrain []
                       (Scenario.capsule Scenario.guard) (osg.vec 0 0 0) (osg.vec 1 0 0)
                       (F32.lit 1 60))
                (osg.vec 1 0 3) (F32.of_Z 0)) as (_ & _ & Hgroup & _).
    + vm_compute. reflexivity.
    + exact Hgroup.
  - apply (proj2 (@stepMove_lands_on_walkable_non_actor Scenario.overActor []
                    (Scenario.capsule Scenario.guard) (osg.vec 0 0 0) (osg.vec 1 0 0)
                    (F32.lit 1 60))).
    vm_compute. reflexivity.
Defined.

Lemma traceDown_cases_witness :
  (@traceDown Scenario.openSpace Scenario.calm [] Scenario.guard
     (Scenario.standing Scenario.guard) (F32.of_Z 100)).1 = osg.vec 0 0 0
  ∧ (@traceDown Scenario.ledge Scenario.calm [] Scenario.guard
       (Scenario.standing Scenario.guard) (F32.of_Z 100)).1 = osg.vec 0 0 (-89)
  ∧ (@traceDown Scenario.doorway Scenario.calm [] Scenario.guard
       (Scenario.standing Scenario.guard) (F32.of_Z 100)).1 = osg.vec 0 0 (-89)
  ∧ (@traceDown Scenario.floor Scenario.calm [] Scenario.guard
       (Scenario.standing Scenario.guard) (F32.of_Z 100)).1 = osg.vec 0 0 (-50)
  ∧ (@traceDown Scenario.ledgeOverVoid Scenario.calm [] Scenario.guard
       (Scenario.standing Scenario.guard) (F32.of_Z 100)).1 = osg.vec 0 0 (-50).
Proof.
  split_and!.
  - rewrite (proj1 (@traceDown_cases Scenario.openSpace Scenario.calm [] Scenario.guard
                      (Scenario.standing Scenario.guard) (F32.of_Z 100)));
      vm_compute; reflexivity.
  - rewrite (proj1 (proj2 (@traceDown_cases Scenario.ledge Scenario.calm [] Scenario.guard
                             (Scenario.standing Scenario.guard) (F32.of_Z 100))));
      [| | |right]; vm_compute; reflexivity.
  - rewrite (proj1 (proj2 (@traceDown_cases Scenario.doorway Scenario.calm [] Scenario.guard
                             (Scenario.standing Scenario.guard) (F32.of_Z 100))));
      [| | |left]; vm_compute; reflexivity.
  - rewrite (proj2 (proj2 (@traceDown_cases Scenario.floor Scenario.calm [] Scenario.guard
                             (Scenario.standing Scenario.guard) (F32.of_Z 100))));
      [| |right]; vm_compute; try reflexivity. split; reflexivity.
  - rewrite (proj2 (proj2 (@traceDown_cases Scenario.ledgeOverVoid Scenario.calm []
                             Scenario.guard (Scenario.standing Scenario.guard)
                             (F32.of_Z 100))));
      [| |left]; vm_compute; reflexivity.
Defined.

(** C7 as stated fails: the capsule sweep catches on a wall, steeper
    than [sMaxSlope], while the ray cast down from the same origin hits
    nothing within reach.  The result is where the sweep ended, off the
    ground, and not the hit point of the ray raised by one unit. *)
Lemma traceDown_steep_sweep_without_ray_hit :
  let actor := Scenario.standing Scenario.guard in
  let position := asVec3 (getPosition (refData Scenario.calm Scenario.guard)) in
  let target := (position - osg.vec 0 0 100)%vec in
  let tracer := @findGround Scenario.ledgeOverVoid [] actor position target in
  let ray :=
    @rayTest Scenario.ledgeOverVoid [] position target 255
      (Z.lor CollisionType_World CollisionType_HeightMap) in
  let result :=
    @traceDown Scenario.ledgeOverVoid Scenario.calm [] Scenario.guard actor (F32.of_Z 100) in
  (mFraction tracer >=? F32.of_Z 1)%f32 = false
  ∧ (@getSlope Scenario.ledgeOverVoid (mPlaneNormal tracer) >? sMaxSlope)%f32 = true
  ∧ hasHit ray = false
  ∧ result = (mEndPos tracer, setOnGround actor false)
  ∧ result.1 ≠ (m_hitPointWorld ray + osg.vec 0 0 1)%vec.
Proof. vm_compute. split_and!; (reflexivity || discriminate). Qed.

(** ** The solver loop *)

Section SolverLoop.

Context `{Collaborators}.

Lemma stepMove_fails_unchanged
    (dw : btDynamicsWorld) (colobj : btCollisionObject) (position toMove : Vec3f)
    (remainingTime : float) (position' : Vec3f) (remainingTime' : float) :
  stepMove dw colobj position toMove remainingTime = Some (false, position', remainingTime') →
  position' = position ∧ remainingTime' = remainingTime.
Proof.
  unfold stepMove. intros Hcall.
  repeat match type of Hcall with
         | context [if ?c then _ else _] => destruct c; simpl in Hcall
         | context [hitFilterGroup ?t] => destruct (hitFilterGroup t); simpl in Hcall
         end;
    by inversion Hcall.
Qed.

Lemma tryStep_fails_unchanged
    (dw : btDynamicsWorld) (colobj : btCollisionObject) (s : LoopState)
    (position' : Vec3f) (remainingTime' : float) :
  tryStep dw colobj s = Some (false, position', remainingTime') →
  position' = newPosition s ∧ remainingTime' = remainingTime s.
Proof.
  unfold tryStep. intros Hcall.
  apply bind_Some in Hcall as ([[result p] rt] & Hfirst & Hsecond).
  destruct result; simpl in Hsecond; [by inversion Hsecond|].
  apply stepMove_fails_unchanged in Hfirst as [-> ->].
  by apply stepMove_fails_unchanged in Hsecond.
Qed.

(** What the code does in an iteration of the loop of [move] in which
    the sweep hits an obstacle and stepping up fails: the slide
    velocity v' = slide(normalized reflect(v, n), n) |v| is computed;
    the loop breaks when |v' - v|^2 < 0.01 or when the dot product of
    the velocity v the iteration started with, not of v', and the
    initial velocity is at most 0; otherwise it goes on with v' in
    place of v, its z component clamped to at most 0 unless the
    position is below the swim level or the actor flies. *)
Theorem moveIteration_slides_along_obstacle
    (dw : btDynamicsWorld) (colobj : btCollisionObject) (pureWaterCreature : bool)
    (halfExtents : Vec3f) (waterlevel swimlevel : float) (isFlying : bool)
    (origVelocity : Vec3f) (s : LoopState) (position' : Vec3f) (remainingTime' : float) :
  let nextpos := (newPosition s + velocity s * remainingTime s)%vec in
  let tracer := doTrace dw colobj (newPosition s) nextpos in
  let n := mPlaneNormal tracer in
  let v := velocity s in
  let v' := (slide (osg.normalize (reflect v n)).2 n * (osg.normalize v).1)%vec in
  ((osg.z (newPosition s) <? swimlevel)%f32 && negb isFlying
   && (osg.z nextpos >? swimlevel)%f32 && (osg.z (newPosition s) <=? swimlevel)%f32) = false →
  F64.ltb (F64.lit 1 10000) (F64.of_float (osg.length2 (newPosition s - nextpos)%vec)) = true →
  (mFraction tracer >=? F32.of_Z 1)%f32 = false →
  tryStep dw colobj s = Some (false, position', remainingTime') →
  moveIteration dw colobj pureWaterCreature halfExtents waterlevel swimlevel isFlying
    origVelocity s
  = Some
      (if F64.ltb (F64.of_float (osg.length2 (v' - v)%vec)) (F64.lit 1 100) then Break s
       else if (v ⋅ origVelocity <=? F32.of_Z 0)%f32%vec then Break s
       else
         Continue
           (mkLoopState (newPosition s)
              (if (osg.z (newPosition s) <? swimlevel)%f32 || isFlying then v'
               else osg.set_z v' (F32.min (osg.z v') (F32.of_Z 0)))
              (remainingTime s))).
Proof.
  intros nextpos tracer n v v' Hclamp Hmoves Hhit Hstep.
  subst nextpos tracer n v v'. unfold moveIteration.
  rewrite Hclamp, Hmoves, Hhit, Hstep.
  apply tryStep_fails_unchanged in Hstep as [-> ->].
  cbv beta iota delta [mbind option_bind].
  unfold slideStep, slideVelocity.
  destruct s as [p v rt].
  cbn [newPosition velocity remainingTime].
  destruct (osg.normalize v) as [movelen direction].
  destruct (osg.normalize (reflect v _)) as [len reflectdir].
  cbn [fst snd negb].
  by destruct ((osg.z p <? swimlevel)%f32 || isFlying).
Qed.

(** Sliding along the plane whose normal points straight down leaves
    no vertical component. *)
Lemma slide_down_horizontal (r : Vec3f) :
  F32.finite (osg.x r) = true → F32.finite (osg.y r) = true → F32.finite (osg.z r) = true →
  F32.is_zero (osg.z (slide r (osg.vec 0 0 (-1)))) = true.
Proof.
  destruct r as [rx ry rz]. simpl. intros Hx Hy Hz.
  unfold osg.dot. simpl.
  rewrite (F32_mul_minus_one_r rz) by by apply F32_finite_valid.
  pose proof (F32_add_zeros _ _ (F32_mul_zero_r rx Hx) (F32_mul_zero_r ry Hy)) as Hzero.
  destruct (F32.is_zero rz) eqn:Hrz.
  - apply F32_sub_zeros; [done|].
    apply F32_mul_zero_finite; [done|].
    apply F32_add_zeros; [done|]. by rewrite F32_is_zero_neg.
  - rewrite F32_add_zero_l; [|done|by rewrite F32_is_zero_neg].
    rewrite F32_mul_minus_one_l, F32_neg_neg.
    + by apply F32_sub_diag.
    + apply F32_finite_valid. by rewrite F32_finite_neg.
Qed.

(** C4 (amended).  In an iteration of the loop of [move] where the
    actor does not fly, the position is strictly below the swim level
    and the next position would be above it, the velocity v is replaced
    by slide(normalized reflect(v/|v|, down), down) |v| with down =
    (0,0,-1), and the iteration ends there: the position and the
    remaining time are unchanged.  The new velocity is horizontal, its
    z component a zero, whenever |v| and the normalized reflected
    direction are finite numbers. *)
Theorem moveIteration_clamps_at_swim_level
    (dw : btDynamicsWorld) (colobj : btCollisionObject) (pureWaterCreature : bool)
    (halfExtents : Vec3f) (waterlevel swimlevel : float) (isFlying : bool)
    (origVelocity : Vec3f) (s : LoopState) :
  let nextpos := (newPosition s + velocity s * remainingTime s)%vec in
  let down := osg.vec 0 0 (-1) in
  let v := velocity s in
  let movelen := (osg.normalize v).1 in
  let reflectdir := (osg.normalize (reflect (osg.normalize v).2 down)).2 in
  let v' := (slide reflectdir down * movelen)%vec in
  isFlying = false →
  (osg.z (newPosition s) <? swimlevel)%f32 = true →
  (osg.z nextpos >? swimlevel)%f32 = true →
  moveIteration dw colobj pureWaterCreature halfExtents waterlevel swimlevel isFlying
    origVelocity s
  = Some (Continue (mkLoopState (newPosition s) v' (remainingTime s)))
  ∧ (F32.finite movelen = true →
     F32.finite (osg.x reflectdir) = true →
     F32.finite (osg.y reflectdir) = true →
     F32.finite (osg.z reflectdir) = true →
     F32.is_zero (osg.z v') = true).
Proof.
  intros nextpos down v movelen reflectdir v' -> Hbelow Habove.
  subst nextpos down v movelen reflectdir v'. split.
  - unfold moveIteration. rewrite Hbelow, Habove, (F32_ltb_leb _ _ Hbelow).
    cbn [negb andb]. unfold swimClamp.
    destruct (osg.normalize (velocity s)) as [movelen direction].
    cbn [fst snd].
    by destruct (osg.normalize (reflect direction _)) as [len reflectdir].
  - intros Hlen Hx Hy Hz.
    apply F32_mul_zero_l; [|done]. by apply slide_down_horizontal.
Qed.

End SolverLoop.

Lemma moveIteration_slides_along_obstacle_witness :
  @moveIteration Scenario.wall [] (Scenario.capsule Scenario.guard) false
    (osg.vec 20 20 64) (- F32.max_float)%f32 (- F32.max_float)%f32 false
    (osg.vec 300 400 0) (mkLoopState (osg.vec 0 0 0) (osg.vec 300 400 0) (F32.lit 1 60))
  = Some (Continue (mkLoopState (osg.vec 0 0 0) (osg.vec 0 400 0) (F32.lit 1 60))).
Proof.
  rewrite (@moveIteration_slides_along_obstacle Scenario.wall [] (Scenario.capsule Scenario.guard)
             false (osg.vec 20 20 64) (- F32.max_float)%f32 (- F32.max_float)%f32 false
             (osg.vec 300 400 0) (mkLoopState (osg.vec 0 0 0) (osg.vec 300 400 0) (F32.lit 1 60))
             (osg.vec 0 0 0) (F32.lit 1 60));
    vm_compute; reflexivity.
Defined.

(** Running straight into the wall, the sweep hits, stepping up fails
    and the slide velocity v' has dot product 0 with the initial
    velocity, yet the loop does not break but goes on with v': the
    test for having been turned around reads the velocity from before
    the slide. *)
Lemma moveIteration_goes_on_when_slide_is_turned_around :
  let s := mkLoopState (osg.vec 0 0 0) (osg.vec 100 0 0) (F32.lit 1 60) in
  let origVelocity := osg.vec 100 0 0 in
  let tracer :=
    @doTrace Scenario.wall [] (Scenario.capsule Scenario.guard) (newPosition s)
      (newPosition s + velocity s * remainingTime s)%vec in
  let v' := slideVelocity (velocity s) (mPlaneNormal tracer) in
  (mFraction tracer >=? F32.of_Z 1)%f32 = false
  ∧ @tryStep Scenario.wall [] (Scenario.capsule Scenario.guard) s
    = Some (false, newPosition s, remainingTime s)
  ∧ F64.ltb (F64.of_float (osg.length2 (v' - velocity s)%vec)) (F64.lit 1 100) = false
  ∧ (v' ⋅ origVelocity <=? F32.of_Z 0)%f32%vec = true
  ∧ @moveIteration Scenario.wall [] (Scenario.capsule Scenario.guard) false
      (osg.vec 20 20 64) (- F32.max_float)%f32 (- F32.max_float)%f32 false origVelocity s
    = Some (Continue (mkLoopState (osg.vec 0 0 0) v' (F32.lit 1 60))).
Proof. vm_compute. by split_and!. Qed.

(** C2.  The code departs from the claim.  An actor moving with
    (100, 30, 0) into the corner slides along the first wall with
    (0, 30, 0); at the slanted wall the slide velocity v' turns back,
    its dot product with the initial velocity being negative, where
    the claim has the loop break.  The code tests the velocity from
    before the slide, goes on with v', and its next sweep moves the
    actor to a negative x, against the direction it was asked to move
    in. *)
Lemma moveLoop_slides_back_out_of_corner :
  let origVelocity := osg.vec 100 30 0 in
  let s0 := mkLoopState (osg.vec 0 0 64) origVelocity (F32.lit 1 60) in
  let iteration :=
    @moveIteration Stage.corner [] (Scenario.capsule Scenario.guard) false
      (osg.vec 20 20 64) (- F32.max_float)%f32 (- F32.max_float)%f32 false origVelocity in
  let continued (s : LoopState) :=
    match iteration s with
    | Some (Continue s') => s'
    | _ => s
    end in
  let s1 := continued s0 in
  let s2 := continued s1 in
  iteration s0 = Some (Continue s1)
  ∧ velocity s1 = osg.vec 0 30 0
  ∧ (mFraction (@doTrace Stage.corner [] (Scenario.capsule Scenario.guard) (newPosition s1)
                  (newPosition s1 + velocity s1 * remainingTime s1)%vec)
     >=? F32.of_Z 1)%f32 = false
  ∧ @tryStep Stage.corner [] (Scenario.capsule Scenario.guard) s1
    = Some (false, newPosition s1, remainingTime s1)
  ∧ velocity s2 = slideVelocity (velocity s1) Stage.slanted
  ∧ (velocity s2 ⋅ origVelocity <=? F32.of_Z 0)%f32%vec = true
  ∧ iteration s1 = Some (Continue s2)
  ∧ newPosition s2 = newPosition s0
  ∧ ((λ s : LoopState, (osg.x (newPosition s) <? F32.of_Z 0)%f32)
       <$> @moveLoop Stage.corner sMaxIterations [] (Scenario.capsule Scenario.guard) false
             (osg.vec 20 20 64) (- F32.max_float)%f32 (- F32.max_float)%f32 false
             origVelocity s0)
    = Some true.
Proof. vm_compute. by split_and!. Qed.

Lemma moveIteration_clamps_at_swim_level_witness :
  @moveIteration Scenario.openSpace [] (Scenario.capsule Scenario.guard) false
    (osg.vec 20 20 64) (F32.of_Z 0) (F32.of_Z 0) false
    (osg.vec 0 300 400) (mkLoopState (osg.vec 0 0 (-1)) (osg.vec 0 300 400) (F32.lit 1 60))
  = Some (Continue (mkLoopState (osg.vec 0 0 (-1)) (osg.vec 0 300 0) (F32.lit 1 60)))
  ∧ F32.is_zero (osg.z (swimClamp (osg.vec 0 300 400))) = true.
Proof.
  destruct (@moveIteration_clamps_at_swim_level Scenario.openSpace []
              (Scenario.capsule Scenario.guard) false (osg.vec 20 20 64) (F32.of_Z 0)
              (F32.of_Z 0) false (osg.vec 0 300 400)
              (mkLoopState (osg.vec 0 0 (-1)) (osg.vec 0 300 400) (F32.lit 1 60)))
    as [Hstep Hflat]; try (vm_compute; reflexivity).
  split.
  - rewrite Hstep. vm_compute. reflexivity.
  - apply Hflat; vm_compute; reflexivity.
Defined.

(** C4 as stated fails twice.  An actor exactly at the swim level whose
    next position is above it is not redirected: the iteration sweeps
    and moves it above the surface.  And the velocity that replaces
    (0,300,400) one unit below the surface is (0,300,0), of length 300
    and not 500. *)
Lemma moveIteration_no_clamp_at_swim_level :
  let swimlevel := F32.of_Z 0 in
  let s := mkLoopState (osg.vec 0 0 0) (osg.vec 0 0 100) (F32.lit 1 60) in
  let nextpos := (newPosition s + velocity s * remainingTime s)%vec in
  let below := mkLoopState (osg.vec 0 0 (-1)) (osg.vec 0 300 400) (F32.lit 1 60) in
  ((osg.z (newPosition s) <=? swimlevel)%f32 = true
   ∧ (osg.z nextpos >? swimlevel)%f32 = true
   ∧ @moveIteration Scenario.openSpace [] (Scenario.capsule Scenario.guard) false
       (osg.vec 20 20 64) swimlevel swimlevel false (velocity s) s
     = Some (Break (mkLoopState nextpos (velocity s) (remainingTime s))))
  ∧ (@moveIteration Scenario.openSpace [] (Scenario.capsule Scenario.guard) false
       (osg.vec 20 20 64) swimlevel swimlevel false (velocity below) below
     = Some (Continue (mkLoopState (osg.vec 0 0 (-1)) (osg.vec 0 300 0) (F32.lit 1 60)))
     ∧ osg.length (velocity below) = F32.of_Z 500
     ∧ osg.length (osg.vec 0 300 0) = F32.of_Z 300).
Proof. vm_compute. by split_and!. Qed.

(** ** Definedness

    With sweeps as trace.cpp reports them, no operation of the solver
    reads through a null pointer: [move] and the drain of the queue
    return a result for every input. *)

Section Definedness.

Context `{Collaborators}.

Lemma hitFilterGroup_defined (dw : btDynamicsWorld) (colobj : btCollisionObject)
    (from to : Vec3f) :
  tracerSound dw →
  (mFraction (doTrace dw colobj from to) <? F32.of_Z 1)%f32 = true →
  is_Some (hitFilterGroup (doTrace dw colobj from to)).
Proof.
  intros Hsound Hhit.
  destruct (Hsound colobj from to Hhit) as (hit & Hobj & [proxy Hproxy] & _).
  unfold hitFilterGroup. rewrite Hobj. simpl. rewrite Hproxy. simpl. by eexists.
Qed.

Lemma stepMove_total
    (dw : btDynamicsWorld) (colobj : btCollisionObject) (position toMove : Vec3f)
    (remainingTime : float) :
  tracerSound dw → is_Some (stepMove dw colobj position toMove remainingTime).
Proof.
  intros Hsound. unfold stepMove.
  destruct (F32.ltb (mFraction (stepUpTrace _ _ _)) _); [by eexists|].
  destruct (F32.ltb (mFraction (stepForwardTrace _ _ _ _)) _); [by eexists|].
  destruct (F32.ltb (mFraction (stepDownTrace _ _ _ _)) _) eqn:Hdown; [|by eexists].
  destruct (hitFilterGroup_defined dw colobj _ _ Hsound Hdown) as [group Hgroup].
  unfold stepDownTrace in *. rewrite Hgroup.
  destruct (F32.leb _ _); simpl; [|by eexists].
  destruct (group =? CollisionType_Actor); by eexists.
Qed.

Lemma tryStep_total (dw : btDynamicsWorld) (colobj : btCollisionObject) (s : LoopState) :
  tracerSound dw → is_Some (tryStep dw colobj s).
Proof.
  intros Hsound. unfold tryStep.
  destruct (stepMove_total dw colobj (newPosition s)
              (velocity s * remainingTime s)%vec (remainingTime s) Hsound)
    as [[[result p] rt] ->].
  simpl. destruct result; simpl; [by eexists|]. by apply stepMove_total.
Qed.

Lemma moveIteration_total
    (dw : btDynamicsWorld) (colobj : btCollisionObject) (pureWaterCreature : bool)
    (halfExtents : Vec3f) (waterlevel swimlevel : float) (isFlying : bool)
    (origVelocity : Vec3f) (s : LoopState) :
  tracerSound dw →
  is_Some (moveIteration dw colobj pureWaterCreature halfExtents waterlevel swimlevel
             isFlying origVelocity s).
Proof.
  intros Hsound. unfold moveIteration.
  destruct (_ && _ && _ && _); [by eexists|].
  destruct (F64.ltb _ _); [|by eexists].
  destruct (F32.geb _ _); [by eexists|].
  destruct (tryStep_total dw colobj s Hsound) as [[[result p] rt] ->].
  simpl. destruct result; by eexists.
Qed.

Lemma moveLoop_total
    (n : nat) (dw : btDynamicsWorld) (colobj : btCollisionObject) (pureWaterCreature : bool)
    (halfExtents : Vec3f) (waterlevel swimlevel : float) (isFlying : bool)
    (origVelocity : Vec3f) (s : LoopState) :
  tracerSound dw →
  is_Some (moveLoop n dw colobj pureWaterCreature halfExtents waterlevel swimlevel
             isFlying origVelocity s).
Proof.
  intros Hsound. revert s. induction n as [|n IH]; intros s; simpl; [by eexists|].
  destruct (F32.gtb _ _); [|by eexists].
  destruct (moveIteration_total dw colobj pureWaterCreature halfExtents waterlevel
              swimlevel isFlying origVelocity s Hsound) as [[s'|s'] ->]; simpl.
  - by eexists.
  - apply IH.
Qed.

Lemma groundProbe_total
    (dw : btDynamicsWorld) (colobj : btCollisionObject) (physicActor : Actor)
    (position : Vec3f) (swimlevel : float) (isFlying : bool) (inertia : Vec3f)
    (s : LoopState) :
  tracerSound dw →
  is_Some (groundProbe dw colobj physicActor position swimlevel isFlying inertia s).
Proof.
  intros Hsound. unfold groundProbe.
  destruct (_ && _); [|by eexists].
  destruct (F32.ltb (mFraction (groundTrace dw colobj physicActor s)) _) eqn:Hhit;
    [|simpl; by eexists].
  unfold groundTrace in *.
  destruct (Hsound _ _ _ Hhit) as (hit & Hobj & [proxy Hproxy] & [shape Hshape]).
  unfold hitFilterGroup, pushOff. rewrite Hobj. simpl. rewrite Hproxy. simpl.
  destruct (F32.leb _ _); simpl.
  - destruct (m_collisionFilterGroup proxy =? CollisionType_Actor); simpl; [|by eexists].

    destruct (F32.ltb (osg.length2 _) _); simpl; [|by eexists].
    rewrite Hshape. simpl. destruct (getAabb _ _). destruct (osg.normalize _). by eexists.
  - destruct (m_collisionFilterGroup proxy =? CollisionType_Actor); simpl; [|by eexists].
    destruct (F32.ltb (osg.length2 _) _); simpl; [|by eexists].
    rewrite Hshape. simpl. destruct (getAabb _ _). destruct (osg.normalize _). by eexists.
Qed.

Lemma move_total
    (w : World) (dw : btDynamicsWorld) (ptr : Ptr) (physicActor : Actor)
    (movement : Vec3f) (time : float) (isFlying : bool) (waterlevel slowFall : float) :
  tracerSound dw →
  is_Some (move w dw ptr physicActor movement time isFlying waterlevel slowFall).
Proof.
  intros Hsound. unfold move.
  destruct (negb (isMobile _)); [by eexists|].
  destruct (negb (getCollisionMode _)); [by eexists|].
  destruct (initialVelocity _ _ _ _ _ _) as [velocity0 inertia0].
  match goal with
  | |- context [moveLoop ?n ?dw ?c ?pw ?he ?wl ?sl ?fl ?ov ?s] =>
      destruct (moveLoop_total n dw c pw he wl sl fl ov s Hsound) as [s' ->]
  end.
  simpl.
  match goal with
  | |- context [groundProbe ?dw ?c ?a ?p ?sl ?fl ?i ?s] =>
      destruct (groundProbe_total dw c a p sl fl i s Hsound) as [[[g p'] i'] ->]
  end.
  simpl. by eexists.
Qed.

Lemma applyQueue_total
    (dw : btDynamicsWorld) (mTimeAccum : float) (queue : PtrVelocityList)
    (st : World * gmap Ptr Actor * PtrVelocityList) :
  tracerSound dw → is_Some (applyQueue dw mTimeAccum queue st).
Proof.
  intros Hsound. revert st.
  induction queue as [|[first second] rest IH]; intros [[w actors] results]; simpl;
    [by eexists|].
  destruct (actors !! first) as [physicActor|]; simpl; [|apply IH].
  match goal with
  | |- context [move ?w ?dw ?p ?a ?m ?t ?f ?wl ?sf] =>
      destruct (move_total w dw p a m t f wl sf Hsound) as [[[newpos a'] w'] ->]
  end.
  simpl. apply IH.
Qed.

Lemma applyQueuedMovement_total (w : World) (ps : PhysicsSystem) (dt : float) :
  tracerSound (mDynamicsWorld ps) → is_Some (applyQueuedMovement w ps dt).
Proof.
  intros Hsound. unfold applyQueuedMovement.
  destruct (F32.geb _ _); simpl; [|by eexists].
  match goal with
  | |- context [applyQueue ?dw ?t ?q ?st] =>
      destruct (applyQueue_total dw t q st Hsound) as [[[w' actors] results] ->]
  end.
  simpl. by eexists.
Qed.

End Definedness.

Lemma wall_tracerSound (dw : btDynamicsWorld) : @tracerSound Scenario.wall dw.
Proof.
  intros colobj from to. simpl. unfold Scenario.wallTrace.
  destruct (F32.gtb _ _); simpl; intros Hhit.
  - eexists. split_and!; [done|by eexists|by eexists].
  - vm_compute in Hhit. discriminate Hhit.
Qed.

(** ** Gravity *)

Section Gravity.

Context `{Collaborators}.




End Gravity.



(** ** Terrain tiles *)

(** What the scan of the heights returns when it visits [k] entries: a
    bound reached from the starting value only by going to a smaller
    (larger) entry. *)
Lemma scanHeights_range (rest : list float) (k : nat) (i : Z)
    (sqrtVerts minh maxh : float) :
  (k ≤ length rest)%nat →
  (∀ j : Z, i ≤ j < i + Z.of_nat k → (F32.of_Z j <? sqrtVerts * sqrtVerts)%f32 = true) →
  (F32.of_Z (i + Z.of_nat k) <? sqrtVerts * sqrtVerts)%f32 = false →
  ∃ (minh' maxh' : float),
    scanHeights rest i sqrtVerts minh maxh = Some (minh', maxh')
    ∧ minh' ∈ minh :: take k rest
    ∧ maxh' ∈ maxh :: take k rest
    ∧ (minh' = minh ∨ (minh' <? minh)%f32 = true)
    ∧ (maxh' = maxh ∨ (maxh' >? maxh)%f32 = true)
    ∧ ∀ h : float, h ∈ take k rest → (h <? minh')%f32 = false ∧ (h >? maxh')%f32 = false.
Proof.
  revert k i minh maxh.
  induction rest as [|h rest IH]; intros k i minh maxh Hk Hin Hout.
  - assert (k = 0%nat) as -> by (simpl in Hk; lia).
    simpl in *. rewrite Z.add_0_r in Hout. rewrite Hout.
    exists minh, maxh. split_and!; try done; try (by left); try apply list_elem_of_here.
    intros h Hh. by apply elem_of_nil in Hh.
  - destruct k as [|k]; simpl in *.
    + rewrite Z.add_0_r in Hout. rewrite Hout.
      exists minh, maxh. split_and!; try done; try (by left); try apply list_elem_of_here.
      intros h' Hh'. by apply elem_of_nil in Hh'.
    + rewrite (Hin i) by lia.
      destruct (IH k (i + 1) (if (h <? minh)%f32 then h else minh)
                  (if (h >? maxh)%f32 then h else maxh))
        as (minh' & maxh' & -> & Hminin & Hmaxin & Hmin & Hmax & Hrest).
      { lia. }
      { intros j Hj. apply Hin. lia. }
      { replace (i + 1 + Z.of_nat k) with (i + Z.of_nat (S k)) by lia. exact Hout. }
      exists minh', maxh'. unfold F32.ltb, F32.gtb in *. split_and!; [done| | | | |].
      * apply elem_of_cons in Hminin as [->|Hminin].
        -- destruct (SFltb h minh); [apply list_elem_of_further|]; apply list_elem_of_here.
        -- by do 2 apply list_elem_of_further.
      * apply elem_of_cons in Hmaxin as [->|Hmaxin].
        -- destruct (SFltb maxh h); [apply list_elem_of_further|]; apply list_elem_of_here.
        -- by do 2 apply list_elem_of_further.
      * destruct (SFltb h minh) eqn:Hlt; [|done].
        right. destruct Hmin as [->|Hmin]; [done|]. by apply (SFltb_trans _ h).
      * destruct (SFltb maxh h) eqn:Hlt; [|done].
        right. destruct Hmax as [->|Hmax]; [done|]. by apply (SFltb_trans _ h).
      * intros h' Hh'. apply elem_of_cons in Hh' as [->|Hh']; [|by apply Hrest].
        split.
        -- destruct (SFltb h minh) eqn:Hlt.
           ++ destruct Hmin as [->|Hmin]; [apply SFltb_irrefl|by apply SFltb_asym].
           ++ destruct Hmin as [->|Hmin]; [done|].
              destruct (SFltb h minh') eqn:Hlt'; [|done].
              by rewrite <- Hlt, (SFltb_trans h minh' minh).
        -- destruct (SFltb maxh h) eqn:Hlt.
           ++ destruct Hmax as [->|Hmax]; [apply SFltb_irrefl|by apply SFltb_asym].
           ++ destruct Hmax as [->|Hmax]; [done|].
              destruct (SFltb maxh' h) eqn:Hlt'; [|done].
              by rewrite <- Hlt, (SFltb_trans maxh maxh' h).
Qed.

(** A scan that returns has visited some number [k] of entries. *)
Lemma scanHeights_visits (rest : list float) (i : Z) (sqrtVerts minh maxh : float)
    (result : float * float) :
  scanHeights rest i sqrtVerts minh maxh = Some result →
  ∃ k : nat,
    (k ≤ length rest)%nat
    ∧ (∀ j : Z, i ≤ j < i + Z.of_nat k → (F32.of_Z j <? sqrtVerts * sqrtVerts)%f32 = true)
    ∧ (F32.of_Z (i + Z.of_nat k) <? sqrtVerts * sqrtVerts)%f32 = false.
Proof.
  revert i minh maxh.
  induction rest as [|h rest IH]; intros i minh maxh Hscan; simpl in Hscan.
  - destruct (F32.of_Z i <? sqrtVerts * sqrtVerts)%f32 eqn:Hi; [done|].
    exists 0%nat. split_and!; [done| |by rewrite Z.add_0_r].
    intros j Hj. lia.
  - destruct (F32.of_Z i <? sqrtVerts * sqrtVerts)%f32 eqn:Hi.
    + destruct (IH _ _ _ Hscan) as (k & Hk & Hin & Hout).
      exists (S k). split_and!; [simpl; lia| |].
      * intros j Hj. destruct (decide (j = i)) as [->|Hne]; [done|]. apply Hin. lia.
      * replace (i + Z.of_nat (S k)) with (i + 1 + Z.of_nat k) by lia. exact Hout.
    + exists 0%nat. split_and!; [simpl; lia| |by rewrite Z.add_0_r].
      intros j Hj. lia.
Qed.

(** C9.  For a height array whose first n entries are those that the
    constructor visits, the entries of the sqrtVerts * sqrtVerts grid,
    [HeightField] is constructed, and the world transform of its
    collision object has the identity rotation and the origin
    ((x + 0.5) triSize (sqrtVerts - 1), (y + 0.5) triSize (sqrtVerts - 1),
     (min + max) 0.5),
    where min and max are two of these entries with none of them below
    min and none above max. *)
Theorem HeightField_world_transform
    (heights : list float) (x y : Z) (triSize sqrtVerts : float) (n : nat) :
  (1 ≤ n ≤ length heights)%nat →
  (∀ i : Z, 1 ≤ i < Z.of_nat n → (F32.of_Z i <? sqrtVerts * sqrtVerts)%f32 = true) →
  (F32.of_Z (Z.of_nat n) <? sqrtVerts * sqrtVerts)%f32 = false →
  ∃ (hf : HeightField) (minh maxh : float),
    HeightField_new heights x y triSize sqrtVerts = Some hf
    ∧ getWorldTransform (heightFieldCollisionObject hf)
      = mkTransform btQuaternion_getIdentity
          (osg.mkVec3f
             ((F32.of_Z x + F32.lit 1 2) * triSize * (sqrtVerts - F32.of_Z 1))%f32
             ((F32.of_Z y + F32.lit 1 2) * triSize * (sqrtVerts - F32.of_Z 1))%f32
             ((minh + maxh) * F32.lit 1 2)%f32)
    ∧ minh ∈ take n heights
    ∧ maxh ∈ take n heights
    ∧ ∀ h : float, h ∈ take n heights → (h <? minh)%f32 = false ∧ (h >? maxh)%f32 = false.
Proof.
  intros Hn Hin Hout.
  destruct heights as [|h0 rest]; [simpl in Hn; lia|].
  destruct n as [|k]; [lia|]. simpl in Hn.
  destruct (scanHeights_range rest k 1 sqrtVerts h0 h0)
    as (minh & maxh & Hscan & Hminin & Hmaxin & Hmin & Hmax & Hrest).
  { lia. }
  { intros j Hj. apply Hin. lia. }
  { replace (1 + Z.of_nat k) with (Z.of_nat (S k)) by lia. exact Hout. }
  unfold HeightField_new, heightRange. rewrite Hscan. simpl.
  eexists _, minh, maxh. split; [reflexivity|]. simpl.
  split; [by rewrite (F32_add_comm maxh minh)|].
  split_and!; [done|done|].
  intros h Hh. apply elem_of_cons in Hh as [->|Hh]; [|by apply Hrest].
  unfold F32.ltb, F32.gtb in *. split.
  - destruct Hmin as [->|Hmin]; [apply SFltb_irrefl|by apply SFltb_asym].
  - destruct Hmax as [->|Hmax]; [apply SFltb_irrefl|by apply SFltb_asym].
Qed.

(** Every [HeightField] that is constructed is constructed so: the
    number n of entries visited exists. *)
Lemma HeightField_new_visits
    (heights : list float) (x y : Z) (triSize sqrtVerts : float) (hf : HeightField) :
  HeightField_new heights x y triSize sqrtVerts = Some hf →
  ∃ n : nat,
    (1 ≤ n ≤ length heights)%nat
    ∧ (∀ i : Z, 1 ≤ i < Z.of_nat n → (F32.of_Z i <? sqrtVerts * sqrtVerts)%f32 = true)
    ∧ (F32.of_Z (Z.of_nat n) <? sqrtVerts * sqrtVerts)%f32 = false.
Proof.
  unfold HeightField_new, heightRange. intros Hnew.
  apply bind_Some in Hnew as ([minh maxh] & Hrange & _).
  destruct heights as [|h0 rest]; [done|].
  destruct (scanHeights_visits _ _ _ _ _ _ Hrange) as (k & Hk & Hin & Hout).
  exists (S k). split_and!; [lia|simpl; lia| |].
  - intros i Hi. apply Hin. lia.
  - replace (Z.of_nat (S k)) with (1 + Z.of_nat k) by lia. exact Hout.
Qed.

Lemma HeightField_world_transform_witness :
  ∃ hf : HeightField,
    HeightField_new (F32.of_Z <$> [3; 1; 4; 1; 5; 9; 2; 6; 5]) 0 (-1)
      (F32.of_Z 128) (F32.of_Z 3) = Some hf
    ∧ getWorldTransform (heightFieldCollisionObject hf)
      = mkTransform btQuaternion_getIdentity (osg.vec 128 (-128) 5).
Proof.
  destruct (HeightField_world_transform (F32.of_Z <$> [3; 1; 4; 1; 5; 9; 2; 6; 5]) 0 (-1)
              (F32.of_Z 128) (F32.of_Z 3) 9)
    as (hf & minh & maxh & Hnew & Htransform & _).
  - simpl. lia.
  - intros i Hi.
    assert (i = 1 ∨ i = 2 ∨ i = 3 ∨ i = 4 ∨ i = 5 ∨ i = 6 ∨ i = 7 ∨ i = 8) as Hcases by lia.
    repeat destruct Hcases as [->|Hcases]; try subst i; vm_compute; reflexivity.
  - vm_compute. reflexivity.
  - exists hf. split; [exact Hnew|].
    vm_compute in Hnew. inversion Hnew; subst. vm_compute. reflexivity.
Defined.

(** * Further properties *)

(** ** Requests on the movement queue *)

Lemma replaceQueued_again (ptr : Ptr) (v1 v2 : Vec3f) (queue queue1 : PtrVelocityList) :
  replaceQueued ptr v1 queue = Some queue1 →
  replaceQueued ptr v2 queue1 = replaceQueued ptr v2 queue.
Proof.
  revert queue1. induction queue as [|[first second] rest IH]; simpl; intros queue1 Hq; [done|].
  destruct (decide (first = ptr)) as [->|Hne].
  - inversion Hq; subst. simpl. by rewrite decide_True.
  - destruct (replaceQueued ptr v1 rest) as [rest1|] eqn:Hrest; [|done].
    inversion Hq; subst. simpl. rewrite decide_False by done. by rewrite (IH rest1).
Qed.

Lemma replaceQueued_app_new (ptr : Ptr) (v1 v2 : Vec3f) (queue : PtrVelocityList) :
  replaceQueued ptr v1 queue = None →
  replaceQueued ptr v2 (queue ++ [(ptr, v1)]) = Some (queue ++ [(ptr, v2)]).
Proof.
  induction queue as [|[first second] rest IH]; simpl; intros Hq.
  - by rewrite decide_True.
  - destruct (decide (first = ptr)) as [->|Hne]; [done|].
    destruct (replaceQueued ptr v1 rest) as [rest1|] eqn:Hrest; [done|].
    by rewrite IH.
Qed.

Lemma replaceQueued_None_inv (ptr : Ptr) (movement : Vec3f) (queue : PtrVelocityList) :
  replaceQueued ptr movement queue = None → ptr ∉ queue.*1.
Proof.
  intros Hnone Hin.
  destruct (replaceQueued_Some ptr movement queue Hin) as (i & old & _ & _ & Hsome).
  congruence.
Qed.

(** X1.  Queueing a movement for an actor twice in a row leaves the
    queue as queueing the second movement alone does: the later
    request overwrites the earlier one. *)
Theorem queueObjectMovement_last_wins (ps : PhysicsSystem) (ptr : Ptr) (v1 v2 : Vec3f) :
  queueObjectMovement (queueObjectMovement ps ptr v1) ptr v2 = queueObjectMovement ps ptr v2.
Proof.
  unfold queueObjectMovement.
  destruct (replaceQueued ptr v1 (mMovementQueue ps)) as [queue1|] eqn:Hfirst; simpl.
  - rewrite (replaceQueued_again _ _ _ _ _ Hfirst).
    destruct (replaceQueued ptr v2 (mMovementQueue ps)) eqn:Hsecond; [done|].
    apply replaceQueued_None_inv in Hsecond.
    by rewrite (replaceQueued_None ptr v1 _ Hsecond) in Hfirst.
  - rewrite (replaceQueued_app_new _ _ _ _ Hfirst).
    rewrite (replaceQueued_None ptr v2 _ (replaceQueued_None_inv _ _ _ Hfirst)).
    done.
Qed.

Lemma replaceQueued_elem_of (ptr : Ptr) (movement : Vec3f) (queue queue' : PtrVelocityList) :
  NoDup queue.*1 →
  replaceQueued ptr movement queue = Some queue' →
  ∀ (p : Ptr) (v : Vec3f),
    (p, v) ∈ queue' ↔ (p = ptr ∧ v = movement) ∨ (p ≠ ptr ∧ (p, v) ∈ queue).
Proof.
  revert queue'. induction queue as [|[first second] rest IH]; simpl; intros queue' Hnodup Hq;
    [done|].
  apply NoDup_cons in Hnodup as [Hfirst Hnodup].
  destruct (decide (first = ptr)) as [->|Hne].
  - inversion Hq; subst. intros p v. rewrite !elem_of_cons.
    split.
    + intros [Heq|Hin]; [inversion Heq; by left|].
      right. split; [|by right]. intros ->. apply Hfirst.
      apply list_elem_of_fmap. by exists (ptr, v).
    + intros [[-> ->]|[Hp [Heq|Hin]]]; [by left| |by right].
      inversion Heq; by subst.
  - destruct (replaceQueued ptr movement rest) as [rest1|] eqn:Hrest; [|done].
    inversion Hq; subst. intros p v. rewrite !elem_of_cons, (IH rest1 Hnodup eq_refl).
    split.
    + intros [Heq|[?|[? ?]]]; [inversion Heq; subst; right; split; [done|by left]|by left|].
      right. split; [done|by right].
    + intros [?|[? [?|?]]]; [right; by left|by left|right; by right].
Qed.

Lemma queueObjectMovement_elem_of (ps : PhysicsSystem) (ptr : Ptr) (movement : Vec3f) :
  NoDup (mMovementQueue ps).*1 →
  NoDup (mMovementQueue (queueObjectMovement ps ptr movement)).*1
  ∧ ∀ (p : Ptr) (v : Vec3f),
      (p, v) ∈ mMovementQueue (queueObjectMovement ps ptr movement)
      ↔ (p = ptr ∧ v = movement) ∨ (p ≠ ptr ∧ (p, v) ∈ mMovementQueue ps).
Proof.
  intros Hnodup. unfold queueObjectMovement.
  destruct (replaceQueued ptr movement (mMovementQueue ps)) as [queue'|] eqn:Hq; simpl.
  - split; [|by apply replaceQueued_elem_of].
    destruct (decide (ptr ∈ (mMovementQueue ps).*1)) as [Hin|Hnot].
    + destruct (replaceQueued_Some ptr movement _ Hin) as (i & old & Hi & _ & Heq).
      rewrite Heq in Hq. inversion Hq; subst.
      by rewrite (fmap_fst_insert_same _ _ _ old).
    + rewrite (replaceQueued_None _ _ _ Hnot) in Hq. done.
  - pose proof (replaceQueued_None_inv _ _ _ Hq) as Hnot. split.
    + rewrite fmap_app. simpl. apply NoDup_app. split_and!; [done| |apply NoDup_singleton].
      intros p Hp Hp'. apply list_elem_of_singleton in Hp'. by subst.
    + intros p v. rewrite elem_of_app, list_elem_of_singleton. split.
      * intros [Hin|Heq]; [|inversion Heq; by left].
        right. split; [|done]. intros ->. apply Hnot.
        apply list_elem_of_fmap. by exists (ptr, v).
      * intros [[-> ->]|[_ Hin]]; [by right|by left].
Qed.

(** X2.  After any sequence of requests on a queue that names no actor
    twice, the queue still names no actor twice, and it holds for an
    actor exactly the vector of the last request made for it, or what
    it held before when no request was made for it. *)
Theorem queueObjectMovement_requests (ps : PhysicsSystem) (requests : PtrVelocityList) :
  NoDup (mMovementQueue ps).*1 →
  let ps' := foldl (λ ps e, queueObjectMovement ps e.1 e.2) ps requests in
  NoDup (mMovementQueue ps').*1
  ∧ ∀ (ptr : Ptr) (v : Vec3f),
      (ptr, v) ∈ mMovementQueue ps'
      ↔ match last (filter (λ e, e.1 = ptr) requests) with
        | Some e => v = e.2
        | None => (ptr, v) ∈ mMovementQueue ps
        end.
Proof.
  intros Hnodup. induction requests as [|[p m] requests IH] using rev_ind; simpl.
  - done.
  - rewrite foldl_app. simpl. destruct IH as [IHnodup IHin].
    destruct (queueObjectMovement_elem_of _ p m IHnodup) as [Hnodup' Hin'].
    split; [done|]. intros ptr v. rewrite Hin', filter_app.
    destruct (decide (ptr = p)) as [->|Hne].
    + rewrite filter_cons_True by done. rewrite filter_nil, last_snoc. simpl.
      split; [intros [[_ ->]|[? _]]; done|intros ->; by left].
    + rewrite filter_cons_False by (simpl; congruence). rewrite filter_nil, app_nil_r.
      rewrite <- IHin. split; [intros [[? _]|[_ ?]]; done|intros ?; by right].
Qed.

Lemma queueObjectMovement_requests_witness :
  let ps' :=
    foldl (λ ps e, queueObjectMovement ps e.1 e.2) Scenario.guardQueued
      [(Scenario.player, osg.vec 1 0 0); (Scenario.guard, osg.vec 0 0 0);
       (Scenario.player, osg.vec 2 0 0)] in
  NoDup (mMovementQueue ps').*1
  ∧ ((Scenario.player, osg.vec 2 0 0) ∈ mMovementQueue ps'
     ↔ osg.vec 2 0 0 = osg.vec 2 0 0).
Proof.
  destruct (queueObjectMovement_requests Scenario.guardQueued
              [(Scenario.player, osg.vec 1 0 0); (Scenario.guard, osg.vec 0 0 0);
               (Scenario.player, osg.vec 2 0 0)]) as [Hnodup Hin].
  - simpl. apply NoDup_singleton.
  - split; [exact Hnodup|]. apply (Hin Scenario.player (osg.vec 2 0 0)).
Defined.

(** ** What a tick changes *)

Section Frame.

Context `{Collaborators}.

(** What a call of [move] may have changed. *)
Lemma move_changes
    (w : World) (dw : btDynamicsWorld) (ptr : Ptr) (physicActor : Actor)
    (movement : Vec3f) (time : float) (isFlying : bool) (waterlevel slowFall : float)
    (newpos : Vec3f) (physicActor' : Actor) (w' : World) :
  move w dw ptr physicActor movement time isFlying waterlevel slowFall
  = Some (newpos, physicActor', w') →
  (∃ (onGround walking : bool) (inertia : Vec3f),
     physicActor'
     = mkActor (actorPtr physicActor) (getActorCollisionObject physicActor)
         (getHalfExtents physicActor) onGround inertia (getCollisionMode physicActor)
         (getCanWaterWalk physicActor) walking
     ∧ (isMobile (refData w ptr) = true → walking = false)
     ∧ (isMobile (refData w ptr) && getCollisionMode physicActor = false →
        onGround = getOnGround physicActor ∧ inertia = getInertialForce physicActor))
  ∧ (w' = w
     ∨ (isMobile (refData w ptr) && getCollisionMode physicActor = true
        ∧ w' = updateRef w ptr (fun r => setMovementPosition2 r (F32.of_Z 0)))).
Proof.
  unfold move. intros Hmove.
  destruct (isMobile (refData w ptr)); simpl in Hmove.
  2: { inversion Hmove; subst. split; [|by left].
       exists (getOnGround physicActor'), (getWalkingOnWater physicActor'),
         (getInertialForce physicActor').
       by destruct physicActor'. }
  destruct (getCollisionMode physicActor) eqn:Hmode; simpl in Hmove.
  2: { inversion Hmove; subst. split; [|by left].
       exists (getOnGround physicActor), false, (getInertialForce physicActor).
       unfold setWalkingOnWater. rewrite Hmode. done. }
  destruct (initialVelocity _ _ _ _ _ _) as [velocity0 inertia0].
  apply bind_Some in Hmove as (s & _ & Hmove).
  apply bind_Some in Hmove as ([[isOnGround newPosition] inertia] & _ & Hmove).
  inversion Hmove; subst. split; [|by right].
  eexists _, false, _. unfold setOnGround, setInertialForce, setWalkingOnWater. simpl.
  rewrite Hmode. split_and!; [reflexivity|done|done].
Qed.

Lemma updateRef_other (w : World) (ptr p : Ptr) (f : RefData → RefData) :
  p ≠ ptr → refData (updateRef w ptr f) p = refData w p.
Proof. intros Hne. simpl. by rewrite decide_False. Qed.

Lemma applyQueuedEntry_frame
    (dw : btDynamicsWorld) (t : float) (first : Ptr) (second : Vec3f)
    (w w' : World) (actors actors' : gmap Ptr Actor) (results results' : PtrVelocityList) :
  applyQueuedEntry dw t (first, second) (w, actors, results) = Some (w', actors', results') →
  dom actors' = dom actors
  ∧ results'.*1 = results.*1 ++ (if decide (is_Some (actors !! first)) then [first] else [])
  ∧ (∀ p : Ptr, p ≠ first → actors' !! p = actors !! p ∧ refData w' p = refData w p).
Proof.
  unfold applyQueuedEntry. intros Hentry.
  destruct (actors !! first) as [physicActor|] eqn:Hactor.
  2: { inversion Hentry; subst. rewrite decide_False by (by intros [? ?]).
       by rewrite app_nil_r. }
  rewrite decide_True by (by eexists).
  destruct (move _ _ _ _ _ _ _ _ _) as [[[newpos physicActor'] w1]|] eqn:Hmove; [|done].
  apply move_changes in Hmove as [_ Hworld].
  assert (∀ p, p ≠ first → refData w1 p = refData w p) as Hw1.
  { intros p Hne. destruct Hworld as [->|[_ ->]]; [done|by apply updateRef_other]. }
  assert (∀ p, p ≠ first → refData w' p = refData w p ) as Hw'.
  { intros p Hne. rewrite <- (Hw1 p Hne).
    destruct (F32.ltb _ _); inversion Hentry; subst; [by apply updateRef_other|done]. }
  assert (actors' = <[first := physicActor']> actors ∧ results' = results ++ [(first, newpos)])
    as [-> ->] by (destruct (F32.ltb _ _); by inversion Hentry).
  split_and!.
  - apply dom_insert_lookup_L. by eexists.
  - by rewrite fmap_app.
  - intros p Hne. split; [by rewrite lookup_insert_ne|by apply Hw'].
Qed.

Lemma applyQueue_frame
    (dw : btDynamicsWorld) (t : float) (queue : PtrVelocityList)
    (w w' : World) (actors actors' : gmap Ptr Actor) (results results' : PtrVelocityList) :
  applyQueue dw t queue (w, actors, results) = Some (w', actors', results') →
  dom actors' = dom actors
  ∧ results'.*1 = results.*1 ++ filter (λ p, is_Some (actors !! p)) queue.*1
  ∧ (∀ p : Ptr, p ∉ queue.*1 → actors' !! p = actors !! p ∧ refData w' p = refData w p).
Proof.
  revert w actors results.
  induction queue as [|[first second] rest IH]; intros w actors results Hqueue.
  - inversion Hqueue; subst. rewrite fmap_nil, filter_nil, app_nil_r. done.
  - cbn [applyQueue] in Hqueue.
    apply bind_Some in Hqueue as ([[w1 actors1] results1] & Hentry & Hrest).
    apply applyQueuedEntry_frame in Hentry as (Hdom1 & Hres1 & Hother1).
    apply IH in Hrest as (Hdom & Hres & Hother).
    split_and!.
    + by rewrite Hdom.
    + rewrite Hres, Hres1, <- app_assoc. f_equal. rewrite fmap_cons. simpl.
      rewrite filter_cons. simpl.
      assert (∀ p, is_Some (actors1 !! p) ↔ is_Some (actors !! p)) as Hsame.
      { intros p. by rewrite <- !elem_of_dom, Hdom1. }
      rewrite (list_filter_iff _ _ _ Hsame).
      by destruct (decide (is_Some (actors !! first))).
    + intros p Hnot. rewrite fmap_cons in Hnot. apply not_elem_of_cons in Hnot as [Hne Hnot].
      destruct (Hother p Hnot) as [-> ->]. by apply Hother1.
Qed.

(** X3.  A call of [applyQueuedMovement] that brings the accumulated
    time to 1/60 s or more returns one result for each queued movement
    whose actor is registered, in the order of the queue, and none for
    a queued actor that is not registered; it registers and removes no
    actor, resets the accumulated time to zero, empties the queue and
    the collision maps, and leaves colliders, objects and height fields
    alone. *)
Theorem applyQueuedMovement_above_threshold (w : World) (ps : PhysicsSystem) (dt : float) :
  tracerSound (mDynamicsWorld ps) →
  (mTimeAccum ps + dt >=? F32.lit 1 60)%f32 = true →
  ∃ (results : PtrVelocityList) (ps' : PhysicsSystem) (w' : World),
    applyQueuedMovement w ps dt = Some (results, ps', w')
    ∧ results.*1 = filter (λ p, is_Some (mActors ps !! p)) (mMovementQueue ps).*1
    ∧ mMovementResults ps' = results
    ∧ dom (mActors ps') = dom (mActors ps)
    ∧ mTimeAccum ps' = F32.of_Z 0
    ∧ mMovementQueue ps' = []
    ∧ mCollisions ps' = ∅
    ∧ mStandingCollisions ps' = ∅
    ∧ mDynamicsWorld ps' = mDynamicsWorld ps
    ∧ mObjects ps' = mObjects ps
    ∧ mHeightFields ps' = mHeightFields ps.
Proof.
  intros Hsound Habove. unfold applyQueuedMovement.
  cbn [mTimeAccum set_mTimeAccum set_mMovementResults].
  rewrite Habove. cbn -[applyQueue F32.of_Z].
  match goal with
  | |- context [applyQueue ?dw ?t ?q ?st] =>
      destruct (applyQueue_total dw t q st Hsound) as [[[w' actors] results] Hqueue]
  end.
  rewrite Hqueue. cbn -[F32.of_Z].
  apply applyQueue_frame in Hqueue as (Hdom & Hres & _).
  eexists _, _, _. split; [reflexivity|]. cbn -[F32.of_Z]. by split_and!.
Qed.

(** X4.  Whatever the accumulated time, a call of [applyQueuedMovement]
    leaves an actor that has no movement queued as it was, leaves the
    reference data of its entity as it was, and returns no result for
    it. *)
Theorem applyQueuedMovement_unqueued
    (w : World) (ps : PhysicsSystem) (dt : float) (p : Ptr) :
  tracerSound (mDynamicsWorld ps) →
  p ∉ (mMovementQueue ps).*1 →
  ∃ (results : PtrVelocityList) (ps' : PhysicsSystem) (w' : World),
    applyQueuedMovement w ps dt = Some (results, ps', w')
    ∧ mActors ps' !! p = mActors ps !! p
    ∧ refData w' p = refData w p
    ∧ p ∉ results.*1.
Proof.
  intros Hsound Hnot.
  destruct (applyQueuedMovement_total w ps dt Hsound) as [[[results ps'] w'] Hcall].
  exists results, ps', w'. split; [done|].
  unfold applyQueuedMovement in Hcall.
  cbn [mTimeAccum set_mTimeAccum set_mMovementResults] in Hcall.
  destruct (F32.geb _ _); cbn -[applyQueue F32.of_Z] in Hcall.
  - apply bind_Some in Hcall as ([ps1 w1] & Hloop & Hret).
    apply bind_Some in Hloop as ([[w2 actors] results2] & Hqueue & Hret2).
    apply applyQueue_frame in Hqueue as (_ & Hres & Hother).
    inversion Hret2; subst. inversion Hret; subst. cbn -[F32.of_Z].
    destruct (Hother p Hnot) as [-> ->]. split_and!; [done|done|].
    rewrite Hres. simpl. intros Hin. apply list_elem_of_filter in Hin as [_ Hin]. done.
  - inversion Hcall; subst. simpl. split_and!; [done|done|apply not_elem_of_nil].
Qed.

End Frame.

Lemma applyQueuedMovement_above_threshold_witness :
  ∃ (results : PtrVelocityList) (ps' : PhysicsSystem) (w' : World),
    @applyQueuedMovement Scenario.wall Scenario.calm Stage.twoQueued (F32.lit 1 60)
    = Some (results, ps', w')
    ∧ results.*1 = [Scenario.guard]
    ∧ mMovementQueue ps' = [].
Proof.
  destruct (@applyQueuedMovement_above_threshold Scenario.wall Scenario.calm Stage.twoQueued
              (F32.lit 1 60))
    as (results & ps' & w' & Hcall & Hresults & _ & _ & _ & Hqueue & _).
  - apply wall_tracerSound.
  - vm_compute. reflexivity.
  - exists results, ps', w'. split_and!; [exact Hcall|exact Hresults|exact Hqueue].
Defined.

Lemma applyQueuedMovement_unqueued_witness :
  ∃ (results : PtrVelocityList) (ps' : PhysicsSystem) (w' : World),
    @applyQueuedMovement Scenario.wall Scenario.calm Stage.twoQueued (F32.lit 1 60)
    = Some (results, ps', w')
    ∧ mActors ps' !! Stage.bystander = Some (Scenario.standing Stage.bystander)
    ∧ Stage.bystander ∉ results.*1.
Proof.
  destruct (@applyQueuedMovement_unqueued Scenario.wall Scenario.calm Stage.twoQueued
              (F32.lit 1 60) Stage.bystander)
    as (results & ps' & w' & Hcall & Hactor & _ & Hresults).
  - apply wall_tracerSound.
  - vm_compute. intros Hin. apply elem_of_cons in Hin as [Heq|Hin]; [discriminate Heq|].
    apply list_elem_of_singleton in Hin. discriminate Hin.
  - exists results, ps', w'. split_and!; [exact Hcall|exact Hactor|exact Hresults].
Defined.

Section Tick.

Context `{Collaborators}.

(** X5.  After [clearQueuedMovement], a call of [applyQueuedMovement]
    moves nothing, whatever the time step: it returns no result,
    leaves every actor and the game world as they were, and the
    collision maps stay empty. *)
Theorem clearQueuedMovement_then_apply (w : World) (ps : PhysicsSystem) (dt : float) :
  ∃ ps' : PhysicsSystem,
    applyQueuedMovement w (clearQueuedMovement ps) dt = Some ([], ps', w)
    ∧ mActors ps' = mActors ps
    ∧ mMovementQueue ps' = []
    ∧ mCollisions ps' = ∅
    ∧ mStandingCollisions ps' = ∅.
Proof.
  unfold applyQueuedMovement, clearQueuedMovement.
  cbn [mTimeAccum set_mTimeAccum set_mMovementResults set_mCollisions set_mMovementQueue].
  destruct (F32.geb _ _); cbn -[F32.of_Z]; eexists; (split; [reflexivity|]); by split_and!.
Qed.

(** X6.  A call of [move] changes of the actor at most the on-ground
    flag, the inertial force and the walking-on-water flag, which it
    clears for a mobile entity; with collision mode off the on-ground
    flag and the inertial force are kept as well.  Of the game world
    it changes at most the reference data of the entity moved, and of
    these at most the vertical movement request, which becomes zero. *)
Theorem move_frame
    (w : World) (dw : btDynamicsWorld) (ptr : Ptr) (physicActor : Actor)
    (movement : Vec3f) (time : float) (isFlying : bool) (waterlevel slowFall : float) :
  tracerSound dw →
  ∃ (newpos : Vec3f) (physicActor' : Actor) (w' : World),
    move w dw ptr physicActor movement time isFlying waterlevel slowFall
    = Some (newpos, physicActor', w')
    ∧ actorPtr physicActor' = actorPtr physicActor
    ∧ getActorCollisionObject physicActor' = getActorCollisionObject physicActor
    ∧ getHalfExtents physicActor' = getHalfExtents physicActor
    ∧ getCollisionMode physicActor' = getCollisionMode physicActor
    ∧ getCanWaterWalk physicActor' = getCanWaterWalk physicActor
    ∧ (isMobile (refData w ptr) = true → getWalkingOnWater physicActor' = false)
    ∧ (isMobile (refData w ptr) && getCollisionMode physicActor = false →
       getOnGround physicActor' = getOnGround physicActor
       ∧ getInertialForce physicActor' = getInertialForce physicActor)
    ∧ (∀ p : Ptr, p ≠ ptr → refData w' p = refData w p)
    ∧ (refData w' ptr = refData w ptr
       ∨ refData w' ptr = setMovementPosition2 (refData w ptr) (F32.of_Z 0))
    ∧ getPlayerPtr w' = getPlayerPtr w
    ∧ isInStorm w' = isInStorm w
    ∧ getStormDirection w' = getStormDirection w.
Proof.
  intros Hsound.
  destruct (move_total w dw ptr physicActor movement time isFlying waterlevel slowFall Hsound)
    as [[[newpos physicActor'] w'] Hmove].
  exists newpos, physicActor', w'. split; [done|].
  apply move_changes in Hmove as [(onGround & walking & inertia & -> & Hwalk & Hoff) Hworld].
  cbn [actorPtr getActorCollisionObject getHalfExtents getCollisionMode getCanWaterWalk
       getWalkingOnWater getOnGround getInertialForce].
  split_and!; try done.
  - intros p Hne. destruct Hworld as [->|[_ ->]]; [done|by apply updateRef_other].
  - destruct Hworld as [->|[_ ->]]; [by left|right]. simpl. by rewrite decide_True.
  - by destruct Hworld as [->|[_ ->]].
  - by destruct Hworld as [->|[_ ->]].
  - by destruct Hworld as [->|[_ ->]].
Qed.

Lemma groundProbe_horizontal
    (dw : btDynamicsWorld) (colobj : btCollisionObject) (physicActor : Actor)
    (position : Vec3f) (swimlevel : float) (isFlying : bool) (inertia : Vec3f)
    (s : LoopState) (isOnGround : bool) (newPosition' inertia' : Vec3f) :
  groundProbe dw colobj physicActor position swimlevel isFlying inertia s
  = Some (isOnGround, newPosition', inertia') →
  osg.x newPosition' = osg.x (newPosition s) ∧ osg.y newPosition' = osg.y (newPosition s).
Proof.
  unfold groundProbe. intros Hprobe.
  destruct (_ && _); [|by inversion Hprobe].
  apply bind_Some in Hprobe as (standing & _ & Hprobe).
  destruct standing.
  - inversion Hprobe; subst. by destruct isFlying.
  - apply bind_Some in Hprobe as (onActor & _ & Hprobe).
    apply bind_Some in Hprobe as (inertia1 & _ & Hprobe).
    by inversion Hprobe.
Qed.

(** X7.  With a time step that is not above 0.01 s the solver loop of
    [move] is not entered: a mobile actor with collision mode on keeps
    the x and y of its reference position, whatever movement was asked
    for; only the ground probe may change its height. *)
Theorem move_short_tick
    (w : World) (dw : btDynamicsWorld) (ptr : Ptr) (physicActor : Actor)
    (movement : Vec3f) (time : float) (isFlying : bool) (waterlevel slowFall : float) :
  tracerSound dw →
  isMobile (refData w ptr) = true →
  getCollisionMode physicActor = true →
  (time >? F32.lit 1 100)%f32 = false →
  ∃ (newpos : Vec3f) (physicActor' : Actor) (w' : World),
    move w dw ptr physicActor movement time isFlying waterlevel slowFall
    = Some (newpos, physicActor', w')
    ∧ osg.x newpos = osg.x (asVec3 (getPosition (refData w ptr)))
    ∧ osg.y newpos = osg.y (asVec3 (getPosition (refData w ptr))).
Proof.
  intros Hsound Hmobile Hmode Hshort.
  destruct (move_total w dw ptr physicActor movement time isFlying waterlevel slowFall Hsound)
    as [[[newpos physicActor'] w'] Hmove].
  exists newpos, physicActor', w'. split; [done|].
  unfold move in Hmove. rewrite Hmobile in Hmove. cbn [negb] in Hmove.
  cbn [getCollisionMode setWalkingOnWater] in Hmove. rewrite Hmode in Hmove.
  cbn [negb] in Hmove.
  destruct (initialVelocity _ _ _ _ _ _) as [velocity0 inertia0].
  cbn [moveLoop sMaxIterations remainingTime] in Hmove. rewrite Hshort in Hmove.
  cbv beta iota delta [mbind option_bind] in Hmove.
  match type of Hmove with
  | context [groundProbe ?dw ?c ?a ?p ?sl ?fl ?i ?s] =>
      destruct (groundProbe dw c a p sl fl i s) as [[[g p'] i']|] eqn:Hprobe; [|done]
  end.
  apply groundProbe_horizontal in Hprobe as [Hx Hy]. cbn [newPosition] in Hx, Hy.
  inversion Hmove; subst. cbn [osg.set_z osg.x osg.y] in *. by rewrite Hx, Hy.
Qed.

End Tick.

Lemma move_frame_witness :
  ∃ (newpos : Vec3f) (physicActor' : Actor) (w' : World),
    @move Scenario.wall Scenario.calm [] Scenario.guard (Scenario.standing Scenario.guard)
      (osg.vec 100 0 0) (F32.lit 1 60) false (- F32.max_float)%f32 (F32.of_Z 1)
    = Some (newpos, physicActor', w')
    ∧ getHalfExtents physicActor' = osg.vec 20 20 64
    ∧ refData w' Scenario.player = Scenario.creature.
Proof.
  destruct (@move_frame Scenario.wall Scenario.calm [] Scenario.guard
              (Scenario.standing Scenario.guard) (osg.vec 100 0 0) (F32.lit 1 60) false
              (- F32.max_float)%f32 (F32.of_Z 1))
    as (newpos & physicActor' & w' & Hmove & _ & _ & Hextents & _ & _ & _ & _ & Hothers & _).
  - apply wall_tracerSound.
  - exists newpos, physicActor', w'. split_and!; [exact Hmove|exact Hextents|].
    apply Hothers. discriminate.
Defined.

Lemma move_short_tick_witness :
  ∃ (newpos : Vec3f) (physicActor' : Actor) (w' : World),
    @move Scenario.wall Scenario.calm [] Scenario.guard (Scenario.standing Scenario.guard)
      (osg.vec 0 100 0) (F32.lit 1 100) false (- F32.max_float)%f32 (F32.of_Z 1)
    = Some (newpos, physicActor', w')
    ∧ osg.x newpos = F32.of_Z 0
    ∧ osg.y newpos = F32.of_Z 0.
Proof.
  apply (@move_short_tick Scenario.wall Scenario.calm [] Scenario.guard
           (Scenario.standing Scenario.guard) (osg.vec 0 100 0) (F32.lit 1 100) false
           (- F32.max_float)%f32 (F32.of_Z 1)).
  - apply wall_tracerSound.
  - reflexivity.
  - reflexivity.
  - vm_compute. reflexivity.
Defined.

Section Leaps.

Context `{Collaborators}.

(** X8.  A walking actor (mobile, collision mode on, not flying, not
    below the swim level) that is asked to move upwards is off the
    ground when [move] returns: the ground probe is skipped. *)
Theorem move_jump_leaves_ground
    (w : World) (dw : btDynamicsWorld) (ptr : Ptr) (physicActor : Actor)
    (movement : Vec3f) (time : float) (waterlevel slowFall : float) :
  let refpos := getPosition (refData w ptr) in
  let halfExtents := getHalfExtents physicActor in
  tracerSound dw →
  isMobile (refData w ptr) = true →
  getCollisionMode physicActor = true →
  (osg.z (asVec3 refpos) + osg.z halfExtents <? swimlevelOf w waterlevel halfExtents)%f32
  = false →
  (osg.z (rotateYaw refpos movement) >? F32.of_Z 0)%f32 = true →
  ∃ (newpos : Vec3f) (physicActor' : Actor) (w' : World),
    move w dw ptr physicActor movement time false waterlevel slowFall
    = Some (newpos, physicActor', w')
    ∧ getOnGround physicActor' = false.
Proof.
  intros refpos halfExtents Hsound Hmobile Hmode Hdry Hup. subst refpos halfExtents.
  destruct (move_total w dw ptr physicActor movement time false waterlevel slowFall Hsound)
    as [[[newpos physicActor'] w'] Hmove].
  exists newpos, physicActor', w'. split; [done|].
  unfold move in Hmove. rewrite Hmobile in Hmove. cbn [negb] in Hmove.
  cbn [getCollisionMode setWalkingOnWater] in Hmove. rewrite Hmode in Hmove.
  cbn [negb] in Hmove.
  unfold initialVelocity in Hmove.
  cbn [osg.set_z osg.z getHalfExtents getInertialForce getOnGround setWalkingOnWater]
    in Hmove.
  rewrite Hdry, Hup in Hmove. cbn [orb] in Hmove.
  apply bind_Some in Hmove as (s & _ & Hmove).
  unfold groundProbe in Hmove. rewrite Hup in Hmove. cbn [negb andb] in Hmove.
  cbv beta iota delta [mbind option_bind] in Hmove.
  by inversion Hmove.
Qed.

(** X9.  The two attempts of the solver loop to step over an obstacle
    return, and when both fail they leave the position and the
    remaining time of the loop as they were. *)
Theorem tryStep_outcome (dw : btDynamicsWorld) (colobj : btCollisionObject) (s : LoopState) :
  tracerSound dw →
  ∃ (result : bool) (position' : Vec3f) (remainingTime' : float),
    tryStep dw colobj s = Some (result, position', remainingTime')
    ∧ (result = false → position' = newPosition s ∧ remainingTime' = remainingTime s).
Proof.
  intros Hsound. destruct (tryStep_total dw colobj s Hsound) as [[[result p] t] Hstep].
  exists result, p, t. split; [done|]. intros ->. by apply tryStep_fails_unchanged in Hstep.
Qed.

(** X10.  [PhysicsSystem::traceDown] on an entity without an actor
    returns the reference position and changes nothing; on an entity
    with an actor it changes nothing but the on-ground flag of that
    actor: every other actor, and the set of registered actors, stay
    as they were. *)
Theorem PhysicsSystem_traceDown_frame
    (w : World) (ps : PhysicsSystem) (ptr : Ptr) (maxHeight : float) :
  let result := PhysicsSystem_traceDown w ps ptr maxHeight in
  (mActors ps !! ptr = None →
   result = (asVec3 (getPosition (refData w ptr)), ps))
  ∧ (∀ actor : Actor, mActors ps !! ptr = Some actor →
     ∃ onGround : bool,
       result.2 = set_mActors ps (<[ptr := setOnGround actor onGround]> (mActors ps)))
  ∧ (∀ p : Ptr, p ≠ ptr → mActors result.2 !! p = mActors ps !! p)
  ∧ dom (mActors result.2) = dom (mActors ps).
Proof.
  unfold PhysicsSystem_traceDown.
  destruct (mActors ps !! ptr) as [found|] eqn:Hfound; cbn zeta.
  2: { by split_and!. }
  assert (∃ b, (traceDown w (mDynamicsWorld ps) ptr found maxHeight).2 = setOnGround found b)
    as [b Hb].
  { unfold traceDown. destruct (F32.geb _ _); [by eexists|].
    destruct (_ && _); by eexists. }
  destruct (traceDown w (mDynamicsWorld ps) ptr found maxHeight) as [position actor].
  simpl in Hb. subst actor. cbn [snd mActors set_mActors].
  split_and!; [done| | |].
  - intros actor Heq. inversion Heq; subst. by exists b.
  - intros p Hne. by rewrite lookup_insert_ne.
  - apply dom_insert_lookup_L. by eexists.
Qed.

End Leaps.

Lemma move_jump_leaves_ground_witness :
  ∃ (newpos : Vec3f) (physicActor' : Actor) (w' : World),
    @move Scenario.wall Scenario.calm [] Scenario.guard (Scenario.standing Scenario.guard)
      (osg.vec 0 0 100) (F32.lit 1 60) false (- F32.max_float)%f32 (F32.of_Z 1)
    = Some (newpos, physicActor', w')
    ∧ getOnGround physicActor' = false.
Proof.
  apply (@move_jump_leaves_ground Scenario.wall Scenario.calm [] Scenario.guard
           (Scenario.standing Scenario.guard) (osg.vec 0 0 100) (F32.lit 1 60)
           (- F32.max_float)%f32 (F32.of_Z 1)).
  - apply wall_tracerSound.
  - reflexivity.
  - reflexivity.
  - vm_compute. reflexivity.
  - vm_compute. reflexivity.
Defined.

Lemma tryStep_outcome_witness :
  ∃ (result : bool) (position' : Vec3f) (remainingTime' : float),
    @tryStep Scenario.wall [] (Scenario.capsule Scenario.guard)
      (mkLoopState (osg.vec 0 0 64) (osg.vec 100 0 0) (F32.lit 1 60))
    = Some (result, position', remainingTime')
    ∧ (result = false →
       position' = osg.vec 0 0 64 ∧ remainingTime' = F32.lit 1 60).
Proof.
  apply (@tryStep_outcome Scenario.wall [] (Scenario.capsule Scenario.guard)
           (mkLoopState (osg.vec 0 0 64) (osg.vec 100 0 0) (F32.lit 1 60))).
  apply wall_tracerSound.
Defined.

(** ** Registering *)

(** X11.  A [HeightField] that is constructed hands the collision
    library a height range that is in order: the maximum it found is
    not below the minimum, whatever the samples (NaN included).  The
    shape is the field over the given array whose width and length are
    sqrtVerts converted to [int], that is truncated toward zero, with
    height scale 1, up axis 2 and diamond subdivision, scaled by
    triSize horizontally; it is the shape of the collision object,
    which has no owner. *)
Theorem HeightField_height_range
    (heights : list float) (x y : Z) (triSize sqrtVerts : float) (hf : HeightField) :
  HeightField_new heights x y triSize sqrtVerts = Some hf →
  ∃ (minh maxh : float),
    mShape hf
    = btHeightfieldTerrainShape (F32.to_int sqrtVerts) (F32.to_int sqrtVerts) heights
        (F32.of_Z 1) minh maxh 2 true true (osg.mkVec3f triSize triSize (F32.of_Z 1))
    ∧ (maxh <? minh)%f32 = false
    ∧ getCollisionShape (heightFieldCollisionObject hf) = Some (mShape hf)
    ∧ getUserPointer (heightFieldCollisionObject hf) = None.
Proof.
  unfold HeightField_new, heightRange. intros Hnew.
  apply bind_Some in Hnew as ([minh maxh] & Hrange & Hret).
  destruct heights as [|h0 rest]; [done|].
  destruct (scanHeights_visits _ _ _ _ _ _ Hrange) as (k & Hk & Hin & Hout).
  destruct (scanHeights_range rest k 1 sqrtVerts h0 h0 Hk Hin Hout)
    as (minh' & maxh' & Hscan & _ & _ & Hmin & Hmax & _).
  rewrite Hrange in Hscan. inversion Hscan; subst minh' maxh'.
  inversion Hret; subst. exists minh, maxh. split_and!; try done.
  unfold F32.ltb, F32.gtb in *.
  destruct Hmin as [->|Hmin], Hmax as [->|Hmax].
  - apply SFltb_irrefl.
  - by apply SFltb_asym.
  - by apply SFltb_asym.
  - apply SFltb_asym. by apply (SFltb_trans _ h0).
Qed.

Lemma HeightField_height_range_witness :
  ∃ hf : HeightField,
    HeightField_new Stage.tile 0 (-1) (F32.of_Z 128) (F32.lit 5 2) = Some hf
    ∧ ∃ (minh maxh : float),
        mShape hf
        = btHeightfieldTerrainShape (Some 2) (Some 2) Stage.tile (F32.of_Z 1)
            minh maxh 2 true true (osg.mkVec3f (F32.of_Z 128) (F32.of_Z 128) (F32.of_Z 1))
        ∧ (maxh <? minh)%f32 = false
        ∧ getCollisionShape (heightFieldCollisionObject hf) = Some (mShape hf)
        ∧ getUserPointer (heightFieldCollisionObject hf) = None.
Proof.
  eexists. split; [vm_compute; reflexivity|].
  apply (HeightField_height_range Stage.tile 0 (-1) (F32.of_Z 128) (F32.lit 5 2)).
  vm_compute. reflexivity.
Defined.

Section Registry.

Context `{Collaborators}.

(** X12.  [addObject] with a mesh that has a collision shape, for an
    entity that is not tracked: the entity is tracked with an [Object]
    that names it, and the world gains, at its end, one collider: that
    object's, owned by the entity, with the shape scaled by the
    reference's scale, placed at the reference's position and
    attitude, in the World group with the mask Actor, HeightMap and
    Projectile (2 + 4 + 8).  Actors and height fields are untouched. *)
Theorem addObject_registers
    (w : World) (ps : PhysicsSystem) (ptr : Ptr) (mesh : string) (shape : btCollisionShape) :
  instanceCollisionShape (createInstance (mShapeManager ps) mesh).1 = Some shape →
  mObjects ps !! ptr = None →
  let ps' := addObject w ps ptr mesh in
  let scale := getScale (refData w ptr) in
  ∃ (obj : Object) (collider : btCollisionObject),
    mObjects ps' = <[ptr := obj]> (mObjects ps)
    ∧ objectPtr obj = ptr
    ∧ mDynamicsWorld ps' = mDynamicsWorld ps ++ [collider]
    ∧ sameObject collider (getObjectCollisionObject obj) = true
    ∧ getUserPointer collider = Some ptr
    ∧ getCollisionShape collider
      = Some (setLocalScaling shape (osg.mkVec3f scale scale scale))
    ∧ getWorldTransform collider
      = mkTransform (getAttitude (refData w ptr)) (asVec3 (getPosition (refData w ptr)))
    ∧ getBroadphaseHandle collider = Some (mkProxy 1 14)
    ∧ mActors ps' = mActors ps
    ∧ mHeightFields ps' = mHeightFields ps.
Proof.
  intros Hshape Hfresh. unfold addObject.
  destruct (createInstance (mShapeManager ps) mesh) as [shapeInstance manager].
  simpl in Hshape. rewrite Hshape. cbn [set_mShapeManager mObjects mDynamicsWorld].
  unfold map_insert_new. rewrite Hfresh.
  eexists _, _. cbn. split_and!; try reflexivity.
  unfold sameObject. by apply bool_decide_eq_true.
Qed.

(** X13.  [addObject] for an entity that is tracked already keeps the
    [Object] it had, yet still puts a further collider owned by the
    entity into the world. *)
Theorem addObject_tracked_entity
    (w : World) (ps : PhysicsSystem) (ptr : Ptr) (mesh : string) (shape : btCollisionShape)
    (tracked : Object) :
  instanceCollisionShape (createInstance (mShapeManager ps) mesh).1 = Some shape →
  mObjects ps !! ptr = Some tracked →
  let ps' := addObject w ps ptr mesh in
  mObjects ps' = mObjects ps
  ∧ ∃ collider : btCollisionObject,
      mDynamicsWorld ps' = mDynamicsWorld ps ++ [collider]
      ∧ getUserPointer collider = Some ptr
      ∧ getBroadphaseHandle collider = Some (mkProxy 1 14).
Proof.
  intros Hshape Htracked. unfold addObject.
  destruct (createInstance (mShapeManager ps) mesh) as [shapeInstance manager].
  simpl in Hshape. rewrite Hshape. cbn [set_mShapeManager mObjects mDynamicsWorld].
  unfold map_insert_new. rewrite Htracked. cbn.
  split; [done|]. eexists. split_and!; reflexivity.
Qed.

(** X14.  [addHeightField] is defined exactly when the [HeightField]
    can be constructed; it then records the tile under its cell (x, y),
    in place of a tile recorded there before, and the world gains, at
    its end, the tile's collider in the HeightMap group with the mask
    Actor and Projectile (2 + 8).  Objects and actors are untouched. *)
Theorem addHeightField_registers
    (ps : PhysicsSystem) (heights : list float) (x y : Z) (triSize sqrtVerts : float) :
  (is_Some (addHeightField ps heights x y triSize sqrtVerts)
   ↔ is_Some (HeightField_new heights x y triSize sqrtVerts))
  ∧ ∀ ps' : PhysicsSystem,
      addHeightField ps heights x y triSize sqrtVerts = Some ps' →
      ∃ (hf : HeightField) (collider : btCollisionObject),
        HeightField_new heights x y triSize sqrtVerts = Some hf
        ∧ mHeightFields ps' = <[(x, y) := hf]> (mHeightFields ps)
        ∧ mDynamicsWorld ps' = mDynamicsWorld ps ++ [collider]
        ∧ sameObject collider (heightFieldCollisionObject hf) = true
        ∧ getBroadphaseHandle collider = Some (mkProxy 4 10)
        ∧ mObjects ps' = mObjects ps
        ∧ mActors ps' = mActors ps.
Proof.
  unfold addHeightField.
  destruct (HeightField_new heights x y triSize sqrtVerts) as [hf|]; cbn.
  - split; [split; by eexists|]. intros ps' Hadd. inversion Hadd; subst.
    eexists _, _. cbn. split_and!; try reflexivity.
    unfold sameObject. by apply bool_decide_eq_true.
  - split; [split; by intros [? ?]|]. done.
Qed.

(** X15.  With the player registered, [toggleCollisionMode] returns
    the negated collision mode of the player's actor and touches no
    other actor; toggling twice returns the original mode and
    restores the physics system. *)
Theorem toggleCollisionMode_twice (w : World) (ps : PhysicsSystem) (actor : Actor) :
  mActors ps !! getPlayerPtr w = Some actor →
  (toggleCollisionMode w ps).1 = negb (getCollisionMode actor)
  ∧ toggleCollisionMode w (toggleCollisionMode w ps).2 = (getCollisionMode actor, ps)
  ∧ ∀ p : Ptr, p ≠ getPlayerPtr w →
      mActors (toggleCollisionMode w ps).2 !! p = mActors ps !! p.
Proof.
  intros Hplayer. unfold toggleCollisionMode. rewrite Hplayer.
  cbn [fst snd mActors set_mActors]. rewrite lookup_insert_eq.
  split_and!; [done| |intros p Hne; by rewrite lookup_insert_ne].
  cbn [getCollisionMode enableCollisionMode]. rewrite negb_involutive. f_equal.
  rewrite insert_insert_eq.
  replace (enableCollisionMode (enableCollisionMode actor (negb (getCollisionMode actor)))
             (getCollisionMode actor)) with actor by (by destruct actor).
  rewrite (insert_id (mActors ps) _ actor) by done. by destruct ps.
Qed.

End Registry.

Lemma addObject_registers_witness :
  ∃ (obj : Object) (collider : btCollisionObject),
    mObjects Stage.withCrate = <[Stage.crate := obj]> (mObjects Scenario.guardQueued)
    ∧ objectPtr obj = Stage.crate
    ∧ mDynamicsWorld Stage.withCrate = mDynamicsWorld Scenario.guardQueued ++ [collider]
    ∧ getUserPointer collider = Some Stage.crate
    ∧ getBroadphaseHandle collider = Some (mkProxy 1 14).
Proof.
  destruct (@addObject_registers Scenario.openSpace Scenario.calm Scenario.guardQueued
              Stage.crate "box" Scenario.box)
    as (obj & collider & Hobjects & Hptr & Hworld & _ & Huser & _ & _ & Hhandle & _).
  - vm_compute. reflexivity.
  - vm_compute. reflexivity.
  - exists obj, collider. by split_and!.
Defined.

Lemma addObject_tracked_entity_witness :
  mObjects (@addObject Scenario.openSpace Scenario.calm Stage.withCrate Stage.crate "box")
  = mObjects Stage.withCrate
  ∧ length (mDynamicsWorld
              (@addObject Scenario.openSpace Scenario.calm Stage.withCrate Stage.crate "box"))
    = 3%nat.
Proof.
  destruct (@addObject_tracked_entity Scenario.openSpace Scenario.calm Stage.withCrate
              Stage.crate "box" Scenario.box
              (@Object_new Scenario.calm Stage.crate (Scenario.shapes "box") Scenario.box))
    as (Hobjects & collider & Hworld & _).
  - vm_compute. reflexivity.
  - vm_compute. reflexivity.
  - split; [exact Hobjects|]. rewrite Hworld. reflexivity.
Defined.

Lemma toggleCollisionMode_twice_witness :
  (toggleCollisionMode Scenario.calm Stage.playerRegistered).1 = false
  ∧ toggleCollisionMode Scenario.calm
      (toggleCollisionMode Scenario.calm Stage.playerRegistered).2
    = (true, Stage.playerRegistered).
Proof.
  destruct (toggleCollisionMode_twice Scenario.calm Stage.playerRegistered
              (Scenario.standing Scenario.player)) as (Hfirst & Hsecond & _).
  - vm_compute. reflexivity.
  - split; [exact Hfirst|exact Hsecond].
Defined.

(** ** Removing *)

Lemma sameObject_added (o : btCollisionObject) (group mask : Z) :
  sameObject
    (mkCollisionObject (getCollisionShape o) (getWorldTransform o) (getUserPointer o)
       (Some (mkProxy group mask))) o = true.
Proof. unfold sameObject. by apply bool_decide_eq_true. Qed.

Lemma findLinearSearch_le (dw : btDynamicsWorld) (key : btCollisionObject) :
  (findLinearSearch dw key ≤ length dw)%nat.
Proof. induction dw as [|e rest IH]; simpl; [lia|]. destruct (sameObject e key); lia. Qed.

Lemma findLinearSearch_found (dw : btDynamicsWorld) (key e : btCollisionObject) :
  dw !! findLinearSearch dw key = Some e → sameObject e key = true.
Proof.
  induction dw as [|e0 rest IH]; simpl; [done|].
  destruct (sameObject e0 key) eqn:Hsame; simpl; [|done].
  intros Heq. by inversion Heq; subst.
Qed.

Lemma findLinearSearch_absent (dw : btDynamicsWorld) (key : btCollisionObject) :
  (∀ e : btCollisionObject, e ∈ dw → sameObject e key = false) ↔
  findLinearSearch dw key = length dw.
Proof.
  induction dw as [|e0 rest IH]; simpl.
  - split; [done|]. intros _ e He. by apply elem_of_nil in He.
  - split.
    + intros Hall. rewrite (Hall e0) by apply list_elem_of_here. f_equal.
      apply IH. intros e He. apply Hall. by apply list_elem_of_further.
    + destruct (sameObject e0 key) eqn:Hsame; [done|]. intros Heq.
      intros e He. apply elem_of_cons in He as [->|He]; [done|].
      apply IH; [lia|done].
Qed.

Lemma findLinearSearch_app_new (dw : btDynamicsWorld) (key c : btCollisionObject) :
  (∀ e : btCollisionObject, e ∈ dw → sameObject e key = false) →
  sameObject c key = true →
  findLinearSearch (dw ++ [c]) key = length dw.
Proof.
  intros Hall Hc. induction dw as [|e0 rest IH]; simpl.
  - by rewrite Hc.
  - rewrite (Hall e0) by apply list_elem_of_here. f_equal.
    apply IH. intros e He. apply Hall. by apply list_elem_of_further.
Qed.

Lemma removeAtIndex_beyond (dw : btDynamicsWorld) (index : nat) :
  (length dw ≤ index)%nat → removeAtIndex dw index = dw.
Proof.
  intros Hge. unfold removeAtIndex. destruct (last dw); [|done].
  by rewrite decide_False by lia.
Qed.

Lemma removeAtIndex_back (dw : btDynamicsWorld) (c : btCollisionObject) :
  removeAtIndex (dw ++ [c]) (length dw) = dw.
Proof.
  unfold removeAtIndex. rewrite last_snoc, length_app. simpl.
  rewrite decide_True by lia.
  rewrite insert_app_r_alt by lia. rewrite Nat.sub_diag. simpl.
  replace (length dw + 1 - 1)%nat with (length dw) by lia.
  by rewrite take_app_length.
Qed.

Lemma list_delete_insert_same {A} (l : list A) (i : nat) (x : A) :
  delete i (<[i := x]> l) = delete i l.
Proof. revert i. induction l as [|a l IH]; intros [|i]; simpl; try done. by rewrite IH. Qed.

(** Removal keeps every other collider, though not the order: the
    last collider takes the place of the one removed. *)
Lemma removeAtIndex_Permutation (dw : btDynamicsWorld) (index : nat) (e : btCollisionObject) :
  dw !! index = Some e → dw ≡ₚ e :: removeAtIndex dw index.
Proof.
  intros Hindex. pose proof (lookup_lt_Some _ _ _ Hindex) as Hlt.
  destruct dw as [|back front _] using rev_ind; [simpl in Hlt; lia|].
  unfold removeAtIndex. rewrite last_snoc. rewrite decide_True by done.
  rewrite length_app in *. simpl in *.
  destruct (decide (index = length front)) as [->|Hne].
  - rewrite lookup_app_r, Nat.sub_diag in Hindex by lia. inversion Hindex; subst.
    rewrite insert_app_r_alt by lia. rewrite Nat.sub_diag. simpl.
    replace (length front + 1 - 1)%nat with (length front) by lia.
    rewrite take_app_length. by rewrite Permutation_app_comm.
  - rewrite lookup_app_l in Hindex by lia.
    rewrite insert_app_l by lia.
    replace (length front + 1 - 1)%nat with (length (<[index := back]> front))
      by (rewrite length_insert; lia).
    rewrite take_app_length.
    rewrite Permutation_app_comm. simpl.
    rewrite (delete_Permutation front index e Hindex) at 1.
    rewrite Permutation_swap. f_equiv.
    rewrite (delete_Permutation (<[index := back]> front) index back).
    + f_equiv. by rewrite list_delete_insert_same.
    + apply list_lookup_insert_eq. lia.
Qed.

Lemma removeAtIndex_length (dw : btDynamicsWorld) (index : nat) :
  (index < length dw)%nat → length (removeAtIndex dw index) = (length dw - 1)%nat.
Proof.
  intros Hlt. destruct (lookup_lt_is_Some_2 dw index Hlt) as [e He].
  apply removeAtIndex_Permutation in He. apply Permutation_length in He. simpl in He. lia.
Qed.

Lemma removeCollisionObject_added (dw : btDynamicsWorld) (o : btCollisionObject)
    (group mask : Z) :
  (∀ e : btCollisionObject, e ∈ dw → sameObject e o = false) →
  removeCollisionObject (addCollisionObject dw o group mask) o = dw.
Proof.
  intros Hall. unfold removeCollisionObject, addCollisionObject.
  rewrite (findLinearSearch_app_new dw o _ Hall (sameObject_added o group mask)).
  apply removeAtIndex_back.
Qed.

Lemma removeCollisionObject_length (dw : btDynamicsWorld) (o : btCollisionObject) :
  (length (removeCollisionObject dw o) ≤ length dw)%nat.
Proof.
  unfold removeCollisionObject.
  destruct (decide (findLinearSearch dw o < length dw)%nat) as [Hlt|Hge].
  - rewrite removeAtIndex_length by done. lia.
  - rewrite removeAtIndex_beyond by lia. lia.
Qed.

Lemma removeCollisionObject_present (dw : btDynamicsWorld) (o e : btCollisionObject) :
  e ∈ dw → sameObject e o = true →
  S (length (removeCollisionObject dw o)) = length dw.
Proof.
  intros Hin Hsame. unfold removeCollisionObject.
  destruct (decide (findLinearSearch dw o < length dw)%nat) as [Hlt|Hge].
  - rewrite removeAtIndex_length by done. lia.
  - assert (findLinearSearch dw o = length dw) as Heq
      by (pose proof (findLinearSearch_le dw o); lia).
    rewrite <- findLinearSearch_absent in Heq. by rewrite (Heq e Hin) in Hsame.
Qed.

Ltac remove_cases ps ptr :=
  unfold PhysicsSystem_remove, Actor_delete;
  let Hobj := fresh "Hobj" in
  let Hact := fresh "Hact" in
  destruct (mObjects ps !! ptr) eqn:Hobj, (mActors ps !! ptr) eqn:Hact; cbn;
  rewrite ?Hact; cbn.

(** X16.  [PhysicsSystem::remove] untracks the entity as an object and
    as an actor and leaves every other object and actor, the height
    fields and the movement queue alone; the world loses colliders
    only.  On an entity that is tracked as neither it changes nothing,
    so that removing twice is removing once. *)
Theorem PhysicsSystem_remove_untracks (ps : PhysicsSystem) (ptr : Ptr) :
  let ps' := PhysicsSystem_remove ps ptr in
  mObjects ps' = delete ptr (mObjects ps)
  ∧ mActors ps' = delete ptr (mActors ps)
  ∧ mHeightFields ps' = mHeightFields ps
  ∧ mMovementQueue ps' = mMovementQueue ps
  ∧ (length (mDynamicsWorld ps') ≤ length (mDynamicsWorld ps))%nat
  ∧ (mObjects ps !! ptr = None → mActors ps !! ptr = None → ps' = ps)
  ∧ PhysicsSystem_remove ps' ptr = ps'.
Proof.
  assert (∀ ps0, mObjects ps0 !! ptr = None → mActors ps0 !! ptr = None →
                 PhysicsSystem_remove ps0 ptr = ps0) as Hnoop.
  { intros ps0 Hobj Hact. unfold PhysicsSystem_remove. rewrite Hobj. by rewrite Hact. }
  cbn zeta. split_and!.
  - remove_cases ps ptr; try done; by rewrite delete_id.
  - remove_cases ps ptr; try done; by rewrite delete_id.
  - by remove_cases ps ptr.
  - by remove_cases ps ptr.
  - remove_cases ps ptr; try done.
    + etrans; [apply removeCollisionObject_length|apply removeCollisionObject_length].
    + apply removeCollisionObject_length.
    + apply removeCollisionObject_length.
  - apply Hnoop.
  - apply Hnoop.
    + remove_cases ps ptr; try done; apply lookup_delete_eq.
    + remove_cases ps ptr; try done; apply lookup_delete_eq.
Qed.

Section RoundTrips.

Context `{Collaborators}.

(** X17.  Adding an object for an entity that is tracked neither as
    object nor as actor, and that owns no collider in the world, and
    then removing the entity, restores the physics system: objects,
    actors and the collision world are as before, and only the shape
    manager keeps what [createInstance] did to it. *)
Theorem addObject_then_remove
    (w : World) (ps : PhysicsSystem) (ptr : Ptr) (mesh : string) (shape : btCollisionShape) :
  instanceCollisionShape (createInstance (mShapeManager ps) mesh).1 = Some shape →
  mObjects ps !! ptr = None →
  mActors ps !! ptr = None →
  (∀ e : btCollisionObject, e ∈ mDynamicsWorld ps → getUserPointer e ≠ Some ptr) →
  PhysicsSystem_remove (addObject w ps ptr mesh) ptr
  = set_mShapeManager ps (createInstance (mShapeManager ps) mesh).2.
Proof.
  intros Hshape Hobj Hact Hworld. unfold addObject.
  destruct (createInstance (mShapeManager ps) mesh) as [shapeInstance manager].
  simpl in Hshape. rewrite Hshape. cbn [set_mShapeManager mObjects mDynamicsWorld snd].
  unfold map_insert_new. rewrite Hobj.
  unfold PhysicsSystem_remove, Actor_delete.
  cbn -[addCollisionObject removeCollisionObject Object_new].
  rewrite lookup_insert_eq.
  cbn -[addCollisionObject removeCollisionObject Object_new].
  rewrite Hact. rewrite removeCollisionObject_added.
  - rewrite delete_insert_eq, delete_id by done. by destruct ps.
  - intros e He. unfold sameObject. apply bool_decide_eq_false.
    intros (_ & _ & Huser). by apply (Hworld e He).
Qed.

End RoundTrips.

(** X18.  Adding a height field on a cell that has none, to a world
    that does not hold its collider already, and then removing the
    height field of that cell, restores the physics system. *)
Theorem removeHeightField_after_add
    (ps : PhysicsSystem) (heights : list float) (x y : Z) (triSize sqrtVerts : float)
    (hf : HeightField) :
  HeightField_new heights x y triSize sqrtVerts = Some hf →
  mHeightFields ps !! (x, y) = None →
  (∀ e : btCollisionObject,
     e ∈ mDynamicsWorld ps → sameObject e (heightFieldCollisionObject hf) = false) →
  ∃ ps1 : PhysicsSystem,
    addHeightField ps heights x y triSize sqrtVerts = Some ps1
    ∧ removeHeightField ps1 x y = ps.
Proof.
  intros Hnew Hfresh Hworld. unfold addHeightField. rewrite Hnew.
  cbn -[addCollisionObject].
  eexists. split; [reflexivity|].
  unfold removeHeightField. cbn -[addCollisionObject removeCollisionObject].
  rewrite lookup_insert_eq. cbn -[addCollisionObject removeCollisionObject].
  rewrite removeCollisionObject_added by done.
  rewrite delete_insert_eq, delete_id by done. by destruct ps.
Qed.

(** X19.  Adding a height field twice on the same cell and then
    removing the height field of that cell leaves the cell without a
    height field, but one of the two colliders stays in the world:
    the second addition replaced the record of the first without
    removing its collider. *)
Theorem addHeightField_twice_then_remove
    (ps ps1 ps2 : PhysicsSystem) (heights1 heights2 : list float) (x y : Z)
    (triSize1 sqrtVerts1 triSize2 sqrtVerts2 : float) :
  addHeightField ps heights1 x y triSize1 sqrtVerts1 = Some ps1 →
  addHeightField ps1 heights2 x y triSize2 sqrtVerts2 = Some ps2 →
  mHeightFields (removeHeightField ps2 x y) !! (x, y) = None
  ∧ length (mDynamicsWorld (removeHeightField ps2 x y)) = S (length (mDynamicsWorld ps)).
Proof.
  unfold addHeightField. intros Hfirst Hsecond.
  apply bind_Some in Hfirst as (hf1 & _ & Hfirst). inversion Hfirst; subst ps1.
  apply bind_Some in Hsecond as (hf2 & _ & Hsecond). inversion Hsecond; subst ps2.
  unfold removeHeightField. cbn -[addCollisionObject removeCollisionObject].
  rewrite lookup_insert_eq. cbn -[addCollisionObject removeCollisionObject].
  split; [apply lookup_delete_eq|].
  match goal with
  | |- context [removeCollisionObject ?dw ?o] =>
      pose proof (removeCollisionObject_present dw o
        (mkCollisionObject (getCollisionShape o) (getWorldTransform o) (getUserPointer o)
           (Some (mkProxy CollisionType_HeightMap
                    (Z.lor CollisionType_Actor CollisionType_Projectile))))) as Hlen
  end.
  unfold addCollisionObject in *. rewrite !length_app in Hlen. simpl in Hlen.
  assert (∀ n m : nat, S n = (m + 1 + 1)%nat → n = S m) as Harith by lia.
  apply Harith, Hlen.
  - apply elem_of_app. right. apply list_elem_of_singleton. reflexivity.
  - apply sameObject_added.
Qed.

Lemma addObject_then_remove_witness :
  PhysicsSystem_remove Stage.withCrate Stage.crate
  = set_mShapeManager Scenario.guardQueued
      (@createInstance Scenario.openSpace (mShapeManager Scenario.guardQueued) "box").2.
Proof.
  apply (@addObject_then_remove Scenario.openSpace Scenario.calm Scenario.guardQueued
           Stage.crate "box" Scenario.box).
  - vm_compute. reflexivity.
  - vm_compute. reflexivity.
  - vm_compute. reflexivity.
  - intros e He. apply list_elem_of_singleton in He. subst e. vm_compute. discriminate.
Defined.

Lemma removeHeightField_after_add_witness :
  ∃ hf : HeightField,
    HeightField_new Stage.tile 0 (-1) (F32.of_Z 128) (F32.of_Z 3) = Some hf
    ∧ ∃ ps1 : PhysicsSystem,
        addHeightField Scenario.guardQueued Stage.tile 0 (-1) (F32.of_Z 128) (F32.of_Z 3)
        = Some ps1
        ∧ removeHeightField ps1 0 (-1) = Scenario.guardQueued.
Proof.
  eexists. split; [vm_compute; reflexivity|].
  eapply (removeHeightField_after_add Scenario.guardQueued Stage.tile 0 (-1)
            (F32.of_Z 128) (F32.of_Z 3)).
  - vm_compute. reflexivity.
  - vm_compute. reflexivity.
  - intros e He. apply list_elem_of_singleton in He. subst e. vm_compute. reflexivity.
Defined.

Lemma addHeightField_twice_then_remove_witness :
  ∃ ps1 : PhysicsSystem,
    addHeightField Stage.fresh Stage.tile 0 0 (F32.of_Z 128) (F32.of_Z 3) = Some ps1
    ∧ ∃ ps2 : PhysicsSystem,
        addHeightField ps1 Stage.tile 0 0 (F32.of_Z 128) (F32.of_Z 3) = Some ps2
        ∧ mHeightFields (removeHeightField ps2 0 0) !! (0, 0) = None
        ∧ length (mDynamicsWorld (removeHeightField ps2 0 0)) = 1%nat.
Proof.
  eexists. split; [vm_compute; reflexivity|].
  eexists. split; [vm_compute; reflexivity|].
  eapply (addHeightField_twice_then_remove Stage.fresh _ _ Stage.tile Stage.tile 0 0
            (F32.of_Z 128) (F32.of_Z 3) (F32.of_Z 128) (F32.of_Z 3)).
  - vm_compute. reflexivity.
  - vm_compute. reflexivity.
Defined.

(** ** Re-keying *)

Lemma map_insert_new_fresh {V} (k : Ptr) (v : V) (m : gmap Ptr V) :
  m !! k = None → map_insert_new k v m = <[k := v]> m.
Proof. intros Hfresh. unfold map_insert_new. by rewrite Hfresh. Qed.

Lemma map_insert_new_present {V} (k : Ptr) (v v0 : V) (m : gmap Ptr V) :
  m !! k = Some v0 → map_insert_new k v m = m.
Proof. intros Hthere. unfold map_insert_new. by rewrite Hthere. Qed.

(** The two maps after [updatePtr]. *)
Lemma updatePtr_maps (ps : PhysicsSystem) (old updated : Ptr) :
  updatePtr ps old updated
  = set_mActors
      (set_mObjects ps
         (match mObjects ps !! old with
          | Some obj =>
              map_insert_new updated (Object_updatePtr obj updated) (delete old (mObjects ps))
          | None => mObjects ps
          end))
      (match mActors ps !! old with
       | Some actor =>
           map_insert_new updated (Actor_updatePtr actor updated) (delete old (mActors ps))
       | None => mActors ps
       end).
Proof.
  unfold updatePtr.
  destruct (mObjects ps !! old), (mActors ps !! old) eqn:Hactor; cbn; rewrite ?Hactor;
    by destruct ps.
Qed.

(** X20.  [updatePtr] onto a handle that is tracked neither as object
    nor as actor moves what was tracked under the old handle to the
    new one: the object or actor found there goes by the new handle
    and is otherwise as it was, with the shape and the placement of
    its collision object.  Nothing is left under the old handle, and
    when nothing was tracked under it nothing is tracked under the new
    one.  Every other object and actor, the height fields and the
    movement queue are untouched, and the colliders in the world keep
    their order, shapes, placements and filters. *)
Theorem updatePtr_rekeys (ps : PhysicsSystem) (old updated : Ptr) :
  mObjects ps !! updated = None →
  mActors ps !! updated = None →
  let ps' := updatePtr ps old updated in
  let placed (e : btCollisionObject) :=
    (getCollisionShape e, getWorldTransform e, getBroadphaseHandle e) in
  (∀ obj : Object, mObjects ps !! old = Some obj →
   ∃ obj' : Object,
     mObjects ps' !! updated = Some obj'
     ∧ objectPtr obj' = updated
     ∧ mShapeInstance obj' = mShapeInstance obj
     ∧ placed (getObjectCollisionObject obj') = placed (getObjectCollisionObject obj))
  ∧ (mObjects ps !! old = None → mObjects ps' !! updated = None)
  ∧ (∀ actor : Actor, mActors ps !! old = Some actor →
     ∃ actor' : Actor,
       mActors ps' !! updated = Some actor'
       ∧ actorPtr actor' = updated
       ∧ getHalfExtents actor' = getHalfExtents actor
       ∧ getOnGround actor' = getOnGround actor
       ∧ getInertialForce actor' = getInertialForce actor
       ∧ getCollisionMode actor' = getCollisionMode actor
       ∧ getCanWaterWalk actor' = getCanWaterWalk actor
       ∧ getWalkingOnWater actor' = getWalkingOnWater actor
       ∧ placed (getActorCollisionObject actor') = placed (getActorCollisionObject actor))
  ∧ (mActors ps !! old = None → mActors ps' !! updated = None)
  ∧ (old ≠ updated → mObjects ps' !! old = None ∧ mActors ps' !! old = None)
  ∧ (∀ p : Ptr, p ≠ old → p ≠ updated →
     mObjects ps' !! p = mObjects ps !! p ∧ mActors ps' !! p = mActors ps !! p)
  ∧ placed <$> mDynamicsWorld ps' = placed <$> mDynamicsWorld ps
  ∧ mHeightFields ps' = mHeightFields ps
  ∧ mMovementQueue ps' = mMovementQueue ps.
Proof.
  intros Hobj Hact. cbn zeta. rewrite updatePtr_maps. cbn.
  assert (∀ {V} (m : gmap Ptr V), m !! updated = None → delete old m !! updated = None)
    as Hfresh.
  { intros V m Hm. destruct (decide (old = updated)) as [->|Hne];
      [apply lookup_delete_eq|by rewrite lookup_delete_ne]. }
  destruct (mObjects ps !! old) as [obj|] eqn:Hold;
    destruct (mActors ps !! old) as [actor|] eqn:Hold';
    rewrite ?(map_insert_new_fresh _ _ _ (Hfresh _ _ Hobj)),
      ?(map_insert_new_fresh _ _ _ (Hfresh _ _ Hact));
    rewrite ?lookup_insert_eq; split_and!; try done;
    try (intros found Hfound; inversion Hfound; subst; eexists; split; [reflexivity|];
         by split_and!);
    try (intros Hne; rewrite ?lookup_insert_ne, ?lookup_delete_eq by done; by split);
    try (intros p Hp Hp'; rewrite ?lookup_insert_ne, ?lookup_delete_ne by done; by split).
Qed.

(** X21.  [updatePtr] of an object onto a different handle that
    already tracks an object keeps the object of the new handle and
    drops the one that was to be moved: it is tracked under neither
    handle afterwards, every other object is tracked as before, and
    the colliders in the world, that of the dropped object among
    them, keep their order, shapes, placements and filters. *)
Theorem updatePtr_onto_tracked (ps : PhysicsSystem) (old updated : Ptr) (moved kept : Object) :
  old ≠ updated →
  mObjects ps !! old = Some moved →
  mObjects ps !! updated = Some kept →
  let ps' := updatePtr ps old updated in
  let placed (e : btCollisionObject) :=
    (getCollisionShape e, getWorldTransform e, getBroadphaseHandle e) in
  mObjects ps' = delete old (mObjects ps)
  ∧ mObjects ps' !! updated = Some kept
  ∧ mObjects ps' !! old = None
  ∧ placed <$> mDynamicsWorld ps' = placed <$> mDynamicsWorld ps
  ∧ length (mDynamicsWorld ps') = length (mDynamicsWorld ps).
Proof.
  intros Hne Hold Hupdated. cbn zeta. rewrite updatePtr_maps. cbn. rewrite Hold.
  rewrite (map_insert_new_present _ _ kept) by (by rewrite lookup_delete_ne).
  split_and!; [done| |apply lookup_delete_eq|done|done].
  by rewrite lookup_delete_ne.
Qed.

Lemma rekey_round_trip {V} (rename : V → Ptr → V) (m : gmap Ptr V) (old updated : Ptr) :
  old ≠ updated →
  m !! updated = None →
  (∀ v : V, m !! old = Some v → rename (rename v updated) old = v) →
  match
    match m !! old with
    | Some v => map_insert_new updated (rename v updated) (delete old m)
    | None => m
    end !! updated
  with
  | Some v =>
      map_insert_new old (rename v old)
        (delete updated
           match m !! old with
           | Some v => map_insert_new updated (rename v updated) (delete old m)
           | None => m
           end)
  | None =>
      match m !! old with
      | Some v => map_insert_new updated (rename v updated) (delete old m)
      | None => m
      end
  end = m.
Proof.
  intros Hne Hfresh Hrename.
  destruct (m !! old) as [v|] eqn:Hold; [|by rewrite Hfresh].
  rewrite map_insert_new_fresh by (by rewrite lookup_delete_ne).
  rewrite lookup_insert_eq, delete_insert_eq.
  rewrite (delete_id (delete old m)) by (by rewrite lookup_delete_ne).
  rewrite map_insert_new_fresh by apply lookup_delete_eq.
  rewrite insert_delete_eq, (Hrename v eq_refl). by rewrite insert_id.
Qed.

(** X22.  When the object and the actor tracked under a handle are
    named after it, [updatePtr] onto a handle that tracks nothing,
    followed by [updatePtr] back, restores the physics system. *)
Theorem updatePtr_round_trip (ps : PhysicsSystem) (old updated : Ptr) :
  mObjects ps !! updated = None →
  mActors ps !! updated = None →
  (∀ obj : Object, mObjects ps !! old = Some obj → objectPtr obj = old) →
  (∀ actor : Actor, mActors ps !! old = Some actor → actorPtr actor = old) →
  updatePtr (updatePtr ps old updated) updated old = ps.
Proof.
  intros Hobj Hact Hkey Hkey'.
  destruct (decide (old = updated)) as [->|Hne].
  { rewrite !updatePtr_maps. cbn. rewrite Hobj, Hact. cbn. rewrite Hobj, Hact.
    by destruct ps. }
  rewrite (updatePtr_maps (updatePtr ps old updated)). rewrite updatePtr_maps. cbn.
  rewrite (rekey_round_trip Object_updatePtr), (rekey_round_trip Actor_updatePtr);
    try done.
  - by destruct ps.
  - intros actor Hactor. rewrite <- (Hkey' actor Hactor) at 1. by destruct actor.
  - intros obj Hobject. rewrite <- (Hkey obj Hobject) at 1. by destruct obj.
Qed.

Lemma updatePtr_rekeys_witness :
  (∃ obj' : Object,
     mObjects (updatePtr Stage.withCrate Stage.crate Stage.barrel) !! Stage.barrel = Some obj'
     ∧ objectPtr obj' = Stage.barrel)
  ∧ mObjects (updatePtr Stage.withCrate Stage.crate Stage.barrel) !! Stage.crate = None
  ∧ mActors (updatePtr Stage.withCrate Stage.crate Stage.barrel) !! Scenario.guard
    = Some (Scenario.standing Scenario.guard).
Proof.
  destruct (updatePtr_rekeys Stage.withCrate Stage.crate Stage.barrel)
    as (Hmoved & _ & _ & _ & Hold & Hothers & _).
  - vm_compute. reflexivity.
  - vm_compute. reflexivity.
  - split_and!.
    + destruct (Hmoved (@Object_new Scenario.calm Stage.crate (Scenario.shapes "box")
                          Scenario.box)) as (obj' & Hobj' & Hptr & _).
      * vm_compute. reflexivity.
      * by exists obj'.
    + apply Hold. discriminate.
    + destruct (Hothers Scenario.guard) as [_ Hactor]; [discriminate|discriminate|].
      rewrite Hactor. vm_compute. reflexivity.
Defined.

Lemma updatePtr_onto_tracked_witness :
  mObjects (updatePtr Stage.withCrateAndBarrel Stage.crate Stage.barrel) !! Stage.crate = None
  ∧ (objectPtr
       <$> mObjects (updatePtr Stage.withCrateAndBarrel Stage.crate Stage.barrel)
           !! Stage.barrel)
    = Some Stage.barrel
  ∧ length (mDynamicsWorld (updatePtr Stage.withCrateAndBarrel Stage.crate Stage.barrel))
    = 3%nat.
Proof.
  destruct (updatePtr_onto_tracked Stage.withCrateAndBarrel Stage.crate Stage.barrel
              (@Object_new Scenario.calm Stage.crate (Scenario.shapes "box") Scenario.box)
              (@Object_new Scenario.calm Stage.barrel (Scenario.shapes "box") Scenario.box))
    as (_ & Hkept & Hmoved & _ & Hworld).
  - discriminate.
  - vm_compute. reflexivity.
  - vm_compute. reflexivity.
  - split_and!; [exact Hmoved|by rewrite Hkept|by rewrite Hworld].
Defined.

Lemma updatePtr_round_trip_witness :
  updatePtr (updatePtr Stage.withCrate Stage.crate Stage.barrel) Stage.barrel Stage.crate
  = Stage.withCrate.
Proof.
  apply updatePtr_round_trip.
  - vm_compute. reflexivity.
  - vm_compute. reflexivity.
  - intros obj Hobj. vm_compute in Hobj. inversion Hobj. reflexivity.
  - intros actor Hactor. vm_compute in Hactor. discriminate Hactor.
Defined.

(** ** Water *)

Lemma sameObject_isPlane (e o : btCollisionObject) :
  sameObject e o = true → isPlane o → isPlane e.
Proof.
  unfold sameObject. intros Hsame (normal & constant & Hshape).
  apply bool_decide_eq_true in Hsame as (Heq & _ & _).
  exists normal, constant. by rewrite Heq.
Qed.

(** [updateWater] re-establishes the agreement for whatever flag and
    height have just been stored. *)
Lemma updateWater_consistent (ps : PhysicsSystem) (att : Attachments)
    (enabled : bool) (height : float) :
  waterConsistent ps att →
  waterConsistent (updateWater (set_mWater ps enabled height) att).1
    (updateWater (set_mWater ps enabled height) att).2.
Proof.
  intros (Hplanes & Hobject & Hwater & Hptr).
  assert (∃ dw1 : btDynamicsWorld,
            match mWaterCollisionObject att with
            | Some o => removeCollisionObject (mDynamicsWorld ps) o
            | None => mDynamicsWorld ps
            end = dw1
            ∧ (∀ e, e ∈ dw1 → e ∈ mDynamicsWorld ps)
            ∧ waterColliders dw1 = []) as (dw1 & Hdw1 & Hsub & Hnone).
  { eexists. split; [reflexivity|].
    destruct (mWaterCollisionObject att) as [o|] eqn:Hatt.
    2: { split; [done|]. rewrite Hwater. destruct (mWaterEnabled ps); [|done].
         destruct (Hptr eq_refl) as (o & Ho & _). done. }
    unfold removeCollisionObject.
    destruct (mDynamicsWorld ps !! findLinearSearch (mDynamicsWorld ps) o) as [e|] eqn:Hfound.
    - pose proof (removeAtIndex_Permutation _ _ _ Hfound) as Hperm.
      apply findLinearSearch_found in Hfound as Hsame.
      assert (inWaterGroup e) as He.
      { apply Hplanes; [by eapply list_elem_of_lookup_2|].
        apply (sameObject_isPlane e o Hsame). by apply Hobject. }
      split.
      + intros e' He'. rewrite Hperm. by apply list_elem_of_further.
      + assert (waterColliders (mDynamicsWorld ps)
                ≡ₚ e :: waterColliders (removeAtIndex (mDynamicsWorld ps)
                                          (findLinearSearch (mDynamicsWorld ps) o))) as Hfilter.
        { unfold waterColliders. rewrite Hperm at 1. by rewrite filter_cons_True. }
        rewrite Hwater in Hfilter. destruct (mWaterEnabled ps).
        * apply Permutation_length in Hfilter. simpl in Hfilter.
          apply nil_length_inv. lia.
        * apply Permutation_nil_l in Hfilter. done.
    - apply lookup_ge_None in Hfound. rewrite removeAtIndex_beyond by done.
      split; [done|]. rewrite Hwater. destruct (mWaterEnabled ps) eqn:Henabled; [|done].
      exfalso. destruct (Hptr eq_refl) as (o' & Ho' & Hsame).
      assert (o' = o) as -> by congruence.
      assert (findLinearSearch (mDynamicsWorld ps) o = length (mDynamicsWorld ps)) as Heq
        by (pose proof (findLinearSearch_le (mDynamicsWorld ps) o); lia).
      rewrite <- findLinearSearch_absent in Heq.
      rewrite (Heq (waterPlane (mWaterHeight ps))) in Hsame; [done|].
      apply (list_elem_of_filter inWaterGroup). fold (waterColliders (mDynamicsWorld ps)).
      rewrite Hwater. apply list_elem_of_here. }
  unfold updateWater.
  replace (match mWaterCollisionObject att with
           | Some o =>
               set_mDynamicsWorld (set_mWater ps enabled height)
                 (removeCollisionObject (mDynamicsWorld (set_mWater ps enabled height)) o)
           | None => set_mWater ps enabled height
           end) with (set_mDynamicsWorld (set_mWater ps enabled height) dw1)
    by (rewrite <- Hdw1; by destruct (mWaterCollisionObject att)).
  unfold waterConsistent.
  cbn [mWaterEnabled set_mDynamicsWorld set_mWater mWaterHeight mDynamicsWorld].
  destruct enabled; cbn [negb fst snd mWaterEnabled set_mDynamicsWorld set_mWater mWaterHeight
                           mDynamicsWorld mWaterCollisionObject].
  - unfold addCollisionObject.
    cbn [getCollisionShape getWorldTransform getUserPointer setCollisionShape
         btCollisionObject_new].
    fold (waterPlane height). split_and!.
    + intros e He Hplane. apply elem_of_app in He as [He|He];
        [apply Hplanes; [by apply Hsub|done]|].
      apply list_elem_of_singleton in He. by subst.
    + intros o Ho. inversion Ho; subst. by eexists _, _.
    + unfold waterColliders in *. rewrite filter_app, Hnone. by rewrite filter_cons_True.
    + intros _. eexists. split; [reflexivity|]. unfold sameObject. by apply bool_decide_eq_true.
  - split_and!; [|done|done|done].
    intros e He. apply Hplanes. by apply Hsub.
Qed.

Lemma updateWater_flags (ps ps' : PhysicsSystem) (att att' : Attachments) :
  updateWater ps att = (ps', att') →
  mWaterEnabled ps' = mWaterEnabled ps ∧ mWaterHeight ps' = mWaterHeight ps.
Proof.
  unfold updateWater. intros Hupdate.
  destruct (mWaterCollisionObject att); cbn in Hupdate;
    destruct (mWaterEnabled ps) eqn:Henabled; inversion Hupdate; by subst.
Qed.

Lemma waterConsistent_new (manager : BulletShapeManager) :
  waterConsistent (PhysicsSystem_new manager) Attachments_new.
Proof.
  unfold waterConsistent. cbn. split_and!; try done.
  intros e He. by apply elem_of_nil in He.
Qed.

(** X23.  [enableWater] keeps the water members and the collision
    world in agreement and leaves water enabled; the stored height is
    the requested one, or one that compares equal to it (the request
    is then ignored); and the world holds exactly one collider of the
    Water group, the plane z = stored height with the mask Actor. *)
Theorem enableWater_consistent (ps : PhysicsSystem) (att : Attachments) (height : float) :
  waterConsistent ps att →
  let ps' := (enableWater ps att height).1 in
  let att' := (enableWater ps att height).2 in
  waterConsistent ps' att'
  ∧ mWaterEnabled ps' = true
  ∧ (mWaterHeight ps' = height ∨ F32.eqb (mWaterHeight ps') height = true)
  ∧ waterColliders (mDynamicsWorld ps') = [waterPlane (mWaterHeight ps')].
Proof.
  intros Hconsistent. cbn zeta. unfold enableWater.
  destruct (negb (mWaterEnabled ps) || negb (F32.eqb (mWaterHeight ps) height)) eqn:Hguard.
  - pose proof (updateWater_consistent ps att true height Hconsistent) as Hnew.
    destruct (updateWater (set_mWater ps true height) att) as [ps' att'] eqn:Hupdate.
    apply updateWater_flags in Hupdate as [Hon Hat]. cbn in Hon, Hat.
    cbn [fst snd] in *. split_and!; [done|done|by left|].
    destruct Hnew as (_ & _ & Hwater & _). by rewrite Hon in Hwater.
  - apply orb_false_elim in Hguard as [Hon Hat].
    apply negb_false_iff in Hon. apply negb_false_iff in Hat.
    cbn [fst snd]. split_and!; [done|done|by right|].
    destruct Hconsistent as (_ & _ & Hwater & _). by rewrite Hon in Hwater.
Qed.

(** X24.  [disableWater] keeps the water members and the collision
    world in agreement, leaves water disabled and the stored height as
    it was, and leaves no collider of the Water group in the world;
    when water is disabled already it changes nothing. *)
Theorem disableWater_consistent (ps : PhysicsSystem) (att : Attachments) :
  waterConsistent ps att →
  let ps' := (disableWater ps att).1 in
  let att' := (disableWater ps att).2 in
  waterConsistent ps' att'
  ∧ mWaterEnabled ps' = false
  ∧ mWaterHeight ps' = mWaterHeight ps
  ∧ waterColliders (mDynamicsWorld ps') = []
  ∧ (mWaterEnabled ps = false → ps' = ps ∧ att' = att).
Proof.
  intros Hconsistent. cbn zeta. unfold disableWater.
  destruct (mWaterEnabled ps) eqn:Henabled; cbn [fst snd].
  - pose proof (updateWater_consistent ps att false (mWaterHeight ps) Hconsistent) as Hnew.
    destruct (updateWater (set_mWater ps false (mWaterHeight ps)) att) as [ps' att']
      eqn:Hupdate.
    apply updateWater_flags in Hupdate as [Hoff Hat]. cbn in Hoff, Hat.
    cbn [fst snd] in *. split_and!; [done|done|done| |done].
    destruct Hnew as (_ & _ & Hwater & _). by rewrite Hoff in Hwater.
  - split_and!; try done.
    destruct Hconsistent as (_ & _ & Hwater & _). by rewrite Henabled in Hwater.
Qed.

(** X25.  [setWaterHeight] keeps the water members and the collision
    world in agreement and does not enable or disable water; the
    stored height is the requested one, or one that compares equal to
    it; with water enabled the world holds the one plane at the stored
    height, and with water disabled it holds no collider of the Water
    group: the height is stored without a plane being added. *)
Theorem setWaterHeight_consistent (ps : PhysicsSystem) (att : Attachments) (height : float) :
  waterConsistent ps att →
  let ps' := (setWaterHeight ps att height).1 in
  let att' := (setWaterHeight ps att height).2 in
  waterConsistent ps' att'
  ∧ mWaterEnabled ps' = mWaterEnabled ps
  ∧ (mWaterHeight ps' = height ∨ F32.eqb (mWaterHeight ps') height = true)
  ∧ waterColliders (mDynamicsWorld ps')
    = (if mWaterEnabled ps then [waterPlane (mWaterHeight ps')] else []).
Proof.
  intros Hconsistent. cbn zeta. unfold setWaterHeight.
  destruct (F32.eqb (mWaterHeight ps) height) eqn:Hheight; cbn [negb fst snd].
  - split_and!; [done|done|by right|]. by destruct Hconsistent as (_ & _ & Hwater & _).
  - pose proof (updateWater_consistent ps att (mWaterEnabled ps) height Hconsistent) as Hnew.
    destruct (updateWater (set_mWater ps (mWaterEnabled ps) height) att) as [ps' att']
      eqn:Hupdate.
    apply updateWater_flags in Hupdate as [Hsame Hat]. cbn in Hsame, Hat.
    cbn [fst snd] in *. split_and!; [done|done|by left|].
    destruct Hnew as (_ & _ & Hwater & _). by rewrite Hsame in Hwater.
Qed.

Lemma enableWater_consistent_witness :
  mWaterEnabled (enableWater Stage.fresh Attachments_new (F32.of_Z 5)).1 = true
  ∧ waterColliders (mDynamicsWorld (enableWater Stage.fresh Attachments_new (F32.of_Z 5)).1)
    = [waterPlane
         (mWaterHeight (enableWater Stage.fresh Attachments_new (F32.of_Z 5)).1)].
Proof.
  destruct (enableWater_consistent Stage.fresh Attachments_new (F32.of_Z 5))
    as (_ & Hon & _ & Hwater).
  - apply waterConsistent_new.
  - split; [exact Hon|exact Hwater].
Defined.

Lemma disableWater_consistent_witness :
  mWaterEnabled (disableWater Stage.fresh Attachments_new).1 = false
  ∧ waterColliders (mDynamicsWorld (disableWater Stage.fresh Attachments_new).1) = [].
Proof.
  destruct (disableWater_consistent Stage.fresh Attachments_new)
    as (_ & Hoff & _ & Hwater & _).
  - apply waterConsistent_new.
  - split; [exact Hoff|exact Hwater].
Defined.

Lemma setWaterHeight_consistent_witness :
  mWaterEnabled (setWaterHeight Stage.fresh Attachments_new (F32.of_Z 5)).1 = false
  ∧ waterColliders (mDynamicsWorld (setWaterHeight Stage.fresh Attachments_new (F32.of_Z 5)).1)
    = [].
Proof.
  destruct (setWaterHeight_consistent Stage.fresh Attachments_new (F32.of_Z 5))
    as (_ & Hsame & _ & Hwater).
  - apply waterConsistent_new.
  - split; [exact Hsame|exact Hwater].
Defined.

(** ** Debug rendering *)

(** X26.  [toggleDebugRendering] returns the negated flag and stores
    it, so that toggling twice returns the original flag; a debug
    drawer exists afterwards exactly when the flag has become true or
    a drawer existed before, it is never dropped, and its debug mode
    is the stored flag. *)
Theorem toggleDebugRendering_flips (ps : PhysicsSystem) (att : Attachments) :
  let result := toggleDebugRendering ps att in
  let enabled := result.1.1 in
  let att' := result.2 in
  enabled = negb (mDebugDrawEnabled ps)
  ∧ result.1.2 = set_mDebugDrawEnabled ps enabled
  ∧ (toggleDebugRendering result.1.2 att').1.1 = mDebugDrawEnabled ps
  ∧ (is_Some (mDebugDrawer att') ↔ enabled = true ∨ is_Some (mDebugDrawer att))
  ∧ (∀ drawer : DebugDrawer, mDebugDrawer att' = Some drawer → getDebugMode drawer = enabled)
  ∧ mWaterCollisionObject att' = mWaterCollisionObject att.
Proof.
  unfold toggleDebugRendering.
  destruct (mDebugDrawEnabled ps) eqn:Henabled, (mDebugDrawer att) as [drawer|] eqn:Hdrawer;
    cbn; rewrite ?Henabled; cbn; split_and!; try done;
    try (intros d Heq; by inversion Heq);
    (split;
     [intros [d Hd]; first [done|by left|right; by eexists]
     |intros [Hd|[d Hd]]; first [done|by eexists]]).
Qed.

(** ** Walking on water *)

Section WaterWalking.

Context `{Collaborators}.

(** What [applyQueuedMovement] reads of the game world to decide
    whether an actor may walk on water is not changed by the tick. *)
Lemma move_keeps_water_data
    (w : World) (dw : btDynamicsWorld) (ptr : Ptr) (physicActor : Actor)
    (movement : Vec3f) (time : float) (isFlying : bool) (waterlevel slowFall : float)
    (newpos : Vec3f) (physicActor' : Actor) (w' : World) :
  move w dw ptr physicActor movement time isFlying waterlevel slowFall
  = Some (newpos, physicActor', w') →
  isUnderwater w' = isUnderwater w
  ∧ ∀ p : Ptr,
      getCell (refData w' p) = getCell (refData w p)
      ∧ getPosition (refData w' p) = getPosition (refData w p)
      ∧ waterWalkingMagnitude (refData w' p) = waterWalkingMagnitude (refData w p).
Proof.
  intros Hmove. apply move_changes in Hmove as [_ [->|[_ ->]]]; [done|].
  split; [done|]. intros p. simpl. by destruct (decide (p = ptr)).
Qed.

Lemma applyQueuedEntry_water_walk
    (dw : btDynamicsWorld) (t : float) (first : Ptr) (second : Vec3f)
    (w w' : World) (actors actors' : gmap Ptr Actor) (results results' : PtrVelocityList) :
  applyQueuedEntry dw t (first, second) (w, actors, results) = Some (w', actors', results') →
  (isUnderwater w' = isUnderwater w
   ∧ ∀ p : Ptr,
       getCell (refData w' p) = getCell (refData w p)
       ∧ getPosition (refData w' p) = getPosition (refData w p)
       ∧ waterWalkingMagnitude (refData w' p) = waterWalkingMagnitude (refData w p))
  ∧ (is_Some (actors !! first) →
     ∃ actor' : Actor,
       actors' !! first = Some actor'
       ∧ getCanWaterWalk actor'
         = F32.nonzero (waterWalkingMagnitude (refData w first))
           && hasWater (getCell (refData w first))
           && negb (isUnderwater w (getCell (refData w first))
                      (asVec3 (getPosition (refData w first))))).
Proof.
  unfold applyQueuedEntry. intros Hentry.
  destruct (actors !! first) as [physicActor|] eqn:Hactor.
  2: { inversion Hentry; subst. split; [done|]. by intros [? ?]. }
  destruct (move _ _ _ _ _ _ _ _ _) as [[[newpos physicActor'] w1]|] eqn:Hmove; [|done].
  pose proof (move_keeps_water_data _ _ _ _ _ _ _ _ _ _ _ _ Hmove) as [Hunder Hdata].
  apply move_changes in Hmove as [(onGround & walking & inertia & -> & _) _].
  assert (w' = w1 ∨ ∃ g, w' = updateRef w1 first (fun r => addToFallHeight r g)) as Hw'.
  { destruct (F32.ltb _ _); inversion Hentry; subst; [right; by eexists|by left]. }
  assert (actors' = <[first := mkActor (actorPtr (setCanWaterWalk physicActor
            (F32.nonzero (waterWalkingMagnitude (refData w first))
             && hasWater (getCell (refData w first))
             && negb (isUnderwater w (getCell (refData w first))
                        (asVec3 (getPosition (refData w first)))))))
            (getActorCollisionObject physicActor) (getHalfExtents physicActor)
            onGround inertia (getCollisionMode physicActor)
            (F32.nonzero (waterWalkingMagnitude (refData w first))
             && hasWater (getCell (refData w first))
             && negb (isUnderwater w (getCell (refData w first))
                        (asVec3 (getPosition (refData w first)))))
            walking]> actors) as ->
    by (destruct (F32.ltb _ _); by inversion Hentry).
  split.
  - destruct Hw' as [->|[g ->]]; [done|].
    split; [done|]. intros p. simpl. destruct (decide (p = first)) as [->|_]; [|done].
    apply Hdata.
  - intros _. eexists. rewrite lookup_insert_eq. split; [reflexivity|]. done.
Qed.

Lemma applyQueue_water_walk
    (dw : btDynamicsWorld) (t : float) (queue : PtrVelocityList)
    (w w' : World) (actors actors' : gmap Ptr Actor) (results results' : PtrVelocityList) :
  applyQueue dw t queue (w, actors, results) = Some (w', actors', results') →
  (isUnderwater w' = isUnderwater w
   ∧ ∀ p : Ptr,
       getCell (refData w' p) = getCell (refData w p)
       ∧ getPosition (refData w' p) = getPosition (refData w p)
       ∧ waterWalkingMagnitude (refData w' p) = waterWalkingMagnitude (refData w p))
  ∧ ∀ p : Ptr, p ∈ queue.*1 → is_Some (actors !! p) →
      ∃ actor' : Actor,
        actors' !! p = Some actor'
        ∧ getCanWaterWalk actor'
          = F32.nonzero (waterWalkingMagnitude (refData w p))
            && hasWater (getCell (refData w p))
            && negb (isUnderwater w (getCell (refData w p))
                       (asVec3 (getPosition (refData w p)))).
Proof.
  revert w actors results.
  induction queue as [|[first second] rest IH]; intros w actors results Hqueue.
  - inversion Hqueue; subst. split; [done|]. intros p Hp. by apply elem_of_nil in Hp.
  - cbn [applyQueue] in Hqueue.
    apply bind_Some in Hqueue as ([[w1 actors1] results1] & Hentry & Hrest).
    pose proof (applyQueuedEntry_frame _ _ _ _ _ _ _ _ _ _ Hentry) as (Hdom1 & _ & Hother1).
    apply applyQueuedEntry_water_walk in Hentry as ([Hunder1 Hdata1] & Hfirst).
    pose proof (applyQueue_frame _ _ _ _ _ _ _ _ _ Hrest) as (_ & _ & Hother).
    apply IH in Hrest as ([Hunder Hdata] & Hlater).
    split.
    + split; [congruence|]. intros p.
      destruct (Hdata p) as (-> & -> & ->). apply Hdata1.
    + intros p Hp Hreg. rewrite fmap_cons in Hp.
      assert (is_Some (actors1 !! p)) as Hreg1 by (by rewrite <- elem_of_dom, Hdom1, elem_of_dom).
      destruct (decide (p ∈ rest.*1)) as [Hin|Hout].
      * destruct (Hlater p Hin Hreg1) as (actor' & Hactor' & Hflag).
        exists actor'. split; [done|]. rewrite Hflag, Hunder1.
        by destruct (Hdata1 p) as (-> & -> & ->).
      * apply elem_of_cons in Hp as [->|Hp]; [|done]. simpl in *.
        destruct (Hfirst Hreg) as (actor' & Hactor' & Hflag).
        exists actor'. split; [|done]. by destruct (Hother first Hout) as [-> _].
Qed.

(** X27.  After a call of [applyQueuedMovement] that brings the
    accumulated time to 1/60 s or more, every registered actor that
    had a movement queued may walk on water exactly when its entity
    has a water-walking effect of non-zero magnitude, its cell has
    water and the entity is not under water, as the game world stood
    before the call. *)
Theorem applyQueuedMovement_water_walk
    (w : World) (ps : PhysicsSystem) (dt : float) (p : Ptr) :
  tracerSound (mDynamicsWorld ps) →
  (mTimeAccum ps + dt >=? F32.lit 1 60)%f32 = true →
  p ∈ (mMovementQueue ps).*1 →
  is_Some (mActors ps !! p) →
  ∃ (results : PtrVelocityList) (ps' : PhysicsSystem) (w' : World) (actor' : Actor),
    applyQueuedMovement w ps dt = Some (results, ps', w')
    ∧ mActors ps' !! p = Some actor'
    ∧ getCanWaterWalk actor'
      = F32.nonzero (waterWalkingMagnitude (refData w p))
        && hasWater (getCell (refData w p))
        && negb (isUnderwater w (getCell (refData w p)) (asVec3 (getPosition (refData w p)))).
Proof.
  intros Hsound Habove Hqueued Hregistered.
  destruct (applyQueuedMovement_total w ps dt Hsound) as [[[results ps'] w'] Hcall].
  exists results, ps', w'. pose proof Hcall as Hrun.
  unfold applyQueuedMovement in Hrun.
  cbn [mTimeAccum set_mTimeAccum set_mMovementResults] in Hrun.
  rewrite Habove in Hrun. cbn -[applyQueue F32.of_Z] in Hrun.
  apply bind_Some in Hrun as ([ps1 w1] & Hloop & Hret).
  apply bind_Some in Hloop as ([[w2 actors] results2] & Hloop & Hret2).
  apply applyQueue_water_walk in Hloop as [_ Hflags].
  destruct (Hflags p Hqueued Hregistered) as (actor' & Hactor' & Hflag).
  exists actor'. split; [done|].
  inversion Hret2; subst. by inversion Hret; subst.
Qed.

End WaterWalking.

Lemma applyQueuedMovement_water_walk_witness :
  ∃ (results : PtrVelocityList) (ps' : PhysicsSystem) (w' : World) (actor' : Actor),
    @applyQueuedMovement Scenario.wall Scenario.calm Stage.twoQueued (F32.lit 1 60)
    = Some (results, ps', w')
    ∧ mActors ps' !! Scenario.guard = Some actor'
    ∧ getCanWaterWalk actor' = false.
Proof.
  apply (@applyQueuedMovement_water_walk Scenario.wall Scenario.calm Stage.twoQueued
           (F32.lit 1 60) Scenario.guard).
  - apply wall_tracerSound.
  - vm_compute. reflexivity.
  - vm_compute. apply list_elem_of_further, list_elem_of_here.
  - vm_compute. by eexists.
Defined.
